(** * The event bridge of workspace-template

    A shallow embedding of the components that carry gateway events to the
    dashboard, in three modules:

    - [Client]: [OpenClawClient] and [OpenClawEventEmitter]
      (packages/openclaw-client/src/client.ts and events.ts), the reconnecting
      connection and the classification of raw frames;
    - [Bridge]: [OpenClawBridge] (apps/api/src/services/openclaw-bridge.ts)
      over the tables of packages/database/src/schema.ts;
    - [Hub]: [createWebSocketServer] (apps/api/src/websocket.ts).

    Every handler is a function from the state it reads to the state it
    leaves, together with the effects it performs in program order; what a
    handler takes from outside (the clock, generated identifiers, the state
    of the sockets) is an argument of the handler.  In [Bridge] a handler
    runs to its end before the next event is handled; [Async] resumes the
    invocations of [handleLifecycleEnd] stretch by stretch, from [await] to
    [await], as the listeners that do not await them allow. *)

From Stdlib Require Import ZArith List Lia.
From stdpp Require Import base option gmap strings list.
Import ListNotations.

Open Scope string_scope.
Open Scope list_scope.
Open Scope Z_scope.

(** ** Values shared by the three components *)

(** [data: Record<string, unknown>] of an agent frame, restricted to the keys
    the code reads.  Keys read through a cast ([data.error as string]) have the
    type of the cast; [phase] and [tokens] may be absent. *)
Record AgentData := mkAgentData {
  phase : option string;
  error : string;
  toolName : string;
  args : string;
  text : string;
  tokens : option Z
}.

(** The typed events of [OpenClawEventMap], with the arguments each is
    emitted with. *)
Inductive NormalizedEvent :=
| LifecycleStart (runId sessionKey : string) (data : AgentData)
| LifecycleEnd (runId sessionKey : string) (data : AgentData)
| LifecycleError (runId sessionKey : string) (err : string)
| ToolCall (runId tool : string) (arguments : string)
| AssistantDelta (runId txt : string)
| AssistantFinal (runId txt : string).

(** [x || ''] on a possibly absent string. *)
Definition or_empty (o : option string) : string := default "" o.

(** [(x as number) || 0]. *)
Definition or_zero (o : option Z) : Z := default 0 o.

(** JavaScript truthiness of [string | null]. *)
Definition truthy (o : option string) : bool :=
  match o with
  | Some s => negb (String.eqb s "")
  | None => false
  end.

(** [readyState] of a socket of the [ws] package. *)
Inductive ReadyState := CONNECTING | OPEN | CLOSING | CLOSED.

(** ** The gateway client *)

Module Client.

Record AgentEventPayload := mkAgentEventPayload {
  a_runId : string;
  a_sessionKey : option string;
  a_stream : string;
  a_seq : Z;
  a_ts : Z;
  a_data : AgentData
}.

Record ContentBlock := mkContentBlock {
  c_type : string;
  c_text : option string
}.

Record ChatMessage := mkChatMessage {
  m_role : string;
  m_content : list ContentBlock
}.

Record ChatEventPayload := mkChatEventPayload {
  c_runId : string;
  c_sessionKey : string;
  c_seq : Z;
  c_state : string;
  c_message : option ChatMessage
}.

(** [OpenClawEvent]: the frame's [type] with the payload it carries. *)
Inductive OpenClawEvent :=
| AgentEvent (p : AgentEventPayload)
| ChatEvent (p : ChatEventPayload)
| SessionEvent
| HeartbeatEvent.

(** What [OpenClawEventEmitter.emit] is called with. *)
Inductive Emission :=
| Connected
| Disconnected (reason : string)
| Errored
| RawAgent (p : AgentEventPayload)
| RawChat (p : ChatEventPayload)
| RawSession
| RawHeartbeat
| Typed (e : NormalizedEvent).

(** [processAgentEvent]: the [switch] on [stream] has no default case. *)
Definition processAgentEvent (payload : AgentEventPayload) : list Emission :=
  let runId := a_runId payload in
  let sessionKey := default "" (a_sessionKey payload) in
  let stream := a_stream payload in
  let data := a_data payload in
  if String.eqb stream "lifecycle" then
    match phase data with
    | Some ph =>
        if String.eqb ph "start" then [Typed (LifecycleStart runId sessionKey data)]
        else if String.eqb ph "end" then [Typed (LifecycleEnd runId sessionKey data)]
        else if String.eqb ph "error" then [Typed (LifecycleError runId sessionKey (error data))]
        else []
    | None => []
    end
  else if String.eqb stream "tool" then
    [Typed (ToolCall runId (toolName data) (args data))]
  else if String.eqb stream "assistant" then
    [Typed (AssistantDelta runId (text data))]
  else [].

(** [message?.content?.[0]?.text || '']. *)
Definition first_block_text (message : option ChatMessage) : string :=
  match message with
  | Some m =>
      match m_content m with
      | b :: _ => or_empty (c_text b)
      | [] => ""
      end
  | None => ""
  end.

Definition processChatEvent (payload : ChatEventPayload) : list Emission :=
  let runId := c_runId payload in
  let state := c_state payload in
  let txt := first_block_text (c_message payload) in
  if String.eqb state "delta" then [Typed (AssistantDelta runId txt)]
  else if String.eqb state "final" then [Typed (AssistantFinal runId txt)]
  else [].

(** [processRawEvent]: the frame is re-emitted under its own type, then an
    agent or chat frame is refined. *)
Definition processRawEvent (event : OpenClawEvent) : list Emission :=
  match event with
  | AgentEvent p => RawAgent p :: processAgentEvent p
  | ChatEvent p => RawChat p :: processChatEvent p
  | SessionEvent => [RawSession]
  | HeartbeatEvent => [RawHeartbeat]
  end.

Definition typed_of (e : Emission) : option NormalizedEvent :=
  match e with
  | Typed n => Some n
  | _ => None
  end.

(** The typed events a raw frame gives rise to, and the first of them. *)
Definition typed_events (event : OpenClawEvent) : list NormalizedEvent :=
  omap typed_of (processRawEvent event).

Definition normalize (event : OpenClawEvent) : option NormalizedEvent :=
  head (typed_events event).

(** The combinations of class and discriminator the emitter refines. *)
Definition recognized (e : OpenClawEvent) : Prop :=
  match e with
  | AgentEvent p =>
      (a_stream p = "lifecycle"
       /\ (phase (a_data p) = Some "start"
           \/ phase (a_data p) = Some "end"
           \/ phase (a_data p) = Some "error"))
      \/ a_stream p = "tool"
      \/ a_stream p = "assistant"
  | ChatEvent p => c_state p = "delta" \/ c_state p = "final"
  | SessionEvent | HeartbeatEvent => False
  end.

(** *** Connection management *)

Record OpenClawClient := mkClient {
  ws : option ReadyState;
  reconnectAttempts : Z;
  maxReconnectAttempts : Z;
  reconnectDelay : Z;
  isConnecting : bool
}.

(** The field initialisers of the class. *)
Definition new_client : OpenClawClient :=
  {| ws := None;
     reconnectAttempts := 0;
     maxReconnectAttempts := 10;
     reconnectDelay := 1000;
     isConnecting := false |}.

Inductive Frame :=
| Subscribe (events : list string).

(** Effects of the connection handlers, in program order. *)
Inductive Effect :=
| NewWebSocket
| Emit (e : Emission)
| WsSend (f : Frame)
| WsClose
| Resolve
| Reject
| SetTimeout (delay : Z)
| ConsoleError (msg : string)
| ConsoleLog (msg : string).

Definition is_open (c : OpenClawClient) : bool :=
  match ws c with
  | Some OPEN => true
  | _ => false
  end.

(** [connect()] up to the registration of the socket's listeners. *)
Definition connect (c : OpenClawClient) : OpenClawClient * list Effect :=
  if isConnecting c || is_open c then (c, [])
  else
    ({| ws := Some CONNECTING;
        reconnectAttempts := reconnectAttempts c;
        maxReconnectAttempts := maxReconnectAttempts c;
        reconnectDelay := reconnectDelay c;
        isConnecting := true |},
     [NewWebSocket]).

Definition handshake : Frame :=
  Subscribe ["agent"; "chat"; "session"; "heartbeat"].

(** The ['open'] listener.  The socket has reached [OPEN]; [this.ws?.send]
    sends nothing when [disconnect()] has cleared the field in between. *)
Definition on_open (c : OpenClawClient) : OpenClawClient * list Effect :=
  let ws' := match ws c with Some _ => Some OPEN | None => None end in
  ({| ws := ws';
      reconnectAttempts := 0;
      maxReconnectAttempts := maxReconnectAttempts c;
      reconnectDelay := reconnectDelay c;
      isConnecting := false |},
   Emit Connected
     :: match ws' with Some _ => [WsSend handshake] | None => [] end
     ++ [Resolve]).

(** [scheduleReconnect]; the counter is never negative, so the exponent of
    [Math.pow(2, attempts - 1)] is a natural number and the delay an integer. *)
Definition scheduleReconnect (c : OpenClawClient) : OpenClawClient * list Effect :=
  if Z.leb (maxReconnectAttempts c) (reconnectAttempts c) then
    (c, [ConsoleError "Max reconnection attempts reached"])
  else
    let attempts := reconnectAttempts c + 1 in
    let delay := reconnectDelay c * 2 ^ (attempts - 1) in
    ({| ws := ws c;
        reconnectAttempts := attempts;
        maxReconnectAttempts := maxReconnectAttempts c;
        reconnectDelay := reconnectDelay c;
        isConnecting := isConnecting c |},
     [ConsoleLog "Reconnecting"; SetTimeout delay]).

(** The ['close'] listener; [reason] is the text already defaulted to
    [Code: n]. *)
Definition on_close (reason : string) (c : OpenClawClient)
  : OpenClawClient * list Effect :=
  let c1 :=
    {| ws := match ws c with Some _ => Some CLOSED | None => None end;
       reconnectAttempts := reconnectAttempts c;
       maxReconnectAttempts := maxReconnectAttempts c;
       reconnectDelay := reconnectDelay c;
       isConnecting := false |} in
  let '(c2, eff) := scheduleReconnect c1 in
  (c2, Emit (Disconnected reason) :: eff).

(** The ['error'] listener. *)
Definition on_error (c : OpenClawClient) : OpenClawClient * list Effect :=
  ({| ws := ws c;
      reconnectAttempts := reconnectAttempts c;
      maxReconnectAttempts := maxReconnectAttempts c;
      reconnectDelay := reconnectDelay c;
      isConnecting := false |},
   Emit Errored :: (if Z.eqb (reconnectAttempts c) 0 then [Reject] else [])).

Definition disconnect (c : OpenClawClient) : OpenClawClient * list Effect :=
  ({| ws := None;
      reconnectAttempts := maxReconnectAttempts c;
      maxReconnectAttempts := maxReconnectAttempts c;
      reconnectDelay := reconnectDelay c;
      isConnecting := isConnecting c |},
   match ws c with Some _ => [WsClose] | None => [] end).

(** What can happen to a client: a call of its API, a socket callback, or
    a reconnect timer firing (which calls [connect()]). *)
Inductive Input :=
| CallConnect
| CallDisconnect
| SocketOpen
| SocketClose (reason : string)
| SocketError
| SocketMessage (event : OpenClawEvent)
| TimerFires.

Definition step (i : Input) (c : OpenClawClient) : OpenClawClient * list Effect :=
  match i with
  | CallConnect | TimerFires => connect c
  | CallDisconnect => disconnect c
  | SocketOpen => on_open c
  | SocketClose reason => on_close reason c
  | SocketError => on_error c
  | SocketMessage event => (c, map Emit (processRawEvent event))
  end.

Fixpoint run (inputs : list Input) (c : OpenClawClient) : OpenClawClient * list Effect :=
  match inputs with
  | [] => (c, [])
  | i :: rest =>
      let '(c1, e1) := step i c in
      let '(c2, e2) := run rest c1 in
      (c2, e1 ++ e2)
  end.

(** The delays of the timers an effect trace sets. *)
Definition delay_of (e : Effect) : option Z :=
  match e with
  | SetTimeout d => Some d
  | _ => None
  end.

Definition delays (tr : list Effect) : list Z := omap delay_of tr.

Definition is_successful_open (i : Input) : bool :=
  match i with
  | SocketOpen => true
  | _ => false
  end.

(** One failed attempt as the socket reports it: ['error'], then ['close'],
    then the reconnect timer fires. *)
Definition failed_attempt : list Input :=
  [SocketError; SocketClose "Code: 1006"; TimerFires].

(** A gateway that never accepts the connection. *)
Definition unreachable_gateway (n : nat) : list Input :=
  CallConnect :: concat (repeat failed_attempt n).

(** The handshake is sent before ['connected'] is emitted: every emission
    of ['connected'] in the trace has a sent frame before it. *)
Definition handshake_precedes_connected (tr : list Effect) : Prop :=
  forall pre post, tr = pre ++ Emit Connected :: post ->
                   exists f, In (WsSend f) pre.

Definition with_attempts (n : Z) (c : OpenClawClient) : OpenClawClient :=
  {| ws := ws c;
     reconnectAttempts := n;
     maxReconnectAttempts := maxReconnectAttempts c;
     reconnectDelay := reconnectDelay c;
     isConnecting := isConnecting c |}.

End Client.

(** ** Frames sent to dashboard observers *)

Inductive TaskStatus :=
| inbox | assigned | in_progress | review | blocked | done | cancelled.

Inductive Outcome := success | failed | outcome_cancelled.

Inductive AgentStatus := idle | working | waiting | offline.

Inductive WSMessageType :=
| task_update | agent_update | activity | output_delta
| block_request | stats_update | pong.

(** [Partial<Task>] as the bridge fills it. *)
Record TaskChanges := mkTaskChanges {
  ch_status : option TaskStatus;
  ch_outcome : option Outcome;
  ch_output : option string;
  ch_startedAt : option Z;
  ch_completedAt : option Z
}.

Inductive WSData :=
| TaskUpdateData (taskId : string) (changes : TaskChanges)
| AgentUpdateData (agentId : string) (status : AgentStatus)
| ActivityData (taskId action tool : string)
| OutputDeltaData (taskId runId delta fullOutput : string)
| PlainData.

Record WSMessage := mkWSMessage {
  msg_type : WSMessageType;
  msg_data : WSData;
  msg_timestamp : Z
}.

(** [(message.data as any).taskId]. *)
Definition data_taskId (d : WSData) : option string :=
  match d with
  | TaskUpdateData t _ => Some t
  | ActivityData t _ _ => Some t
  | OutputDeltaData t _ _ _ => Some t
  | AgentUpdateData _ _ | PlainData => None
  end.

(** ** The bridge from gateway events to the database *)

Module Bridge.

Inductive ActivityAction :=
| task_created | task_assigned | task_started | task_completed
| task_failed | task_blocked | task_unblocked | task_cancelled
| comment_added | agent_spawned | status_changed.

(** Rows of the schema, with the columns the bridge reads or writes. *)
Record Task := mkTask {
  task_id : string;
  task_status : TaskStatus;
  assignedAgentId : option string;
  openclawRunId : option string;
  startedAt : option Z;
  completedAt : option Z;
  outcome : option Outcome;
  output : option string;
  tokensUsed : Z
}.

Record Agent := mkAgent {
  agent_id : string;
  agent_status : AgentStatus;
  totalTasks : Z;
  completedTasks : Z;
  totalTokens : Z;
  lastActiveAt : option Z
}.

Record Activity := mkActivity {
  activity_id : string;
  activity_taskId : option string;
  activity_agentId : option string;
  action : ActivityAction;
  details : list (string * string);
  createdAt : Z
}.

Record OutputBuffer := mkOutputBuffer {
  buffer_id : string;
  buffer_taskId : string;
  buffer_runId : string;
  content : string;
  lastSeq : Z;
  updatedAt : Z
}.

(** Tables are row lists in insertion order. *)
Record Database := mkDatabase {
  tasks : list Task;
  agents : list Agent;
  activities : list Activity;
  outputBuffers : list OutputBuffer
}.

(** The bridge object: the database it holds, its private accumulator map,
    and the ['ws:broadcast'] events it has emitted, oldest first. *)
Record OpenClawBridge := mkBridge {
  db : Database;
  outputAccumulators : gmap string string;
  emitted : list WSMessage
}.

(** What a handler draws from outside during one invocation: the clock and
    the identifiers [ids.activity()] and [ids.run()] return. *)
Record Env := mkEnv {
  now : Z;
  activityId : string;
  runBufferId : string
}.

(** An [async] handler either returns or its promise is rejected; the
    writes made before a rejection stay (no transaction spans a handler). *)
Inductive Completion (A : Type) :=
| Returned (a : A)
| Rejected (reason : string).
Arguments Returned {A} a.
Arguments Rejected {A} reason.

Definition M (A : Type) : Type := OpenClawBridge -> Completion A * OpenClawBridge.

Definition ret {A} (a : A) : M A := fun b => (Returned a, b).

Definition bind {A B} (m : M A) (k : A -> M B) : M B :=
  fun b =>
    match m b with
    | (Returned a, b1) => k a b1
    | (Rejected r, b1) => (Rejected r, b1)
    end.

Definition reject {A} (reason : string) : M A := fun b => (Rejected reason, b).

Notation "x <- m ;; k" := (bind m (fun x => k))
  (at level 100, m at next level, right associativity).
Notation "m ;;; k" := (bind m (fun _ => k))
  (at level 100, right associativity).

Definition get_db : M Database := fun b => (Returned (db b), b).

Definition put_db (d : Database) : M unit :=
  fun b => (Returned tt,
            {| db := d;
               outputAccumulators := outputAccumulators b;
               emitted := emitted b |}).

Definition get_accumulators : M (gmap string string) :=
  fun b => (Returned (outputAccumulators b), b).

Definition put_accumulators (acc : gmap string string) : M unit :=
  fun b => (Returned tt,
            {| db := db b;
               outputAccumulators := acc;
               emitted := emitted b |}).

(** [this.emit('ws:broadcast', message)]. *)
Definition emit (m : WSMessage) : M unit :=
  fun b => (Returned tt,
            {| db := db b;
               outputAccumulators := outputAccumulators b;
               emitted := emitted b ++ [m] |}).

(** *** Queries and statements *)

Definition has_run (runId : string) (t : Task) : bool :=
  match openclawRunId t with
  | Some r => String.eqb r runId
  | None => false
  end.

(** [db.query.tasks.findFirst({ where: eq(tasks.openclawRunId, runId) })]. *)
Definition findTaskByRunId (runId : string) : M (option Task) :=
  d <- get_db ;; ret (find (has_run runId) (tasks d)).

Definition findAgent (id : string) : M (option Agent) :=
  d <- get_db ;; ret (find (fun a => String.eqb (agent_id a) id) (agents d)).

(** [db.update(tasks).set(...).where(eq(tasks.id, id))]. *)
Definition update_tasks (id : string) (set : Task -> Task) : M unit :=
  d <- get_db ;;
  put_db {| tasks := map (fun t => if String.eqb (task_id t) id then set t else t) (tasks d);
            agents := agents d;
            activities := activities d;
            outputBuffers := outputBuffers d |}.

Definition update_agents (id : string) (set : Agent -> Agent) : M unit :=
  d <- get_db ;;
  put_db {| tasks := tasks d;
            agents := map (fun a => if String.eqb (agent_id a) id then set a else a) (agents d);
            activities := activities d;
            outputBuffers := outputBuffers d |}.

(** [db.update(outputBuffers).set(...).where(eq(outputBuffers.runId, runId))]. *)
Definition update_outputBuffers (runId : string) (set : OutputBuffer -> OutputBuffer)
  : M unit :=
  d <- get_db ;;
  put_db {| tasks := tasks d;
            agents := agents d;
            activities := activities d;
            outputBuffers :=
              map (fun o => if String.eqb (buffer_runId o) runId then set o else o)
                  (outputBuffers d) |}.

Definition task_exists (d : Database) (id : string) : bool :=
  existsb (fun t => String.eqb (task_id t) id) (tasks d).

Definition agent_exists (d : Database) (id : string) : bool :=
  existsb (fun a => String.eqb (agent_id a) id) (agents d).

(** A nullable [references] column is satisfied by [NULL] or a parent row. *)
Definition fk_ok (parent : string -> bool) (ref : option string) : bool :=
  match ref with
  | Some id => parent id
  | None => true
  end.

(** [db.insert(activities).values(a)]: [id] is the primary key, [task_id]
    and [agent_id] reference their tables, and foreign keys are enforced. *)
Definition insert_activity (a : Activity) : M unit :=
  d <- get_db ;;
  if existsb (fun x => String.eqb (activity_id x) (activity_id a)) (activities d)
  then reject "UNIQUE constraint failed: activities.id"
  else if negb (fk_ok (task_exists d) (activity_taskId a)
                && fk_ok (agent_exists d) (activity_agentId a))
  then reject "FOREIGN KEY constraint failed"
  else put_db {| tasks := tasks d;
                 agents := agents d;
                 activities := activities d ++ [a];
                 outputBuffers := outputBuffers d |}.

(** [db.insert(outputBuffers).values(o).onConflictDoNothing()]: the only
    uniqueness constraint of the table is its primary key [id]. *)
Definition insert_outputBuffer_onConflictDoNothing (o : OutputBuffer) : M unit :=
  d <- get_db ;;
  if existsb (fun x => String.eqb (buffer_id x) (buffer_id o)) (outputBuffers d)
  then ret tt
  else if negb (task_exists d (buffer_taskId o))
  then reject "FOREIGN KEY constraint failed"
  else put_db {| tasks := tasks d;
                 agents := agents d;
                 activities := activities d;
                 outputBuffers := outputBuffers d ++ [o] |}.

(** *** Helper methods *)

Definition createActivity (env : Env) (taskId agentId : option string)
    (act : ActivityAction) (det : list (string * string)) : M unit :=
  insert_activity {| activity_id := activityId env;
                     activity_taskId := taskId;
                     activity_agentId := agentId;
                     action := act;
                     details := det;
                     createdAt := now env |}.

Definition emitTaskUpdate (env : Env) (taskId : string) (changes : TaskChanges) : M unit :=
  emit {| msg_type := task_update;
          msg_data := TaskUpdateData taskId changes;
          msg_timestamp := now env |}.

Definition emitAgentUpdate (env : Env) (agentId : string) (st : AgentStatus) : M unit :=
  emit {| msg_type := agent_update;
          msg_data := AgentUpdateData agentId st;
          msg_timestamp := now env |}.

(** [if (task.assignedAgentId) { ... }]. *)
Definition when_assigned (t : Task) (k : string -> M unit) : M unit :=
  match assignedAgentId t with
  | Some a => if truthy (Some a) then k a else ret tt
  | None => ret tt
  end.

(** *** The [set({...})] clauses of the handlers *)

(** [{ status: 'in_progress', startedAt: new Date() }] *)
Definition set_in_progress (env : Env) (t : Task) : Task :=
  {| task_id := task_id t;
     task_status := in_progress;
     assignedAgentId := assignedAgentId t;
     openclawRunId := openclawRunId t;
     startedAt := Some (now env);
     completedAt := completedAt t;
     outcome := outcome t;
     output := output t;
     tokensUsed := tokensUsed t |}.

(** [{ status: 'working', lastActiveAt: new Date() }] *)
Definition set_working (env : Env) (a : Agent) : Agent :=
  {| agent_id := agent_id a;
     agent_status := working;
     totalTasks := totalTasks a;
     completedTasks := completedTasks a;
     totalTokens := totalTokens a;
     lastActiveAt := Some (now env) |}.

(** [{ status: 'done', outcome: 'success', output, completedAt: new Date(),
      tokensUsed: (data.tokens as number) || 0 }] *)
Definition set_done (env : Env) (out : string) (data : AgentData) (t : Task) : Task :=
  {| task_id := task_id t;
     task_status := done;
     assignedAgentId := assignedAgentId t;
     openclawRunId := openclawRunId t;
     startedAt := startedAt t;
     completedAt := Some (now env);
     outcome := Some success;
     output := Some out;
     tokensUsed := or_zero (tokens data) |}.

(** [{ status: 'idle', completedTasks: agent.completedTasks + 1,
      totalTokens: agent.totalTokens + ((data.tokens as number) || 0),
      lastActiveAt: new Date() }], where [agent] is the row read before. *)
Definition set_idle_credited (env : Env) (agent : Agent) (data : AgentData) (a : Agent)
  : Agent :=
  {| agent_id := agent_id a;
     agent_status := idle;
     totalTasks := totalTasks a;
     completedTasks := completedTasks agent + 1;
     totalTokens := totalTokens agent + or_zero (tokens data);
     lastActiveAt := Some (now env) |}.

(** [{ status: 'blocked', outcome: 'failed', output: error }] *)
Definition set_blocked (err : string) (t : Task) : Task :=
  {| task_id := task_id t;
     task_status := blocked;
     assignedAgentId := assignedAgentId t;
     openclawRunId := openclawRunId t;
     startedAt := startedAt t;
     completedAt := completedAt t;
     outcome := Some failed;
     output := Some err;
     tokensUsed := tokensUsed t |}.

(** [{ status: 'idle' }] *)
Definition set_idle (a : Agent) : Agent :=
  {| agent_id := agent_id a;
     agent_status := idle;
     totalTasks := totalTasks a;
     completedTasks := completedTasks a;
     totalTokens := totalTokens a;
     lastActiveAt := lastActiveAt a |}.

(** [{ content: updated, updatedAt: new Date() }] *)
Definition set_content (env : Env) (updated : string) (o : OutputBuffer) : OutputBuffer :=
  {| buffer_id := buffer_id o;
     buffer_taskId := buffer_taskId o;
     buffer_runId := buffer_runId o;
     content := updated;
     lastSeq := lastSeq o;
     updatedAt := now env |}.

(** *** Event handlers *)

Definition handleLifecycleStart (env : Env) (runId sessionKey : string)
    (data : AgentData) : M unit :=
  found <- findTaskByRunId runId ;;
  match found with
  | None => ret tt
  | Some task =>
      update_tasks (task_id task) (set_in_progress env) ;;;
      when_assigned task (fun agentId =>
        update_agents agentId (set_working env)) ;;;
      createActivity env (Some (task_id task)) (assignedAgentId task) task_started
        [("runId", runId)] ;;;
      insert_outputBuffer_onConflictDoNothing
        {| buffer_id := runBufferId env;
           buffer_taskId := task_id task;
           buffer_runId := runId;
           content := "";
           lastSeq := 0;
           updatedAt := now env |} ;;;
      emitTaskUpdate env (task_id task)
        {| ch_status := Some in_progress;
           ch_outcome := None;
           ch_output := None;
           ch_startedAt := Some (now env);
           ch_completedAt := None |} ;;;
      when_assigned task (fun agentId => emitAgentUpdate env agentId working)
  end.

(** [const output = this.outputAccumulators.get(runId) || '';
     this.outputAccumulators.delete(runId);] *)
Definition flushAndClear (runId : string) : M string :=
  acc <- get_accumulators ;;
  put_accumulators (delete runId acc) ;;;
  ret (or_empty (acc !! runId)).

Definition handleLifecycleEnd (env : Env) (runId sessionKey : string)
    (data : AgentData) : M unit :=
  found <- findTaskByRunId runId ;;
  match found with
  | None => ret tt
  | Some task =>
      out <- flushAndClear runId ;;
      update_tasks (task_id task) (set_done env out data) ;;;
      when_assigned task (fun agentId =>
        agent <- findAgent agentId ;;
        match agent with
        | Some ag =>
            update_agents agentId (set_idle_credited env ag data)
        | None => ret tt
        end) ;;;
      createActivity env (Some (task_id task)) (assignedAgentId task) task_completed
        [("runId", runId); ("outcome", "success")] ;;;
      emitTaskUpdate env (task_id task)
        {| ch_status := Some done;
           ch_outcome := Some success;
           ch_output := Some out;
           ch_startedAt := None;
           ch_completedAt := Some (now env) |} ;;;
      when_assigned task (fun agentId => emitAgentUpdate env agentId idle)
  end.

Definition handleLifecycleError (env : Env) (runId sessionKey err : string) : M unit :=
  found <- findTaskByRunId runId ;;
  match found with
  | None => ret tt
  | Some task =>
      update_tasks (task_id task) (set_blocked err) ;;;
      when_assigned task (fun agentId => update_agents agentId set_idle) ;;;
      createActivity env (Some (task_id task)) (assignedAgentId task) task_failed
        [("runId", runId); ("error", err)] ;;;
      emitTaskUpdate env (task_id task)
        {| ch_status := Some blocked;
           ch_outcome := Some failed;
           ch_output := None;
           ch_startedAt := None;
           ch_completedAt := None |} ;;;
      when_assigned task (fun agentId => emitAgentUpdate env agentId idle)
  end.

Definition handleToolCall (env : Env) (runId tool arguments : string) : M unit :=
  found <- findTaskByRunId runId ;;
  match found with
  | None => ret tt
  | Some task =>
      createActivity env (Some (task_id task)) (assignedAgentId task) status_changed
        [("type", "tool_call"); ("toolName", tool); ("runId", runId)] ;;;
      emit {| msg_type := activity;
              msg_data := ActivityData (task_id task) "tool_call" tool;
              msg_timestamp := now env |}
  end.

(** [const current = this.outputAccumulators.get(runId) || '';
     const updated = current + text;
     this.outputAccumulators.set(runId, updated);] *)
Definition append (runId txt : string) : M string :=
  acc <- get_accumulators ;;
  let updated := String.append (or_empty (acc !! runId)) txt in
  put_accumulators (<[runId := updated]> acc) ;;;
  ret updated.

Definition handleAssistantDelta (env : Env) (runId txt : string) : M unit :=
  updated <- append runId txt ;;
  found <- findTaskByRunId runId ;;
  match found with
  | None => ret tt
  | Some task =>
      update_outputBuffers runId (set_content env updated) ;;;
      emit {| msg_type := output_delta;
              msg_data := OutputDeltaData (task_id task) runId txt updated;
              msg_timestamp := now env |}
  end.

Definition handleAssistantFinal (env : Env) (runId txt : string) : M unit :=
  ret tt.

(** [getOutputBuffer]. *)
Definition getOutputBuffer (runId : string) (b : OpenClawBridge) : string :=
  or_empty (outputAccumulators b !! runId).

(** The listeners [setupEventListeners] registers, one per typed event. *)
Definition dispatch (env : Env) (e : NormalizedEvent) : M unit :=
  match e with
  | LifecycleStart runId sessionKey data => handleLifecycleStart env runId sessionKey data
  | LifecycleEnd runId sessionKey data => handleLifecycleEnd env runId sessionKey data
  | LifecycleError runId sessionKey err => handleLifecycleError env runId sessionKey err
  | ToolCall runId tool arguments => handleToolCall env runId tool arguments
  | AssistantDelta runId txt => handleAssistantDelta env runId txt
  | AssistantFinal runId txt => handleAssistantFinal env runId txt
  end.

(** Events handled one after the other, in arrival order, each handler
    running to its end before the next event is handled; a rejected handler
    leaves its partial writes and the next event is handled.  Invocations
    that overlap are the subject of [Async]. *)
Definition process (events : list (Env * NormalizedEvent)) (b : OpenClawBridge)
  : OpenClawBridge :=
  fold_left (fun st '(env, e) => snd (dispatch env e st)) events b.

Definition event_runId (e : NormalizedEvent) : string :=
  match e with
  | LifecycleStart r _ _ | LifecycleEnd r _ _ | LifecycleError r _ _
  | ToolCall r _ _ | AssistantDelta r _ | AssistantFinal r _ => r
  end.

(** An event is an orphan when no task row carries its run identity. *)
Definition orphan (e : NormalizedEvent) (b : OpenClawBridge) : Prop :=
  find (has_run (event_runId e)) (tasks (db b)) = None.

Definition is_delta (e : NormalizedEvent) : bool :=
  match e with
  | AssistantDelta _ _ => true
  | _ => false
  end.

(** Observations the properties below are stated on. *)
Definition agent_row (id : string) (b : OpenClawBridge) : option Agent :=
  find (fun a => String.eqb (agent_id a) id) (agents (db b)).

Definition completed_records (taskId : string) (b : OpenClawBridge) : list Activity :=
  List.filter (fun a => match action a, activity_taskId a with
                        | task_completed, Some t => String.eqb t taskId
                        | _, _ => false
                        end) (activities (db b)).

Definition buffers_of_run (runId : string) (b : OpenClawBridge) : list OutputBuffer :=
  List.filter (fun o => String.eqb (buffer_runId o) runId) (outputBuffers (db b)).

(** The texts of the AssistantDelta events of a run, in arrival order. *)
Definition deltas_of (runId : string) (events : list (Env * NormalizedEvent))
  : list string :=
  omap (fun '(_, e) => match e with
                       | AssistantDelta r txt =>
                           if String.eqb r runId then Some txt else None
                       | _ => None
                       end) events.

Definition concat_texts (l : list string) : string :=
  fold_right String.append "" l.

Definition is_end_of (runId : string) (e : NormalizedEvent) : bool :=
  match e with
  | LifecycleEnd r _ _ => String.eqb r runId
  | _ => false
  end.

(** *** A small workspace to run the handlers on *)

Definition task1 : Task :=
  {| task_id := "t1";
     task_status := assigned;
     assignedAgentId := Some "a1";
     openclawRunId := Some "r1";
     startedAt := None;
     completedAt := None;
     outcome := None;
     output := None;
     tokensUsed := 0 |}.

Definition agent1 : Agent :=
  {| agent_id := "a1";
     agent_status := working;
     totalTasks := 1;
     completedTasks := 0;
     totalTokens := 100;
     lastActiveAt := None |}.

Definition bridge0 : OpenClawBridge :=
  {| db := {| tasks := [task1];
              agents := [agent1];
              activities := [];
              outputBuffers := [] |};
     outputAccumulators := ∅;
     emitted := [] |}.

(** The [n]-th invocation: clock [n], identifiers numbered by [tag]. *)
Definition env_n (n : Z) (tag : string) : Env :=
  {| now := n;
     activityId := String.append "act_" tag;
     runBufferId := String.append "run_" tag |}.

Definition tokens42 : AgentData :=
  {| phase := Some "end"; error := ""; toolName := ""; args := "";
     text := ""; tokens := Some 42 |}.

Definition started : AgentData :=
  {| phase := Some "start"; error := ""; toolName := ""; args := "";
     text := ""; tokens := None |}.

(** The scenario of the specification: run [r1] of task [t1] starts, says
    "Hello world" in three deltas, and ends having used 42 tokens. *)
Definition hello_world : list (Env * NormalizedEvent) :=
  [ (env_n 1 "1", LifecycleStart "r1" "s1" started);
    (env_n 2 "2", AssistantDelta "r1" "Hel");
    (env_n 3 "3", AssistantDelta "r1" "lo ");
    (env_n 4 "4", AssistantDelta "r1" "world");
    (env_n 5 "5", LifecycleEnd "r1" "s1" tokens42) ].

(** The same run reported finished a second time. *)
Definition hello_world_redelivered : list (Env * NormalizedEvent) :=
  hello_world ++ [ (env_n 6 "6", LifecycleEnd "r1" "s1" tokens42) ].

(** A run that fails after some output. *)
Definition failing_run : list (Env * NormalizedEvent) :=
  [ (env_n 1 "1", LifecycleStart "r1" "s1" started);
    (env_n 2 "2", AssistantDelta "r1" "partial");
    (env_n 3 "3", LifecycleError "r1" "s1" "boom") ].

(** The start of a run delivered twice. *)
Definition start_twice : list (Env * NormalizedEvent) :=
  [ (env_n 1 "1", LifecycleStart "r1" "s1" started);
    (env_n 2 "2", LifecycleStart "r1" "s1" started) ].

(** The audit record [handleLifecycleEnd] writes. *)
Definition completed_record (env : Env) (task : Task) (runId : string) : Activity :=
  {| activity_id := activityId env;
     activity_taskId := Some (task_id task);
     activity_agentId := assignedAgentId task;
     action := task_completed;
     details := [("runId", runId); ("outcome", "success")];
     createdAt := now env |}.

Definition fresh_activity (env : Env) (b : OpenClawBridge) : bool :=
  negb (existsb (fun x => String.eqb (activity_id x) (activityId env))
          (activities (db b))).

(** The keys drawn in a series of invocations are unused and pairwise
    different. *)
Fixpoint fresh_activities (envs : list Env) (b : OpenClawBridge) : bool :=
  match envs with
  | [] => true
  | env :: rest =>
      fresh_activity env b
      && negb (existsb (fun e => String.eqb (activityId e) (activityId env)) rest)
      && fresh_activities rest b
  end.

(** The end of one run delivered once per element of [envs]. *)
Definition redeliveries (envs : list Env) (runId sessionKey : string) (data : AgentData)
  : list (Env * NormalizedEvent) :=
  map (fun env => (env, LifecycleEnd runId sessionKey data)) envs.

(** The bridge after [handleLifecycleEnd] has completed [task], assigned to
    agent [aid] whose row read [ag]. *)
Definition ended (env : Env) (runId : string) (data : AgentData) (task : Task)
    (aid : string) (ag : Agent) (b : OpenClawBridge) : OpenClawBridge :=
  let out := getOutputBuffer runId b in
  {| db :=
       {| tasks :=
            map (fun t => if String.eqb (task_id t) (task_id task)
                          then set_done env out data t else t)
                (tasks (db b));
          agents :=
            map (fun a => if String.eqb (agent_id a) aid
                          then set_idle_credited env ag data a else a)
                (agents (db b));
          activities := activities (db b) ++ [completed_record env task runId];
          outputBuffers := outputBuffers (db b) |};
     outputAccumulators := delete runId (outputAccumulators b);
     emitted :=
       (emitted b
        ++ [ {| msg_type := task_update;
                msg_data :=
                  TaskUpdateData (task_id task)
                    {| ch_status := Some done;
                       ch_outcome := Some success;
                       ch_output := Some out;
                       ch_startedAt := None;
                       ch_completedAt := Some (now env) |};
                msg_timestamp := now env |} ])
       ++ [ {| msg_type := agent_update;
               msg_data := AgentUpdateData aid idle;
               msg_timestamp := now env |} ] |}.

(** The handler of an orphan event changes nothing. *)
Definition orphan_is_noop (env : Env) (e : NormalizedEvent) (b : OpenClawBridge)
  : Prop :=
  orphan e b -> snd (dispatch env e b) = b.

(** A second LifecycleEnd changes neither the counters of the agents nor
    the audit records of completion. *)
Definition end_is_idempotent (env1 env2 : Env) (runId sessionKey : string)
    (data : AgentData) (b : OpenClawBridge) : Prop :=
  let b1 := snd (handleLifecycleEnd env1 runId sessionKey data b) in
  let b2 := snd (handleLifecycleEnd env2 runId sessionKey data b1) in
  map (fun a => (agent_id a, completedTasks a, totalTokens a)) (agents (db b2))
  = map (fun a => (agent_id a, completedTasks a, totalTokens a)) (agents (db b1))
  /\ List.filter (fun a => match action a with task_completed => true | _ => false end)
       (activities (db b2))
     = List.filter (fun a => match action a with task_completed => true | _ => false end)
         (activities (db b1)).

(** A computation leaves an accumulator map [R]-related to the one it
    starts from. *)
Definition keeps (R : relation (gmap string string)) {A} (m : M A) : Prop :=
  forall b, R (outputAccumulators b) (outputAccumulators (snd (m b))).

Definition same_at (runId : string) : relation (gmap string string) :=
  fun before after => after !! runId = before !! runId.

End Bridge.

(** ** The hub that relays bridge events to dashboard observers *)

Module Hub.

(** A socket object, known by its identity. *)
Definition WebSocket : Type := nat.

Record WSClient := mkWSClient {
  ws : WebSocket;
  subscribedTasks : gset string;
  isAlive : bool
}.

(** [clients: Map<WebSocket, WSClient>], in insertion order as [forEach]
    visits it. *)
Definition Clients : Type := list (WebSocket * WSClient).

Fixpoint clients_get (w : WebSocket) (cs : Clients) : option WSClient :=
  match cs with
  | [] => None
  | (k, v) :: rest => if Nat.eqb k w then Some v else clients_get w rest
  end.

(** [Map.set]: an existing key keeps its place, a new key goes last. *)
Fixpoint clients_set (w : WebSocket) (c : WSClient) (cs : Clients) : Clients :=
  match cs with
  | [] => [(w, c)]
  | (k, v) :: rest =>
      if Nat.eqb k w then (k, c) :: rest else (k, v) :: clients_set w c rest
  end.

Fixpoint clients_delete (w : WebSocket) (cs : Clients) : Clients :=
  match cs with
  | [] => []
  | (k, v) :: rest =>
      if Nat.eqb k w then clients_delete w rest else (k, v) :: clients_delete w rest
  end.

(** What the hub draws from outside while it handles one input: the state
    of every socket and the clock. *)
Record Env := mkEnv {
  readyState : WebSocket -> ReadyState;
  now : Z
}.

Inductive Effect :=
| Send (to : WebSocket) (m : WSMessage)
| Ping (to : WebSocket)
| Terminate (to : WebSocket)
| ConsoleLog (msg : string)
| ConsoleError (msg : string).

Definition send (env : Env) (w : WebSocket) (m : WSMessage) : list Effect :=
  match readyState env w with
  | OPEN => [Send w m]
  | _ => []
  end.

Definition broadcast (env : Env) (m : WSMessage) (cs : Clients) : list Effect :=
  flat_map (fun '(_, client) => send env (ws client) m) cs.

Definition broadcastToTask (env : Env) (taskId : string) (m : WSMessage) (cs : Clients)
  : list Effect :=
  flat_map (fun '(_, client) =>
              if bool_decide (taskId ∈ subscribedTasks client)
              then send env (ws client) m
              else []) cs.

Definition task_scoped (t : WSMessageType) : bool :=
  match t with
  | task_update | output_delta => true
  | _ => false
  end.

(** The [bridge.on('ws:broadcast', ...)] listener. *)
Definition on_ws_broadcast (env : Env) (m : WSMessage) (cs : Clients) : list Effect :=
  (if task_scoped (msg_type m) then
     match data_taskId (msg_data m) with
     | Some taskId =>
         if truthy (Some taskId) then broadcastToTask env taskId m cs else []
     | None => []
     end
   else [])
  ++ broadcast env m cs.

(** One run of the [setInterval] callback. *)
Fixpoint heartbeat (cs : Clients) : Clients * list Effect :=
  match cs with
  | [] => ([], [])
  | (w, client) :: rest =>
      let '(rest', eff) := heartbeat rest in
      if negb (isAlive client) then (rest', Terminate w :: eff)
      else ((w, {| ws := ws client;
                   subscribedTasks := subscribedTasks client;
                   isAlive := false |}) :: rest',
            Ping w :: eff)
  end.

(** Frames an observer may send. *)
Inductive ClientMessage :=
| SubscribeTask (taskId : string)
| UnsubscribeTask (taskId : string)
| PingRequest
| OtherMessage
| InvalidJson.

(** [handleClientMessage]: the new value of the client record, with the
    effects. *)
Definition handleClientMessage (env : Env) (client : WSClient) (message : ClientMessage)
  : WSClient * list Effect :=
  match message with
  | SubscribeTask taskId =>
      ({| ws := ws client;
          subscribedTasks := {[taskId]} ∪ subscribedTasks client;
          isAlive := isAlive client |}, [])
  | UnsubscribeTask taskId =>
      ({| ws := ws client;
          subscribedTasks := subscribedTasks client ∖ {[taskId]};
          isAlive := isAlive client |}, [])
  | PingRequest =>
      (client, send env (ws client)
                 {| msg_type := pong; msg_data := PlainData; msg_timestamp := now env |})
  | OtherMessage => (client, [])
  | InvalidJson => (client, [ConsoleError "Invalid WebSocket message"])
  end.

Inductive Input :=
| Connection (w : WebSocket)
| Pong (w : WebSocket)
| Message (w : WebSocket) (message : ClientMessage)
| Close (w : WebSocket)
| HeartbeatTick
| BridgeBroadcast (m : WSMessage).

(** The record the ['message'] listener of [w] mutates is the one stored
    under [w]; an entry goes when its socket closes or is terminated, after
    which the socket delivers no frame. *)
Definition step (env : Env) (i : Input) (cs : Clients) : Clients * list Effect :=
  match i with
  | Connection w =>
      (clients_set w {| ws := w; subscribedTasks := ∅; isAlive := true |} cs,
       ConsoleLog "WebSocket client connected"
         :: send env w {| msg_type := stats_update;
                          msg_data := PlainData;
                          msg_timestamp := now env |})
  | Pong w =>
      match clients_get w cs with
      | Some c =>
          (clients_set w {| ws := ws c;
                            subscribedTasks := subscribedTasks c;
                            isAlive := true |} cs, [])
      | None => (cs, [])
      end
  | Message w message =>
      match clients_get w cs with
      | Some c =>
          let '(c', eff) := handleClientMessage env c message in
          (clients_set w c' cs, eff)
      | None => (cs, [])
      end
  | Close w => (clients_delete w cs, [ConsoleLog "WebSocket client disconnected"])
  | HeartbeatTick => heartbeat cs
  | BridgeBroadcast m => (cs, on_ws_broadcast env m cs)
  end.

Fixpoint run (inputs : list (Env * Input)) (cs : Clients) : Clients * list Effect :=
  match inputs with
  | [] => (cs, [])
  | (env, i) :: rest =>
      let '(cs1, e1) := step env i cs in
      let '(cs2, e2) := run rest cs1 in
      (cs2, e1 ++ e2)
  end.

(** States the hub can be in: it starts with no client. *)
Definition reachable (cs : Clients) : Prop :=
  exists inputs, fst (run inputs []) = cs.

(** Observations the properties below are stated on. *)

(** The frames an effect trace sends to socket [w], in order. *)
Definition received (w : WebSocket) (eff : list Effect) : list WSMessage :=
  omap (fun e => match e with
                 | Send to m => if Nat.eqb to w then Some m else None
                 | _ => None
                 end) eff.

Definition terminated (w : WebSocket) (eff : list Effect) : Prop :=
  In (Terminate w) eff.

Definition registered (w : WebSocket) (cs : Clients) : Prop :=
  is_Some (clients_get w cs).

Definition subscriptions (w : WebSocket) (cs : Clients) : gset string :=
  match clients_get w cs with
  | Some c => subscribedTasks c
  | None => ∅
  end.

Definition is_open (env : Env) (w : WebSocket) : bool :=
  match readyState env w with
  | OPEN => true
  | _ => false
  end.

(** An input that answers a ping of [w] or registers [w]. *)
Definition revives (w : WebSocket) (i : Input) : bool :=
  match i with
  | Pong w' | Connection w' => Nat.eqb w' w
  | _ => false
  end.

Definition no_revival (w : WebSocket) (inputs : list (Env * Input)) : bool :=
  forallb (fun '(_, i) => negb (revives w i)) inputs.

Definition closes (w : WebSocket) (i : Input) : bool :=
  match i with
  | Close w' => Nat.eqb w' w
  | _ => false
  end.

Definition no_close (w : WebSocket) (inputs : list (Env * Input)) : bool :=
  forallb (fun '(_, i) => negb (closes w i)) inputs.

(** The map holds one entry per socket, and the record under a socket is
    the record of that socket. *)
Fixpoint wf (cs : Clients) : Prop :=
  match cs with
  | [] => True
  | (k, c) :: rest => ws c = k /\ clients_get k rest = None /\ wf rest
  end.

(** The socket has an entry that has not answered the last ping, or none. *)
Definition stale (w : WebSocket) (cs : Clients) : Prop :=
  match clients_get w cs with
  | Some c => isAlive c = false
  | None => True
  end.

(** One message relayed from the bridge reaches no socket twice. *)
Definition at_most_once (env : Env) (m : WSMessage) (cs : Clients) : Prop :=
  forall w, (length (received w (on_ws_broadcast env m cs)) <= 1)%nat.

(** The message is a task update or output delta naming a task that [w]
    has subscribed to. *)
Definition subscribed_to_task_of (m : WSMessage) (w : WebSocket) (cs : Clients) : bool :=
  task_scoped (msg_type m)
  && match data_taskId (msg_data m) with
     | Some t => truthy (Some t) && bool_decide (t ∈ subscriptions w cs)
     | None => false
     end.

(** *** A small hub to run on *)

Definition all_open (t : Z) : Env :=
  {| readyState := fun _ => OPEN; now := t |}.

(** Socket 1 watches task [t1]; socket 2 watches the whole dashboard. *)
Definition two_observers : Clients :=
  fst (run [ (all_open 0, Connection 1%nat);
             (all_open 1, Message 1%nat (SubscribeTask "t1"));
             (all_open 2, Connection 2%nat) ] []).

Definition update_t1 : WSMessage :=
  {| msg_type := task_update;
     msg_data := TaskUpdateData "t1" (mkTaskChanges (Some in_progress) None None None None);
     msg_timestamp := 3 |}.

Definition tick (t : Z) : Env * Input := (all_open t, HeartbeatTick).

End Hub.

(** ** The bridge seen from outside: what its handlers keep and leave *)

Module BridgeView.
Import Bridge.

(** A computation takes every bridge to one that is [R]-related to it,
    whether it returns or is rejected. *)
Definition maintains (R : relation OpenClawBridge) {A} (m : M A) : Prop :=
  forall b, R b (snd (m b)).

(** The columns that tie a task to its run and its agent. *)
Definition task_links (b : OpenClawBridge) : list (string * option string * option string) :=
  map (fun t => (task_id t, openclawRunId t, assignedAgentId t)) (tasks (db b)).

Definition agent_ids (b : OpenClawBridge) : list string :=
  map agent_id (agents (db b)).

Definition buffer_keys (b : OpenClawBridge) : list (string * string * string) :=
  map (fun o => (buffer_id o, buffer_taskId o, buffer_runId o)) (outputBuffers (db b)).

(** From [b] to [b'] no task or agent row was added, removed or re-linked,
    and audit records, buffer rows and emitted messages were only added at
    the end. *)
Definition stable (b b' : OpenClawBridge) : Prop :=
  task_links b' = task_links b
  /\ agent_ids b' = agent_ids b
  /\ activities (db b) `prefix_of` activities (db b')
  /\ buffer_keys b `prefix_of` buffer_keys b'
  /\ emitted b `prefix_of` emitted b'.

(** The task a run resolves to, by its key. *)
Definition resolves_to (runId : string) (b : OpenClawBridge) : option string :=
  task_id <$> find (has_run runId) (tasks (db b)).

Definition task_row (id : string) (b : OpenClawBridge) : option Task :=
  find (fun t => String.eqb (task_id t) id) (tasks (db b)).

Definition fresh_buffer (env : Env) (b : OpenClawBridge) : bool :=
  negb (existsb (fun x => String.eqb (buffer_id x) (runBufferId env))
          (outputBuffers (db b))).

Definition task_update_msg (env : Env) (taskId : string) (changes : TaskChanges)
  : WSMessage :=
  {| msg_type := task_update;
     msg_data := TaskUpdateData taskId changes;
     msg_timestamp := now env |}.

Definition agent_update_msg (env : Env) (agentId : string) (st : AgentStatus)
  : WSMessage :=
  {| msg_type := agent_update;
     msg_data := AgentUpdateData agentId st;
     msg_timestamp := now env |}.

Definition audit (env : Env) (task : Task) (act : ActivityAction)
    (det : list (string * string)) : Activity :=
  {| activity_id := activityId env;
     activity_taskId := Some (task_id task);
     activity_agentId := assignedAgentId task;
     action := act;
     details := det;
     createdAt := now env |}.

Definition with_tasks (set : Task -> Task) (task : Task) (b : OpenClawBridge)
  : list Task :=
  map (fun t => if String.eqb (task_id t) (task_id task) then set t else t)
      (tasks (db b)).

Definition with_agents (set : Agent -> Agent) (aid : string) (b : OpenClawBridge)
  : list Agent :=
  map (fun a => if String.eqb (agent_id a) aid then set a else a) (agents (db b)).

(** The row [handleLifecycleStart] inserts for the run. *)
Definition new_buffer (env : Env) (task : Task) (runId : string) : OutputBuffer :=
  {| buffer_id := runBufferId env;
     buffer_taskId := task_id task;
     buffer_runId := runId;
     content := "";
     lastSeq := 0;
     updatedAt := now env |}.

(** The bridge after [handleLifecycleStart] for [task], assigned to [aid]. *)
Definition started_bridge (env : Env) (runId : string) (task : Task) (aid : string)
    (b : OpenClawBridge) : OpenClawBridge :=
  {| db :=
       {| tasks := with_tasks (set_in_progress env) task b;
          agents := with_agents (set_working env) aid b;
          activities :=
            activities (db b) ++ [audit env task task_started [("runId", runId)]];
          outputBuffers :=
            outputBuffers (db b)
            ++ (if fresh_buffer env b then [new_buffer env task runId] else []) |};
     outputAccumulators := outputAccumulators b;
     emitted :=
       (emitted b
        ++ [task_update_msg env (task_id task)
              {| ch_status := Some in_progress;
                 ch_outcome := None;
                 ch_output := None;
                 ch_startedAt := Some (now env);
                 ch_completedAt := None |}])
       ++ [agent_update_msg env aid working] |}.

(** The bridge after [handleLifecycleError] for [task], assigned to [aid]. *)
Definition failed_bridge (env : Env) (runId err : string) (task : Task) (aid : string)
    (b : OpenClawBridge) : OpenClawBridge :=
  {| db :=
       {| tasks := with_tasks (set_blocked err) task b;
          agents := with_agents set_idle aid b;
          activities :=
            activities (db b)
            ++ [audit env task task_failed [("runId", runId); ("error", err)]];
          outputBuffers := outputBuffers (db b) |};
     outputAccumulators := outputAccumulators b;
     emitted :=
       (emitted b
        ++ [task_update_msg env (task_id task)
              {| ch_status := Some blocked;
                 ch_outcome := Some failed;
                 ch_output := None;
                 ch_startedAt := None;
                 ch_completedAt := None |}])
       ++ [agent_update_msg env aid idle] |}.

(** The bridge after [handleLifecycleEnd] for a task nobody is assigned to. *)
Definition ended_unassigned (env : Env) (runId : string) (data : AgentData) (task : Task)
    (b : OpenClawBridge) : OpenClawBridge :=
  {| db :=
       {| tasks := with_tasks (set_done env (getOutputBuffer runId b) data) task b;
          agents := agents (db b);
          activities := activities (db b) ++ [completed_record env task runId];
          outputBuffers := outputBuffers (db b) |};
     outputAccumulators := delete runId (outputAccumulators b);
     emitted :=
       emitted b
       ++ [task_update_msg env (task_id task)
             {| ch_status := Some done;
                ch_outcome := Some success;
                ch_output := Some (getOutputBuffer runId b);
                ch_startedAt := None;
                ch_completedAt := Some (now env) |}] |}.

(** The bridge after [handleToolCall] for [task]. *)
Definition tool_called_bridge (env : Env) (runId tool : string) (task : Task)
    (b : OpenClawBridge) : OpenClawBridge :=
  {| db :=
       {| tasks := tasks (db b);
          agents := agents (db b);
          activities :=
            activities (db b)
            ++ [audit env task status_changed
                  [("type", "tool_call"); ("toolName", tool); ("runId", runId)]];
          outputBuffers := outputBuffers (db b) |};
     outputAccumulators := outputAccumulators b;
     emitted :=
       emitted b
       ++ [ {| msg_type := activity;
               msg_data := ActivityData (task_id task) "tool_call" tool;
               msg_timestamp := now env |} ] |}.

(** The bridge after [handleAssistantDelta] for a run with a task. *)
Definition delta_bridge (env : Env) (runId txt : string) (task : Task)
    (b : OpenClawBridge) : OpenClawBridge :=
  let updated := String.append (getOutputBuffer runId b) txt in
  {| db :=
       {| tasks := tasks (db b);
          agents := agents (db b);
          activities := activities (db b);
          outputBuffers :=
            map (fun o => if String.eqb (buffer_runId o) runId
                          then set_content env updated o else o)
                (outputBuffers (db b)) |};
     outputAccumulators := <[runId := updated]> (outputAccumulators b);
     emitted :=
       emitted b
       ++ [ {| msg_type := output_delta;
               msg_data := OutputDeltaData (task_id task) runId txt updated;
               msg_timestamp := now env |} ] |}.

(** The bridge when the audit insert of [handleLifecycleEnd] is refused:
    the task and the agent are already written. *)
Definition ended_without_audit (env : Env) (runId : string) (data : AgentData)
    (task : Task) (aid : string) (ag : Agent) (b : OpenClawBridge) : OpenClawBridge :=
  {| db :=
       {| tasks := with_tasks (set_done env (getOutputBuffer runId b) data) task b;
          agents := with_agents (set_idle_credited env ag data) aid b;
          activities := activities (db b);
          outputBuffers := outputBuffers (db b) |};
     outputAccumulators := delete runId (outputAccumulators b);
     emitted := emitted b |}.

(** A task whose run was started without an agent. *)
Definition task2 : Task :=
  {| task_id := "t2";
     task_status := in_progress;
     assignedAgentId := None;
     openclawRunId := Some "r2";
     startedAt := Some 0;
     completedAt := None;
     outcome := None;
     output := None;
     tokensUsed := 0 |}.

Definition bridge_unassigned : OpenClawBridge :=
  {| db := {| tasks := [task2]; agents := []; activities := []; outputBuffers := [] |};
     outputAccumulators := {[ "r2" := "done by nobody" ]};
     emitted := [] |}.

End BridgeView.

(** ** Overlapping invocations of [handleLifecycleEnd] *)

Module Async.
Import Bridge.

(** The listeners of [setupEventListeners] call the [async] handlers
    without awaiting them, so an invocation runs up to its next [await] and
    the invocations of further events run in between.  [Suspended] is where
    an invocation of [handleLifecycleEnd] stands, with the locals it holds:
    before one of its awaited statements, between a statement's answer and
    the synchronous code that touches the bridge's own state, or settled. *)
Inductive Suspended :=
| AwaitTask
| GotTask (found : option Task)
| AwaitTaskUpdate (task : Task) (out : string)
| AwaitAgent (task : Task) (out : string) (agentId : string)
| AwaitAgentUpdate (task : Task) (out : string) (agentId : string) (agent : Agent)
| AwaitActivity (task : Task) (out : string)
| Created (task : Task) (out : string)
| Settled (c : Completion unit).

(** [if (task.assignedAgentId) { const agent = await ...findFirst(...) }],
    else on to [createActivity]. *)
Definition after_task_update (task : Task) (out : string) : Suspended :=
  match assignedAgentId task with
  | Some a => if truthy (Some a) then AwaitAgent task out a else AwaitActivity task out
  | None => AwaitActivity task out
  end.

(** One uninterrupted stretch of [handleLifecycleEnd]: the awaited
    statement runs, or the synchronous code on the accumulators or the
    emitter; code that only computes locals belongs to the stretch before
    it. *)
Definition resume (env : Env) (runId sessionKey : string) (data : AgentData)
    (s : Suspended) : M Suspended :=
  match s with
  | AwaitTask =>
      found <- findTaskByRunId runId ;; ret (GotTask found)
  | GotTask None => ret (Settled (Returned tt))
  | GotTask (Some task) =>
      out <- flushAndClear runId ;; ret (AwaitTaskUpdate task out)
  | AwaitTaskUpdate task out =>
      update_tasks (task_id task) (set_done env out data) ;;;
      ret (after_task_update task out)
  | AwaitAgent task out agentId =>
      agent <- findAgent agentId ;;
      ret (match agent with
           | Some ag => AwaitAgentUpdate task out agentId ag
           | None => AwaitActivity task out
           end)
  | AwaitAgentUpdate task out agentId ag =>
      update_agents agentId (set_idle_credited env ag data) ;;;
      ret (AwaitActivity task out)
  | AwaitActivity task out =>
      createActivity env (Some (task_id task)) (assignedAgentId task) task_completed
        [("runId", runId); ("outcome", "success")] ;;;
      ret (Created task out)
  | Created task out =>
      emitTaskUpdate env (task_id task)
        {| ch_status := Some done;
           ch_outcome := Some success;
           ch_output := Some out;
           ch_startedAt := None;
           ch_completedAt := Some (now env) |} ;;;
      when_assigned task (fun agentId => emitAgentUpdate env agentId idle) ;;;
      ret (Settled (Returned tt))
  | Settled c => ret (Settled c)
  end.

(** A statement that throws rejects the invocation's promise. *)
Definition advance (env : Env) (runId sessionKey : string) (data : AgentData)
    (s : Suspended) (b : OpenClawBridge) : Suspended * OpenClawBridge :=
  match resume env runId sessionKey data s b with
  | (Returned s', b') => (s', b')
  | (Rejected reason, b') => (Settled (Rejected reason), b')
  end.

(** The pool of invocations under way, each with what it draws from
    outside: one per delivery, none resumed yet. *)
Definition deliver (envs : list Env)  : list (Env * Suspended) := map (fun env => (env, AwaitTask)) envs.

(** The [i]-th invocation runs its next stretch. *)
Definition resume_handler (runId sessionKey : string) (data : AgentData) (i : nat)
    (st : list (Env * Suspended) * OpenClawBridge) : list (Env * Suspended) * OpenClawBridge :=
  match fst st !! i with
  | Some (env, s) =>
      let '(s', b') := advance env runId sessionKey data s (snd st) in
      (<[i := (env, s')]> (fst st), b')
  | None => st
  end.

(** The invocations of the deliveries of one LifecycleEnd, resumed in the
    order [schedule] gives. *)
Definition interleave (runId sessionKey : string) (data : AgentData)
    (schedule : list nat) (st : list (Env * Suspended) * OpenClawBridge) : list (Env * Suspended) * OpenClawBridge :=
  fold_left (fun st i => resume_handler runId sessionKey data i st) schedule st.

Definition settled (s : Suspended) : bool :=
  match s with
  | Settled _ => true
  | _ => false
  end.

Definition returned (s : Suspended) : bool :=
  match s with
  | Settled (Returned _) => true
  | _ => false
  end.

Definition all_settled (pool : list (Env * Suspended)) : bool := forallb (fun h => settled (snd h)) pool.

Definition all_returned (pool : list (Env * Suspended)) : bool := forallb (fun h => returned (snd h)) pool.

(** An invocation has at most seven stretches. *)
Definition stretches : nat := 7.

(** Each invocation ends before the next one is resumed. *)
Definition one_after_the_other (n : nat) : list nat :=
  flat_map (fun i => repeat i stretches) (seq 0 n).

(** Two invocations of one burst, resumed in turn. *)
Definition in_turn : list nat := flat_map (fun _ => [0%nat; 1%nat]) (seq 0 stretches).

(** The invocation has written the agent's row; it has written its audit
    record. *)
Definition wrote (s : Suspended) : bool :=
  match s with
  | AwaitActivity _ _ | Created _ _ | Settled _ => true
  | _ => false
  end.

Definition recorded (s : Suspended) : bool :=
  match s with
  | Created _ _ | Settled _ => true
  | _ => false
  end.

(** The agent's counters stand [k] credits above [(c0, t0)]. *)
Definition credited (c0 t0 : Z) (data : AgentData) (k : Z) (a : Agent) : Prop :=
  completedTasks a = c0 + k /\ totalTokens a = t0 + k * or_zero (tokens data).

Section Invariant.
Variables (runId : string) (data : AgentData) (taskId agentId : string).
Variables (c0 t0 : Z) (ids0 : list string) (n0 : nat) (envs : list Env).

(** The row is the task of the run, assigned to the agent. *)
Definition linked (t : Task) : Prop :=
  task_id t = taskId /\ assignedAgentId t = Some agentId.

(** What an invocation holds in its locals, when [W] invocations have
    written the agent's row: the task of the run, and a reading of the agent
    that stands between 0 and [W] credits above the start. *)
Definition locals_ok (W : Z) (s : Suspended) : Prop :=
  match s with
  | AwaitTask => True
  | GotTask found => exists t, found = Some t /\ linked t
  | AwaitTaskUpdate t _ => linked t
  | AwaitAgent t _ a => linked t /\ a = agentId
  | AwaitAgentUpdate t _ a ag =>
      linked t /\ a = agentId /\ exists j, 0 <= j <= W /\ credited c0 t0 data j ag
  | AwaitActivity t _ => linked t
  | Created t _ => linked t
  | Settled c => c = Returned tt
  end.

(** How many invocations of the pool are at a point that satisfies [f]. *)
Definition tally (f : Suspended -> bool) (pool : list (Env * Suspended)) : nat :=
  length (List.filter (fun h => f (snd h)) pool).

(** The keys of the audit records the pool has written. *)
Definition recorded_ids (pool : list (Env * Suspended)) : list string :=
  map (fun h => activityId (fst h)) (List.filter (fun h => recorded (snd h)) pool).

(** The database when [W] invocations have written the agent's row and
    [n] their audit record, under the keys [ids]. *)
Definition consistent (W : nat) (ids : list string) (n : nat) (b : OpenClawBridge)
  : Prop :=
  (exists t, find (has_run runId) (tasks (db b)) = Some t /\ linked t)
  /\ (exists a k, agent_row agentId b = Some a
                  /\ credited c0 t0 data k a
                  /\ 0 <= k <= Z.of_nat W
                  /\ (W <> 0%nat -> 1 <= k))
  /\ (forall x, In x (map activity_id (activities (db b))) -> In x ids0 \/ In x ids)
  /\ length (completed_records taskId b) = (n0 + n)%nat.

(** What holds of the pool and the bridge however the invocations of the
    deliveries [envs] are resumed. *)
Definition invariant (st : list (Env * Suspended) * OpenClawBridge) : Prop :=
  consistent (tally wrote (fst st)) (recorded_ids (fst st)) (tally recorded (fst st))
    (snd st)
  /\ Forall (fun h => locals_ok (Z.of_nat (tally wrote (fst st))) (snd h)) (fst st)
  /\ map fst (fst st) = envs.

End Invariant.

End Async.

(** ** The routes that read what the bridge wrote *)

Module Routes.
Import Bridge.

(** [===] on the status enumerations. *)
Definition status_eqb (a b : TaskStatus) : bool :=
  match a, b with
  | inbox, inbox | assigned, assigned | in_progress, in_progress
  | review, review | blocked, blocked | done, done | cancelled, cancelled => true
  | _, _ => false
  end.

Definition is_working (a : Agent) : bool :=
  match agent_status a with
  | working => true
  | _ => false
  end.

(** What a route answers: a JSON body, or an [AppError] handed to [next]. *)
Inductive Response (A : Type) :=
| Json (data : A)
| AppError (status : Z) (code message : string).
Arguments Json {A} data.
Arguments AppError {A} status code message.

(** [s || fallback] on strings. *)
Definition or_else (s fallback : string) : string :=
  if String.eqb s "" then fallback else s.

(** The body of [GET /api/tasks/:id/output] once the task is found. *)
Definition task_output (task : Task) (b : OpenClawBridge) : string :=
  let out := or_empty (output task) in
  match openclawRunId task with
  | Some r =>
      if truthy (Some r) && status_eqb (task_status task) in_progress
      then or_else (getOutputBuffer r b) out
      else out
  | None => out
  end.

(** [GET /api/tasks/:id/output]. *)
Definition get_output (id : string) (b : OpenClawBridge) : Response string :=
  match find (fun t => String.eqb (task_id t) id) (tasks (db b)) with
  | Some task => Json (task_output task b)
  | None => AppError 404 "TASK_NOT_FOUND" "Task not found"
  end.

(** [KANBAN_COLUMNS]. *)
Definition KANBAN_COLUMNS : list (TaskStatus * string) :=
  [ (inbox, "Inbox"); (assigned, "Assigned"); (in_progress, "In Progress");
    (review, "Review"); (blocked, "Blocked"); (done, "Done") ].

Record KanbanColumn := mkKanbanColumn {
  column_id : TaskStatus;
  column_title : string;
  column_tasks : list Task;
  column_count : nat
}.

Definition has_status (s : TaskStatus) (t : Task) : bool :=
  status_eqb (task_status t) s.

(** The [kanban] of [GET /api/dashboard], from the rows the task query
    returned. *)
Definition kanban (allTasks : list Task) : list KanbanColumn :=
  map (fun '(id, title) =>
         {| column_id := id;
            column_title := title;
            column_tasks := List.filter (has_status id) allTasks;
            column_count := length (List.filter (has_status id) allTasks) |})
      KANBAN_COLUMNS.

Record DashboardStats := mkDashboardStats {
  stat_totalTasks : nat;
  stat_activeTasks : nat;
  stat_completedTasks : nat;
  stat_blockedTasks : nat;
  stat_activeAgents : nat;
  stat_totalAgents : nat;
  stat_totalTokens : Z
}.

Definition is_active_status (t : Task) : bool :=
  existsb (status_eqb (task_status t)) [assigned; in_progress; review].

(** The [stats] of [GET /api/dashboard], from the rows the two queries
    returned. *)
Definition stats (allTasks : list Task) (allAgents : list Agent) : DashboardStats :=
  {| stat_totalTasks := length allTasks;
     stat_activeTasks := length (List.filter is_active_status allTasks);
     stat_completedTasks := length (List.filter (has_status done) allTasks);
     stat_blockedTasks := length (List.filter (has_status blocked) allTasks);
     stat_activeAgents := length (List.filter is_working allAgents);
     stat_totalAgents := length allAgents;
     stat_totalTokens := fold_left (fun sum t => sum + tokensUsed t) allTasks 0 |}.

(** The tasks no Kanban column shows. *)
Definition off_board (allTasks : list Task) : list Task :=
  List.filter (has_status cancelled) allTasks.

End Routes.

(** ** From a gateway frame to the observers *)

Module Pipeline.

(** The listeners [setupEventListeners] puts on the client's emitter: the
    typed events go to their handlers; ['connected'] and ['disconnected']
    are re-emitted under another name and the raw frames have no listener, so
    none of these touches the bridge's state. *)
Definition on_emission (env : Bridge.Env) (e : Client.Emission) : Bridge.M unit :=
  match e with
  | Client.Typed n => Bridge.dispatch env n
  | _ => Bridge.ret tt
  end.

(** One frame from the gateway, through [processRawEvent] to the handlers. *)
Definition on_frame (env : Bridge.Env) (frame : Client.OpenClawEvent)
    (b : Bridge.OpenClawBridge) : Bridge.OpenClawBridge :=
  fold_left (fun st e => snd (on_emission env e st)) (Client.processRawEvent frame) b.

Definition on_frames (frames : list (Bridge.Env * Client.OpenClawEvent))
    (b : Bridge.OpenClawBridge) : Bridge.OpenClawBridge :=
  fold_left (fun st '(env, frame) => on_frame env frame st) frames b.

(** The hub's ['ws:broadcast'] listener run on the messages the bridge
    emitted, one after the other. *)
Definition relay (env : Hub.Env) (messages : list WSMessage) (cs : Hub.Clients)
  : list Hub.Effect :=
  flat_map (fun m => Hub.on_ws_broadcast env m cs) messages.

(** What socket [w] is sent of one relayed message. *)
Definition copies (m : WSMessage) (w : Hub.WebSocket) (cs : Hub.Clients) : list WSMessage :=
  if Hub.subscribed_to_task_of m w cs then [m; m] else [m].

(** An assistant frame of the agent stream and a delta frame of the chat
    stream, as the gateway sends them for one piece of text. *)
Definition assistant_frame (runId txt : string) : Client.OpenClawEvent :=
  Client.AgentEvent
    {| Client.a_runId := runId;
       Client.a_sessionKey := None;
       Client.a_stream := "assistant";
       Client.a_seq := 1;
       Client.a_ts := 0;
       Client.a_data := mkAgentData None "" "" "" txt None |}.

Definition chat_delta_frame (runId txt : string) : Client.OpenClawEvent :=
  Client.ChatEvent
    {| Client.c_runId := runId;
       Client.c_sessionKey := "";
       Client.c_seq := 1;
       Client.c_state := "delta";
       Client.c_message :=
         Some {| Client.m_role := "assistant";
                 Client.m_content := [ {| Client.c_type := "text";
                                          Client.c_text := Some txt |} ] |} |}.

End Pipeline.

(** ** Identifiers *)

Module Ids.
Import Stdlib.Strings.Ascii.

(** [String.prototype.split] with a one-character separator. *)
Fixpoint split_on (sep : Ascii.ascii) (s : string) : list string :=
  match s with
  | EmptyString => [""]
  | String c rest =>
      if Ascii.eqb c sep then "" :: split_on sep rest
      else match split_on sep rest with
           | h :: t => String c h :: t
           | [] => [String c ""]
           end
  end.

(** [generatePrefixedId], with the text [nanoid(size)] returned. *)
Definition generatePrefixedId (prefix body : string) : string :=
  String.append prefix (String "_"%char body).

(** [parsePrefixedId]. *)
Definition parsePrefixedId (id : string) : option (string * string) :=
  if String.eqb id "" then None
  else match split_on "_"%char id with
       | [p; v] => Some (p, v)
       | _ => None
       end.

Fixpoint contains (c : Ascii.ascii) (s : string) : bool :=
  match s with
  | EmptyString => false
  | String x rest => Ascii.eqb x c || contains c rest
  end.

(** The characters of [/^[A-Za-z0-9_-]+$/]. *)
Definition url_safe (c : Ascii.ascii) : bool :=
  let n := Ascii.nat_of_ascii c in
  ((65 <=? n) && (n <=? 90))%nat
  || ((97 <=? n) && (n <=? 122))%nat
  || ((48 <=? n) && (n <=? 57))%nat
  || Ascii.eqb c "_"%char || Ascii.eqb c "-"%char.

Fixpoint all_url_safe (s : string) : bool :=
  match s with
  | EmptyString => true
  | String c rest => url_safe c && all_url_safe rest
  end.

(** [isValidNanoId]. *)
Definition isValidNanoId (id : string) (expectedSize : option nat) : bool :=
  if String.eqb id "" then false
  else if negb (all_url_safe id) then false
  else match expectedSize with
       | Some n => Nat.eqb (String.length id) n
       | None => true
       end.

End Ids.

(** ** Waiting for a run *)

Module Wait.

(** What reaches a pending [waitForRunCompletion]: a typed event on the
    emitter, or its timer. *)
Inductive Input :=
| Emitted (e : NormalizedEvent)
| TimeoutFires.

Inductive Completion :=
| Completed (output : string)
| Failed (err : string)
| TimedOut.

(** The promise is pending, its two listeners and its timer in place, or
    it is resolved and [cleanup] has removed them. *)
Inductive State :=
| Pending
| Resolved (c : Completion).

Section Result.
(** [data.result as string], a key of the frame's [data]. *)
Variable result_of : AgentData -> string.

Definition step (runId : string) (i : Input) (s : State) : State :=
  match s with
  | Resolved c => Resolved c
  | Pending =>
      match i with
      | Emitted (LifecycleEnd r _ data) =>
          if String.eqb r runId then Resolved (Completed (result_of data)) else Pending
      | Emitted (LifecycleError r _ err) =>
          if String.eqb r runId then Resolved (Failed err) else Pending
      | Emitted _ => Pending
      | TimeoutFires => Resolved TimedOut
      end
  end.

(** [waitForRunCompletion(runId, timeout)] over what happens after the
    call. *)
Definition waitForRunCompletion (runId : string) (inputs : list Input) : State :=
  fold_left (fun s i => step runId i s) inputs Pending.

End Result.

(** The input settles a wait for [runId]. *)
Definition decisive (runId : string) (i : Input) : bool :=
  match i with
  | Emitted (LifecycleEnd r _ _) | Emitted (LifecycleError r _ _) => String.eqb r runId
  | Emitted _ => false
  | TimeoutFires => true
  end.

End Wait.

(** ** A socket that answers its pings *)

Module HubView.
Import Hub.

(** Walking the inputs with the flag "pinged and not yet answered": no tick
    finds socket [w] still waiting, and [w] does not close. *)
Fixpoint answers (w : WebSocket) (waiting : bool) (inputs : list (Env * Input)) : bool :=
  match inputs with
  | [] => true
  | (_, HeartbeatTick) :: rest => negb waiting && answers w true rest
  | (_, Pong w') :: rest => answers w (if Nat.eqb w' w then false else waiting) rest
  | (_, Close w') :: rest => negb (Nat.eqb w' w) && answers w waiting rest
  | _ :: rest => answers w waiting rest
  end.

Definition alive (w : WebSocket) (cs : Clients) : Prop :=
  exists c, clients_get w cs = Some c /\ isAlive c = true.

(** [getClientCount]. *)
Definition getClientCount (cs : Clients) : nat := length cs.

Definition pinged (w : WebSocket) (eff : list Effect) : Prop := In (Ping w) eff.

End HubView.

(** ** The client's counter and timers *)

Module ClientView.
Import Client.

(** The counter of [c] is between 0 and the ceiling, and [c] has the
    settings of [c0]. *)
Definition in_range (c0 c : OpenClawClient) : Prop :=
  0 <= reconnectAttempts c <= maxReconnectAttempts c
  /\ maxReconnectAttempts c = maxReconnectAttempts c0
  /\ reconnectDelay c = reconnectDelay c0.

(** [d] is the delay of one of the attempts 1 up to the ceiling. *)
Definition backoff_delay (c0 : OpenClawClient) (d : Z) : Prop :=
  exists n, 1 <= n <= maxReconnectAttempts c0 /\ d = reconnectDelay c0 * 2 ^ (n - 1).

End ClientView.

(** ** The dashboard's socket store *)

Module Dashboard.

(** The fields of the store; [socket] holds the state of the socket the
    store points to. *)
Record Store := mkStore {
  socket : option ReadyState;
  isConnected : bool;
  reconnectAttempts : Z
}.

Definition new_store : Store :=
  {| socket := None; isConnected := false; reconnectAttempts := 0 |}.

Inductive Frame :=
| SubscribeTask (taskId : string)
| UnsubscribeTask (taskId : string).

(** A timer is set with its delay and the attempt count its callback
    captured. *)
Inductive Effect :=
| NewWebSocket
| SocketClose
| SetTimeout (delay attempts : Z)
| Send (f : Frame).

Definition is_open (s : Store) : bool :=
  match socket s with
  | Some OPEN => true
  | _ => false
  end.

(** [connect]. *)
Definition connect (s : Store) : Store * list Effect :=
  if is_open s then (s, [])
  else ({| socket := Some CONNECTING;
           isConnected := isConnected s;
           reconnectAttempts := reconnectAttempts s |},
        [NewWebSocket]).

(** [ws.onopen]. *)
Definition onopen (s : Store) : Store * list Effect :=
  ({| socket := match socket s with Some _ => Some OPEN | None => None end;
      isConnected := true;
      reconnectAttempts := 0 |}, []).

(** [Math.min(1000 * Math.pow(2, attempts), 30000)]. *)
Definition reconnect_delay (attempts : Z) : Z := Z.min (1000 * 2 ^ attempts) 30000.

(** [ws.onclose]. *)
Definition onclose (s : Store) : Store * list Effect :=
  ({| socket := None;
      isConnected := false;
      reconnectAttempts := reconnectAttempts s |},
   if Z.ltb (reconnectAttempts s) 10
   then [SetTimeout (reconnect_delay (reconnectAttempts s)) (reconnectAttempts s)]
   else []).

(** The timer's callback, with the attempt count it captured. *)
Definition on_timer (attempts : Z) (s : Store) : Store * list Effect :=
  connect {| socket := socket s;
             isConnected := isConnected s;
             reconnectAttempts := attempts + 1 |}.

(** [disconnect]. *)
Definition disconnect (s : Store) : Store * list Effect :=
  match socket s with
  | Some _ =>
      ({| socket := None;
          isConnected := false;
          reconnectAttempts := reconnectAttempts s |}, [SocketClose])
  | None => (s, [])
  end.

(** [subscribe] and [unsubscribe]. *)
Definition subscribe (taskId : string) (s : Store) : Store * list Effect :=
  (s, if is_open s then [Send (SubscribeTask taskId)] else []).

Definition unsubscribe (taskId : string) (s : Store) : Store * list Effect :=
  (s, if is_open s then [Send (UnsubscribeTask taskId)] else []).

Inductive Input :=
| CallConnect
| CallDisconnect
| CallSubscribe (taskId : string)
| CallUnsubscribe (taskId : string)
| OnOpen
| OnClose
| TimerFires (attempts : Z).

Definition step (i : Input) (s : Store) : Store * list Effect :=
  match i with
  | CallConnect => connect s
  | CallDisconnect => disconnect s
  | CallSubscribe t => subscribe t s
  | CallUnsubscribe t => unsubscribe t s
  | OnOpen => onopen s
  | OnClose => onclose s
  | TimerFires k => on_timer k s
  end.

Fixpoint run (inputs : list Input) (s : Store) : Store * list Effect :=
  match inputs with
  | [] => (s, [])
  | i :: rest =>
      let '(s1, e1) := step i s in
      let '(s2, e2) := run rest s1 in
      (s2, e1 ++ e2)
  end.

(** The server stays away: each new socket closes without opening, and
    each timer that was set fires with the count it captured. *)
Fixpoint failures (n : nat) (s : Store) : list Effect :=
  match n with
  | O => []
  | S n' =>
      let '(s1, e1) := onclose s in
      match e1 with
      | [SetTimeout d k] =>
          let '(s2, e2) := on_timer k s1 in
          e1 ++ e2 ++ failures n' s2
      | _ => e1
      end
  end.

Definition delay_of (e : Effect) : option Z :=
  match e with
  | SetTimeout d _ => Some d
  | _ => None
  end.

Definition delays (tr : list Effect) : list Z := omap delay_of tr.

End Dashboard.

(** * Properties of the gateway client *)

Section ClientFacts.
Import Client.

Lemma processAgentEvent_at_most_one p : (length (processAgentEvent p) <= 1)%nat.
Proof.
  unfold processAgentEvent.
  repeat match goal with
         | |- context [if ?b then _ else _] => destruct b
         | |- context [match ?o with Some _ => _ | None => _ end] => destruct o
         end; simpl; lia.
Qed.

Lemma processChatEvent_at_most_one p : (length (processChatEvent p) <= 1)%nat.
Proof.
  unfold processChatEvent.
  repeat match goal with
         | |- context [if ?b then _ else _] => destruct b
         end; simpl; lia.
Qed.

(** A raw frame is refined into at most one typed event, so [normalize]
    loses nothing. *)
Lemma typed_events_normalize e : typed_events e = option_list (normalize e).
Proof.
  unfold normalize, typed_events.
  destruct e as [p|p| |]; simpl; try reflexivity.
  - pose proof (processAgentEvent_at_most_one p) as Hlen.
    destruct (processAgentEvent p) as [|x [|y l]]; simpl in *; try lia.
    + reflexivity.
    + destruct (typed_of x); reflexivity.
  - pose proof (processChatEvent_at_most_one p) as Hlen.
    destruct (processChatEvent p) as [|x [|y l]]; simpl in *; try lia.
    + reflexivity.
    + destruct (typed_of x); reflexivity.
Qed.

(** C10: [normalize] turns agent/lifecycle frames with phase start, end
    and error into LifecycleStart, LifecycleEnd and LifecycleError,
    agent/tool into ToolCall, agent/assistant into AssistantDelta, chat
    frames in state delta into AssistantDelta carrying the text of the
    first content block, chat frames in state final into AssistantFinal,
    and every other frame into [None]; being a total function it raises
    nothing. *)
Theorem normalize_classifies :
  (forall p, a_stream p = "lifecycle" -> phase (a_data p) = Some "start" ->
     normalize (AgentEvent p)
     = Some (LifecycleStart (a_runId p) (default "" (a_sessionKey p)) (a_data p)))
  /\ (forall p, a_stream p = "lifecycle" -> phase (a_data p) = Some "end" ->
     normalize (AgentEvent p)
     = Some (LifecycleEnd (a_runId p) (default "" (a_sessionKey p)) (a_data p)))
  /\ (forall p, a_stream p = "lifecycle" -> phase (a_data p) = Some "error" ->
     normalize (AgentEvent p)
     = Some (LifecycleError (a_runId p) (default "" (a_sessionKey p)) (error (a_data p))))
  /\ (forall p, a_stream p = "tool" ->
     normalize (AgentEvent p)
     = Some (ToolCall (a_runId p) (toolName (a_data p)) (args (a_data p))))
  /\ (forall p, a_stream p = "assistant" ->
     normalize (AgentEvent p) = Some (AssistantDelta (a_runId p) (text (a_data p))))
  /\ (forall p, c_state p = "delta" ->
     normalize (ChatEvent p)
     = Some (AssistantDelta (c_runId p)
               (match c_message p with
                | Some m => match m_content m with
                            | b :: _ => default "" (c_text b)
                            | [] => ""
                            end
                | None => ""
                end)))
  /\ (forall p, c_state p = "final" ->
     normalize (ChatEvent p)
     = Some (AssistantFinal (c_runId p) (first_block_text (c_message p))))
  /\ (forall e, ~ recognized e -> normalize e = None).
Proof.
  repeat split.
  - intros p Hs Hp. unfold normalize, typed_events. simpl.
    unfold processAgentEvent. rewrite Hs, Hp. reflexivity.
  - intros p Hs Hp. unfold normalize, typed_events. simpl.
    unfold processAgentEvent. rewrite Hs, Hp. reflexivity.
  - intros p Hs Hp. unfold normalize, typed_events. simpl.
    unfold processAgentEvent. rewrite Hs, Hp. reflexivity.
  - intros p Hs. unfold normalize, typed_events. simpl.
    unfold processAgentEvent. rewrite Hs. reflexivity.
  - intros p Hs. unfold normalize, typed_events. simpl.
    unfold processAgentEvent. rewrite Hs. reflexivity.
  - intros p Hs. unfold normalize, typed_events. simpl.
    unfold processChatEvent. rewrite Hs. reflexivity.
  - intros p Hs. unfold normalize, typed_events. simpl.
    unfold processChatEvent. rewrite Hs. reflexivity.
  - intros e Hn. unfold normalize, typed_events.
    destruct e as [p|p| |]; simpl in *; try reflexivity.
    + unfold processAgentEvent.
      destruct (String.eqb_spec (a_stream p) "lifecycle") as [Hl|Hl].
      * destruct (phase (a_data p)) as [ph|] eqn:Hph; [|reflexivity].
        destruct (String.eqb_spec ph "start") as [->|_]; [exfalso; apply Hn; auto|].
        destruct (String.eqb_spec ph "end") as [->|_]; [exfalso; apply Hn; auto|].
        destruct (String.eqb_spec ph "error") as [->|_]; [exfalso; apply Hn; auto|].
        reflexivity.
      * destruct (String.eqb_spec (a_stream p) "tool") as [Ht|_];
          [exfalso; apply Hn; auto|].
        destruct (String.eqb_spec (a_stream p) "assistant") as [Ha|_];
          [exfalso; apply Hn; auto|].
        reflexivity.
    + unfold processChatEvent.
      destruct (String.eqb_spec (c_state p) "delta") as [Hd|_];
        [exfalso; apply Hn; auto|].
      destruct (String.eqb_spec (c_state p) "final") as [Hf|_];
        [exfalso; apply Hn; auto|].
      reflexivity.
Qed.

(** The frame refined by C10 at a concrete lifecycle-end event. *)
Lemma normalize_classifies_witness :
  normalize (AgentEvent {| a_runId := "r1"; a_sessionKey := None;
                           a_stream := "lifecycle"; a_seq := 7; a_ts := 0;
                           a_data := mkAgentData (Some "end") "" "" "" "" (Some 42) |})
  = Some (LifecycleEnd "r1" "" (mkAgentData (Some "end") "" "" "" "" (Some 42))).
Proof.
  apply (proj1 (proj2 normalize_classifies)); reflexivity.
Defined.

(** *** Reconnection *)

Lemma scheduleReconnect_below c :
  reconnectAttempts c < maxReconnectAttempts c ->
  scheduleReconnect c
  = (with_attempts (reconnectAttempts c + 1) c,
     [ConsoleLog "Reconnecting";
      SetTimeout (reconnectDelay c * 2 ^ (reconnectAttempts c + 1 - 1))]).
Proof.
  intros Hlt. unfold scheduleReconnect.
  destruct (Z.leb_spec (maxReconnectAttempts c) (reconnectAttempts c)); [lia|].
  reflexivity.
Qed.

Lemma scheduleReconnect_at_ceiling c :
  maxReconnectAttempts c <= reconnectAttempts c ->
  scheduleReconnect c = (c, [ConsoleError "Max reconnection attempts reached"]).
Proof.
  intros Hge. unfold scheduleReconnect.
  destruct (Z.leb_spec (maxReconnectAttempts c) (reconnectAttempts c)); [|lia].
  reflexivity.
Qed.

(** While no socket opens, a client at its ceiling stays there and sets no
    timer. *)
Lemma step_at_ceiling i c :
  is_successful_open i = false ->
  maxReconnectAttempts c <= reconnectAttempts c ->
  maxReconnectAttempts (fst (step i c)) <= reconnectAttempts (fst (step i c))
  /\ delays (snd (step i c)) = [].
Proof.
  intros Hi Hc. destruct i; simpl in *; try discriminate.
  - unfold connect. destruct (isConnecting c || is_open c); simpl; auto.
  - unfold disconnect; simpl. split; [lia|]. destruct (ws c); reflexivity.
  - unfold on_close.
    rewrite scheduleReconnect_at_ceiling by (simpl; lia). simpl. auto.
  - unfold on_error; simpl. split; [lia|].
    destruct (reconnectAttempts c =? 0); reflexivity.
  - split; [lia|]. unfold delays. induction (processRawEvent event); simpl; auto.
  - unfold connect. destruct (isConnecting c || is_open c); simpl; auto.
Qed.

Lemma delays_app t1 t2 : delays (t1 ++ t2) = delays t1 ++ delays t2.
Proof. unfold delays. apply omap_app. Qed.

Lemma run_at_ceiling inputs : forall c,
  forallb (fun i => negb (is_successful_open i)) inputs = true ->
  maxReconnectAttempts c <= reconnectAttempts c ->
  delays (snd (run inputs c)) = [].
Proof.
  induction inputs as [|i rest IH]; intros c Hall Hc; simpl; [reflexivity|].
  simpl in Hall. apply andb_true_iff in Hall as [Hi Hrest].
  apply negb_true_iff in Hi.
  destruct (step_at_ceiling i c Hi Hc) as [Hc1 Hd1].
  destruct (step i c) as [c1 e1] eqn:Hstep. simpl in *.
  specialize (IH c1 Hrest Hc1).
  destruct (run rest c1) as [c2 e2]. simpl in *.
  rewrite delays_app, Hd1, IH. reflexivity.
Qed.

(** C7: the reconnection numbered [n], for [1 <= n <= ceiling], is
    scheduled [base * 2^(n-1)] ms ahead; a client with the default
    [base = 1000] whose gateway stays unreachable waits 1000, 2000, 4000,
    8000 and 16000 ms before attempts 1 to 5; and once the counter is at
    the ceiling (10 by default, or set there by [disconnect()]) no timer is
    set again, whatever happens short of a socket opening. *)
Theorem reconnect_backoff :
  (forall c n,
      1 <= n <= maxReconnectAttempts c ->
      reconnectAttempts c = n - 1 ->
      scheduleReconnect c
      = (with_attempts n c,
         [ConsoleLog "Reconnecting"; SetTimeout (reconnectDelay c * 2 ^ (n - 1))]))
  /\ delays (snd (run (unreachable_gateway 5) new_client))
     = [1000; 2000; 4000; 8000; 16000]
  /\ maxReconnectAttempts new_client = 10
  /\ (forall c inputs,
        maxReconnectAttempts c <= reconnectAttempts c ->
        forallb (fun i => negb (is_successful_open i)) inputs = true ->
        delays (snd (run inputs c)) = [])
  /\ (forall c inputs,
        forallb (fun i => negb (is_successful_open i)) inputs = true ->
        delays (snd (run inputs (fst (disconnect c)))) = []).
Proof.
  split; [|split; [|split; [|split]]].
  - intros c n Hn Hc.
    rewrite scheduleReconnect_below by lia.
    rewrite Hc. replace (n - 1 + 1) with n by lia. reflexivity.
  - reflexivity.
  - reflexivity.
  - intros c inputs Hc Hall. apply run_at_ceiling; assumption.
  - intros c inputs Hall. apply run_at_ceiling; [assumption|]. simpl. lia.
Qed.

(** C7 at the third reconnection of the default client. *)
Lemma reconnect_backoff_witness :
  scheduleReconnect (with_attempts 2 new_client)
  = (with_attempts 3 (with_attempts 2 new_client),
     [ConsoleLog "Reconnecting"; SetTimeout (1000 * 2 ^ (3 - 1))]).
Proof.
  apply (proj1 reconnect_backoff (with_attempts 2 new_client) 3).
  - simpl. lia.
  - reflexivity.
Defined.

(** The gateway never answers: ten timers are set, with doubling delays,
    and the eleventh and twelfth failures set none. *)
Example unreachable_gateway_gives_up :
  delays (snd (run (unreachable_gateway 12) new_client))
  = [1000; 2000; 4000; 8000; 16000; 32000; 64000; 128000; 256000; 512000].
Proof. reflexivity. Qed.

(** *** The handshake *)

(** C8 as stated fails: on a successful open ['connected'] is emitted
    before any frame has been sent. *)
Lemma connected_emitted_before_handshake :
  ~ handshake_precedes_connected
      (snd (run [CallConnect; SocketOpen] new_client)).
Proof.
  intros H. destruct (H [NewWebSocket] [WsSend handshake; Resolve] eq_refl) as [f Hf].
  simpl in Hf. destruct Hf as [Hf|[]]. discriminate.
Qed.

(** C8, amended: when the socket opens the client emits ['connected']
    first, then sends its fixed subscription frame for the classes agent,
    chat, session and heartbeat, and then resolves the promise of
    [connect()]. *)
Theorem open_emits_then_subscribes c s :
  ws c = Some s ->
  snd (on_open c)
  = [Emit Connected;
     WsSend (Subscribe ["agent"; "chat"; "session"; "heartbeat"]);
     Resolve]
  /\ reconnectAttempts (fst (on_open c)) = 0
  /\ isConnecting (fst (on_open c)) = false.
Proof.
  intros Hws. unfold on_open. rewrite Hws. simpl. auto.
Qed.

Lemma open_emits_then_subscribes_witness :
  snd (on_open (fst (connect new_client)))
  = [Emit Connected;
     WsSend (Subscribe ["agent"; "chat"; "session"; "heartbeat"]);
     Resolve]
  /\ reconnectAttempts (fst (on_open (fst (connect new_client)))) = 0
  /\ isConnecting (fst (on_open (fst (connect new_client)))) = false.
Proof.
  apply (open_emits_then_subscribes (fst (connect new_client)) CONNECTING).
  reflexivity.
Defined.

End ClientFacts.

(** * Properties of the bridge *)

Section BridgeFacts.
Import Bridge.

(** *** What the handlers leave of the accumulator map *)

Section Keeps.
Context (R : relation (gmap string string)) `{!PreOrder R}.

Lemma keeps_ret {A} (a : A) : keeps R (ret a).
Proof. intros b. simpl. reflexivity. Qed.

Lemma keeps_reject {A} reason : keeps R (@reject A reason).
Proof. intros b. simpl. reflexivity. Qed.

Lemma keeps_bind {A B} (m : M A) (k : A -> M B) :
  keeps R m -> (forall a, keeps R (k a)) -> keeps R (bind m k).
Proof.
  intros Hm Hk b. unfold bind. specialize (Hm b).
  destruct (m b) as [[a|reason] b1]; simpl in *.
  - etransitivity; [exact Hm|]. apply Hk.
  - exact Hm.
Qed.

Lemma keeps_get_db : keeps R get_db.
Proof. intros b. simpl. reflexivity. Qed.

Lemma keeps_put_db d : keeps R (put_db d).
Proof. intros b. simpl. reflexivity. Qed.

Lemma keeps_get_accumulators : keeps R get_accumulators.
Proof. intros b. simpl. reflexivity. Qed.

Lemma keeps_emit m : keeps R (emit m).
Proof. intros b. simpl. reflexivity. Qed.

Lemma keeps_if {A} (c : bool) (m1 m2 : M A) :
  keeps R m1 -> keeps R m2 -> keeps R (if c then m1 else m2).
Proof. destruct c; auto. Qed.
End Keeps.

Create HintDb keeps discriminated.
#[local] Hint Resolve keeps_ret keeps_reject keeps_get_db keeps_put_db
  keeps_get_accumulators keeps_emit : keeps.

(** Peel one construct of a handler body off a [keeps] goal. *)
Ltac keeps_step :=
  match goal with
  | |- keeps _ (bind _ _) => apply keeps_bind; [typeclasses eauto| |intros]
  | |- keeps _ (if ?c then _ else _) => destruct c
  | |- keeps _ (match ?o with Some _ => _ | None => _ end) => destruct o
  | |- keeps _ _ => solve [auto with keeps typeclass_instances]
  end.

Ltac keeps_tac := repeat keeps_step.

Section KeepsDb.
Context (R : relation (gmap string string)) `{!PreOrder R}.

Lemma keeps_findTaskByRunId r : keeps R (findTaskByRunId r).
Proof. unfold findTaskByRunId. keeps_tac. Qed.

Lemma keeps_findAgent id : keeps R (findAgent id).
Proof. unfold findAgent. keeps_tac. Qed.

Lemma keeps_update_tasks id f : keeps R (update_tasks id f).
Proof. unfold update_tasks. keeps_tac. Qed.

Lemma keeps_update_agents id f : keeps R (update_agents id f).
Proof. unfold update_agents. keeps_tac. Qed.

Lemma keeps_update_outputBuffers r f : keeps R (update_outputBuffers r f).
Proof. unfold update_outputBuffers. keeps_tac. Qed.

Lemma keeps_insert_activity a : keeps R (insert_activity a).
Proof. unfold insert_activity. keeps_tac. Qed.

Lemma keeps_insert_outputBuffer o :
  keeps R (insert_outputBuffer_onConflictDoNothing o).
Proof. unfold insert_outputBuffer_onConflictDoNothing. keeps_tac. Qed.

Lemma keeps_createActivity env t a act det :
  keeps R (createActivity env t a act det).
Proof. unfold createActivity. apply keeps_insert_activity. Qed.

Lemma keeps_emitTaskUpdate env t ch : keeps R (emitTaskUpdate env t ch).
Proof. unfold emitTaskUpdate. keeps_tac. Qed.

Lemma keeps_emitAgentUpdate env a st : keeps R (emitAgentUpdate env a st).
Proof. unfold emitAgentUpdate. keeps_tac. Qed.

Lemma keeps_when_assigned t k :
  (forall a, keeps R (k a)) -> keeps R (when_assigned t k).
Proof.
  intros Hk. unfold when_assigned.
  destruct (assignedAgentId t); [|apply keeps_ret; assumption].
  destruct (truthy _); [apply Hk|apply keeps_ret; assumption].
Qed.
End KeepsDb.

#[local] Hint Resolve keeps_findTaskByRunId keeps_findAgent keeps_update_tasks
  keeps_update_agents keeps_update_outputBuffers keeps_insert_activity
  keeps_insert_outputBuffer keeps_createActivity keeps_emitTaskUpdate
  keeps_emitAgentUpdate : keeps.

Ltac keeps_handler :=
  repeat first
    [ keeps_step
    | apply keeps_when_assigned; [typeclasses eauto|intros] ].

Lemma keeps_handleLifecycleStart R `{!PreOrder R} env r sk data :
  keeps R (handleLifecycleStart env r sk data).
Proof. unfold handleLifecycleStart. keeps_handler. Qed.

Lemma keeps_handleLifecycleError R `{!PreOrder R} env r sk err :
  keeps R (handleLifecycleError env r sk err).
Proof. unfold handleLifecycleError. keeps_handler. Qed.

Lemma keeps_handleToolCall R `{!PreOrder R} env r tool arguments :
  keeps R (handleToolCall env r tool arguments).
Proof. unfold handleToolCall. keeps_handler. Qed.

#[local] Instance same_at_preorder r : PreOrder (same_at r).
Proof.
  split.
  - intros a. reflexivity.
  - intros a1 a2 a3 H12 H23. unfold same_at in *. congruence.
Qed.

(** What follows a write to the map in a handler does not touch it. *)
Lemma accumulators_after_bind {A B} (m : M A) (k : A -> M B) b :
  (forall a, keeps eq (k a)) ->
  outputAccumulators (snd (bind m k b)) = outputAccumulators (snd (m b)).
Proof.
  intros Hk. unfold bind.
  destruct (m b) as [[a|reason] b1]; simpl; [|reflexivity].
  symmetry. apply Hk.
Qed.

Lemma append_accumulators r txt b :
  outputAccumulators (snd (append r txt b))
  = <[r := String.append (or_empty (outputAccumulators b !! r)) txt]>
      (outputAccumulators b).
Proof. reflexivity. Qed.

Lemma flushAndClear_accumulators r b :
  outputAccumulators (snd (flushAndClear r b)) = delete r (outputAccumulators b).
Proof. reflexivity. Qed.

Lemma flushAndClear_result r b :
  fst (flushAndClear r b) = Returned (or_empty (outputAccumulators b !! r)).
Proof. reflexivity. Qed.

Lemma handleAssistantDelta_accumulators env r txt b :
  outputAccumulators (snd (handleAssistantDelta env r txt b))
  = <[r := String.append (or_empty (outputAccumulators b !! r)) txt]>
      (outputAccumulators b).
Proof.
  unfold handleAssistantDelta.
  rewrite accumulators_after_bind; [apply append_accumulators|].
  intros updated. keeps_handler.
Qed.

Lemma handleLifecycleEnd_accumulators env r sk data b :
  outputAccumulators (snd (handleLifecycleEnd env r sk data b))
  = match find (has_run r) (tasks (db b)) with
    | Some _ => delete r (outputAccumulators b)
    | None => outputAccumulators b
    end.
Proof.
  unfold handleLifecycleEnd, bind at 1. simpl.
  destruct (find (has_run r) (tasks (db b))) as [task|]; [|reflexivity].
  rewrite accumulators_after_bind; [apply flushAndClear_accumulators|].
  intros out. keeps_handler.
Qed.

(** An event that is neither a delta nor an end of run [r] leaves the
    accumulator entry of [r] alone. *)
Lemma dispatch_same_at r env e b :
  is_end_of r e = false ->
  (forall txt, e <> AssistantDelta r txt) ->
  outputAccumulators (snd (dispatch env e b)) !! r = outputAccumulators b !! r.
Proof.
  intros Hend Hdelta. destruct e as [r'|r'|r'|r'|r' txt|r']; simpl in *.
  - apply (keeps_handleLifecycleStart (same_at r)).
  - rewrite handleLifecycleEnd_accumulators.
    destruct (find _ _); [|reflexivity].
    apply lookup_delete_ne. intros ->. rewrite String.eqb_refl in Hend. discriminate.
  - apply (keeps_handleLifecycleError (same_at r)).
  - apply (keeps_handleToolCall (same_at r)).
  - rewrite handleAssistantDelta_accumulators.
    apply lookup_insert_ne. intros ->. apply (Hdelta txt). reflexivity.
  - reflexivity.
Qed.

Lemma string_append_assoc (s1 s2 s3 : string) :
  String.append (String.append s1 s2) s3 = String.append s1 (String.append s2 s3).
Proof.
  induction s1 as [|c s1 IH]; [reflexivity|].
  change (String c (String.append (String.append s1 s2) s3)
          = String c (String.append s1 (String.append s2 s3))).
  rewrite IH. reflexivity.
Qed.

Lemma string_append_empty (s : string) : String.append s "" = s.
Proof.
  induction s as [|c s IH]; [reflexivity|].
  change (String c (String.append s "") = String c s).
  rewrite IH. reflexivity.
Qed.

Lemma process_cons env e rest b :
  process ((env, e) :: rest) b = process rest (snd (dispatch env e b)).
Proof. reflexivity. Qed.

(** The entry of a run after a batch of events none of which ends it. *)
Lemma process_accumulates r events : forall b,
  forallb (fun '(_, e) => negb (is_end_of r e)) events = true ->
  getOutputBuffer r (process events b)
  = String.append (getOutputBuffer r b) (concat_texts (deltas_of r events)).
Proof.
  unfold getOutputBuffer.
  induction events as [|[env e] rest IH]; intros b Hall.
  - simpl. symmetry. apply string_append_empty.
  - simpl in Hall. apply andb_true_iff in Hall as [He Hrest].
    apply negb_true_iff in He.
    rewrite process_cons, (IH _ Hrest).
    destruct e as [r'|r'|r'|r'|r' txt|r'];
      try (rewrite dispatch_same_at by (auto; discriminate); reflexivity).
    destruct (String.eqb_spec r' r) as [->|Hne].
    + simpl. rewrite String.eqb_refl. simpl.
      rewrite handleAssistantDelta_accumulators, lookup_insert_eq. simpl.
      apply string_append_assoc.
    + rewrite dispatch_same_at by (auto; congruence).
      simpl. destruct (String.eqb_spec r' r); [contradiction|]. reflexivity.
Qed.

(** C3: [flushAndClear] returns the texts of the run's AssistantDelta
    events concatenated in arrival order, whatever other events arrived
    in between and without regard to sequence numbers; for a run with no
    accumulator entry it returns the empty string and still completes. *)
Theorem flushAndClear_concatenation :
  (forall events b r,
      outputAccumulators b !! r = None ->
      forallb (fun '(_, e) => negb (is_end_of r e)) events = true ->
      fst (flushAndClear r (process events b))
      = Returned (concat_texts (deltas_of r events)))
  /\ (forall b r,
        outputAccumulators b !! r = None ->
        fst (flushAndClear r b) = Returned "").
Proof.
  split.
  - intros events b r Hnone Hall.
    rewrite flushAndClear_result.
    pose proof (process_accumulates r events b Hall) as H.
    unfold getOutputBuffer in H. rewrite H, Hnone. reflexivity.
  - intros b r Hnone. rewrite flushAndClear_result, Hnone. reflexivity.
Qed.

Lemma flushAndClear_concatenation_witness :
  fst (flushAndClear "r1" (process (firstn 4 hello_world) bridge0))
  = Returned "Hello world".
Proof.
  apply (proj1 flushAndClear_concatenation (firstn 4 hello_world) bridge0 "r1");
    reflexivity.
Defined.

(** The scenario of the specification, run on the model. *)
Example hello_world_scenario :
  let final := process hello_world bridge0 in
  getOutputBuffer "r1" (process (firstn 4 hello_world) bridge0) = "Hello world"
  /\ map (fun t => (task_id t, task_status t, outcome t, output t)) (tasks (db final))
     = [("t1", done, Some success, Some "Hello world")]
  /\ map (fun a => (agent_id a, completedTasks a, totalTokens a)) (agents (db final))
     = [("a1", 1, 100 + 42)].
Proof. vm_compute. auto. Qed.

(** *** Terminal events and the accumulator *)

Lemma handleLifecycleError_accumulators env r sk err b :
  outputAccumulators (snd (handleLifecycleError env r sk err b))
  = outputAccumulators b.
Proof. symmetry. apply (keeps_handleLifecycleError eq). Qed.

(** C5, on the code: LifecycleEnd for a run with a task removes the run's
    accumulator entry, but [handleLifecycleError] never touches the map, so
    the text accumulated by a run that fails stays in memory. *)
Theorem error_run_keeps_accumulator_entry :
  (forall env r sk err b,
      outputAccumulators (snd (handleLifecycleError env r sk err b))
      = outputAccumulators b)
  /\ outputAccumulators (process failing_run bridge0) !! "r1" = Some "partial"
  /\ outputAccumulators (process hello_world bridge0) !! "r1" = None.
Proof.
  split; [|split].
  - apply handleLifecycleError_accumulators.
  - vm_compute. reflexivity.
  - vm_compute. reflexivity.
Qed.

(** *** Output buffer rows *)

Lemma filter_snoc {A} (p : A -> bool) l x :
  List.filter p (l ++ [x]) = List.filter p l ++ (if p x then [x] else []).
Proof. rewrite List.filter_app. reflexivity. Qed.

(** A row with an unused [id] is inserted whatever rows the run already
    has: nothing in the table is keyed by [run_id]. *)
Lemma insert_outputBuffer_appends o b :
  existsb (fun x => String.eqb (buffer_id x) (buffer_id o)) (outputBuffers (db b)) = false ->
  task_exists (db b) (buffer_taskId o) = true ->
  buffers_of_run (buffer_runId o) (snd (insert_outputBuffer_onConflictDoNothing o b))
  = buffers_of_run (buffer_runId o) b ++ [o].
Proof.
  intros Hfresh Htask.
  unfold insert_outputBuffer_onConflictDoNothing, bind, get_db. simpl.
  rewrite Hfresh, Htask. simpl.
  unfold buffers_of_run. simpl.
  rewrite filter_snoc, String.eqb_refl. reflexivity.
Qed.

(** C6, on the code: a second LifecycleStart for a run inserts a second
    [output_buffers] row for it, since [ids.run()] gives the row a new
    primary key and [onConflictDoNothing] has no other key to conflict on. *)
Theorem duplicate_start_duplicates_buffer :
  map (fun o => (buffer_id o, buffer_runId o))
      (buffers_of_run "r1" (process start_twice bridge0))
  = [("run_1", "r1"); ("run_2", "r1")].
Proof. vm_compute. reflexivity. Qed.

(** *** Orphan events *)

Lemma orphan_delta_state env r txt b :
  find (has_run r) (tasks (db b)) = None ->
  handleAssistantDelta env r txt b
  = (Returned tt,
     {| db := db b;
        outputAccumulators :=
          <[r := String.append (or_empty (outputAccumulators b !! r)) txt]>
            (outputAccumulators b);
        emitted := emitted b |}).
Proof.
  intros Horphan.
  unfold handleAssistantDelta, append, findTaskByRunId, bind,
    get_accumulators, put_accumulators, get_db, ret.
  simpl. rewrite Horphan. reflexivity.
Qed.

Lemma orphan_other_state env e b :
  orphan e b -> is_delta e = false -> dispatch env e b = (Returned tt, b).
Proof.
  unfold orphan. intros Horphan Hdelta.
  destruct e as [r sk data|r sk data|r sk err|r tool arguments|r txt|r txt];
    simpl in *; try discriminate;
    try (unfold handleLifecycleStart, handleLifecycleEnd, handleLifecycleError,
           handleToolCall, findTaskByRunId, bind, get_db, ret;
         simpl; rewrite Horphan; reflexivity).
  reflexivity.
Qed.

(** C4 as stated fails: an AssistantDelta of a run without a task is
    added to the accumulator map. *)
Lemma orphan_delta_is_accumulated :
  ~ orphan_is_noop (env_n 1 "1") (AssistantDelta "r2" "hi") bridge0.
Proof.
  unfold orphan_is_noop. intros H.
  assert (Horphan : orphan (AssistantDelta "r2" "hi") bridge0) by reflexivity.
  specialize (H Horphan).
  apply (f_equal (fun b => outputAccumulators b !! "r2")) in H.
  vm_compute in H. discriminate.
Qed.

(** C4, amended: the handler of an orphan event returns normally, writes
    nothing to the database (tasks, agents, audit records, output buffers)
    and emits nothing; for every variant but AssistantDelta it leaves the
    whole bridge as it was, so the events after it are handled as if it had
    not arrived; an orphan AssistantDelta appends its text to the run's
    accumulator entry. *)
Theorem orphan_event_effects env e b :
  orphan e b ->
  fst (dispatch env e b) = Returned tt
  /\ db (snd (dispatch env e b)) = db b
  /\ emitted (snd (dispatch env e b)) = emitted b
  /\ (is_delta e = false -> snd (dispatch env e b) = b)
  /\ (forall rest, is_delta e = false ->
                   process ((env, e) :: rest) b = process rest b)
  /\ (forall r txt, e = AssistantDelta r txt ->
        outputAccumulators (snd (dispatch env e b))
        = <[r := String.append (or_empty (outputAccumulators b !! r)) txt]>
            (outputAccumulators b)).
Proof.
  intros Horphan.
  destruct (is_delta e) eqn:Hdelta.
  - destruct e; try discriminate. simpl.
    rewrite orphan_delta_state by exact Horphan. simpl.
    repeat split; try discriminate.
    intros r txt' Heq. injection Heq as -> ->. reflexivity.
  - pose proof (orphan_other_state env e b Horphan Hdelta) as Hstate.
    split; [rewrite Hstate; reflexivity|].
    split; [rewrite Hstate; reflexivity|].
    split; [rewrite Hstate; reflexivity|].
    split; [intros _; rewrite Hstate; reflexivity|].
    split.
    + intros rest _. rewrite process_cons, Hstate. reflexivity.
    + intros r txt ->. discriminate.
Qed.

Lemma orphan_event_effects_witness :
  fst (dispatch (env_n 1 "1") (LifecycleEnd "r2" "s2" tokens42) bridge0) = Returned tt
  /\ db (snd (dispatch (env_n 1 "1") (LifecycleEnd "r2" "s2" tokens42) bridge0))
     = db bridge0.
Proof.
  pose proof (orphan_event_effects (env_n 1 "1") (LifecycleEnd "r2" "s2" tokens42)
                bridge0 eq_refl) as H.
  exact (conj (proj1 H) (proj1 (proj2 H))).
Defined.

(** *** Completion is counted at every delivery *)

Lemma find_map_keep {A} (p : A -> bool) (g : A -> A) l :
  (forall x, p (g x) = p x) -> find p (map g l) = option_map g (find p l).
Proof.
  intros Hp. induction l as [|x l IH]; simpl; [reflexivity|].
  rewrite Hp. destruct (p x); [reflexivity|exact IH].
Qed.

Lemma existsb_map_keep {A} (p : A -> bool) (g : A -> A) l :
  (forall x, p (g x) = p x) -> existsb p (map g l) = existsb p l.
Proof.
  intros Hp. induction l as [|x l IH]; simpl; [reflexivity|].
  rewrite Hp, IH. reflexivity.
Qed.

Lemma find_existsb {A} (p q : A -> bool) l x :
  find p l = Some x -> q x = true -> existsb q l = true.
Proof.
  intros Hfind Hq. apply find_some in Hfind as [Hin _].
  apply existsb_exists. exists x. split; [|exact Hq].
  apply list_elem_of_In. apply list_elem_of_In in Hin. exact Hin.
Qed.

(** The state [handleLifecycleEnd] leaves when the run has a task assigned
    to an existing agent and the new audit record's key is unused. *)
Lemma handleLifecycleEnd_state env r sk data b task aid ag :
  find (has_run r) (tasks (db b)) = Some task ->
  assignedAgentId task = Some aid ->
  truthy (Some aid) = true ->
  agent_row aid b = Some ag ->
  fresh_activity env b = true ->
  handleLifecycleEnd env r sk data b = (Returned tt, ended env r data task aid ag b).
Proof.
  intros Hfind Hassigned Htruthy Hagent Hfresh.
  assert (Htask_exists :
    existsb (fun t => String.eqb (task_id t) (task_id task))
      (map (fun t => if String.eqb (task_id t) (task_id task)
                     then set_done env (getOutputBuffer r b) data t else t)
           (tasks (db b))) = true).
  { rewrite existsb_map_keep
      by (intros x; destruct (String.eqb (task_id x) (task_id task)) eqn:E;
          simpl; exact E).
    apply (find_existsb _ _ _ _ Hfind), String.eqb_refl. }
  assert (Hagent_exists :
    existsb (fun a => String.eqb (agent_id a) aid)
      (map (fun a => if String.eqb (agent_id a) aid
                     then set_idle_credited env ag data a else a)
           (agents (db b))) = true).
  { rewrite existsb_map_keep
      by (intros x; destruct (String.eqb (agent_id x) aid) eqn:E; simpl; exact E).
    pose proof Hagent as Hfound. apply find_some in Hfound as [_ Hid].
    exact (find_existsb _ _ _ _ Hagent Hid). }
  unfold fresh_activity in Hfresh. apply negb_true_iff in Hfresh.
  unfold agent_row in Hagent. unfold ended, getOutputBuffer in *.
  unfold handleLifecycleEnd, findTaskByRunId, bind, get_db, ret. simpl.
  rewrite Hfind.
  unfold when_assigned. rewrite Hassigned, Htruthy.
  unfold findAgent, update_tasks, update_agents, bind, get_db, put_db, ret. simpl.
  rewrite Hagent. simpl.
  unfold createActivity, insert_activity, bind, get_db, put_db, ret. simpl.
  rewrite Hfresh.
  unfold task_exists, agent_exists. simpl.
  rewrite Htask_exists, Hagent_exists. simpl.
  unfold completed_record. rewrite Hassigned. reflexivity.
Qed.

(** The agent's row after the handler: the counters read before, plus one
    task and the tokens of the event. *)
Lemma ended_agent_row env r data b task aid ag :
  agent_row aid b = Some ag ->
  agent_row aid (ended env r data task aid ag b)
  = Some (set_idle_credited env ag data ag).
Proof.
  unfold agent_row, ended. simpl. intros Hagent.
  rewrite find_map_keep
    by (intros x; destruct (String.eqb (agent_id x) aid) eqn:E; simpl; exact E).
  rewrite Hagent. simpl.
  apply find_some in Hagent as [_ Hid]. rewrite Hid. reflexivity.
Qed.

(** The task is still found by its run, now done. *)
Lemma ended_task env r data b task aid ag :
  find (has_run r) (tasks (db b)) = Some task ->
  find (has_run r) (tasks (db (ended env r data task aid ag b)))
  = Some (set_done env (getOutputBuffer r b) data task).
Proof.
  unfold ended. simpl. intros Hfind.
  rewrite find_map_keep.
  - rewrite Hfind. simpl. rewrite String.eqb_refl. reflexivity.
  - intros x. destruct (String.eqb (task_id x) (task_id task)); reflexivity.
Qed.

Lemma ended_completed_records env r data b task aid ag :
  completed_records (task_id task) (ended env r data task aid ag b)
  = completed_records (task_id task) b ++ [completed_record env task r].
Proof.
  unfold completed_records, ended. simpl.
  rewrite filter_snoc. simpl. rewrite String.eqb_refl. reflexivity.
Qed.

(** Keys that are unused and pairwise different stay so after a record with
    another key has been written. *)
Lemma fresh_activities_ended env envs r data b task aid ag :
  fresh_activities (env :: envs) b = true ->
  fresh_activities envs (ended env r data task aid ag b) = true.
Proof.
  simpl. intros H.
  apply andb_true_iff in H as [H Hrest]. apply andb_true_iff in H as [_ Hdistinct].
  apply negb_true_iff in Hdistinct.
  induction envs as [|e rest IH]; simpl in *; [reflexivity|].
  apply orb_false_iff in Hdistinct as [He Hdistinct].
  apply andb_true_iff in Hrest as [Hrest1 Hrest]. apply andb_true_iff in Hrest1 as [Hfresh Hd].
  rewrite Hd, (IH Hdistinct Hrest), !andb_true_r.
  unfold fresh_activity in *. unfold ended. simpl.
  rewrite existsb_app. simpl.
  apply negb_true_iff in Hfresh. rewrite Hfresh. simpl.
  rewrite String.eqb_sym, He. reflexivity.
Qed.

(** [n] deliveries of the end of a run credit the agent [n] times. *)
Lemma redeliveries_count envs : forall r sk data b task aid ag,
  find (has_run r) (tasks (db b)) = Some task ->
  assignedAgentId task = Some aid ->
  truthy (Some aid) = true ->
  agent_row aid b = Some ag ->
  fresh_activities envs b = true ->
  let b' := process (redeliveries envs r sk data) b in
  (completedTasks <$> agent_row aid b')
  = Some (completedTasks ag + Z.of_nat (length envs))
  /\ (totalTokens <$> agent_row aid b')
     = Some (totalTokens ag + Z.of_nat (length envs) * or_zero (tokens data))
  /\ length (completed_records (task_id task) b')
     = (length (completed_records (task_id task) b) + length envs)%nat.
Proof.
  induction envs as [|env rest IH];
    intros r sk data b task aid ag Hfind Hassigned Htruthy Hagent Hfresh b';
    subst b'.
  - simpl. rewrite Hagent. simpl.
    rewrite !Z.add_0_r, Nat.add_0_r. auto.
  - pose proof Hfresh as Hfirst. simpl in Hfirst.
    apply andb_true_iff in Hfirst as [Hfirst _].
    apply andb_true_iff in Hfirst as [Hfirst _].
    change (redeliveries (env :: rest) r sk data)
      with ((env, LifecycleEnd r sk data) :: redeliveries rest r sk data).
    rewrite process_cons. simpl dispatch.
    rewrite (handleLifecycleEnd_state env r sk data b task aid ag) by assumption.
    simpl snd.
    destruct (IH r sk data (ended env r data task aid ag b)
                (set_done env (getOutputBuffer r b) data task) aid
                (set_idle_credited env ag data ag))
      as (Hcompleted & Htokens & Hrecords).
    + apply ended_task. exact Hfind.
    + exact Hassigned.
    + exact Htruthy.
    + apply ended_agent_row. exact Hagent.
    + eapply fresh_activities_ended. exact Hfresh.
    + rewrite Hcompleted, Htokens. simpl task_id in Hrecords.
      rewrite Hrecords, ended_completed_records, length_app. simpl.
      split; [f_equal; lia|]. split; [f_equal; lia|lia].
Qed.

(** C1 as stated fails: the second LifecycleEnd of run [r1], delivered
    when task [t1] is already done, credits agent [a1] again and writes a
    second audit record. *)
Lemma duplicate_end_counts_twice :
  ~ end_is_idempotent (env_n 5 "5") (env_n 6 "6") "r1" "s1" tokens42
      (process (firstn 4 hello_world) bridge0).
Proof.
  intros [Hcounters _]. vm_compute in Hcounters. discriminate.
Qed.

Example redelivery_on_done_task :
  let once := process hello_world bridge0 in
  let twice := process hello_world_redelivered bridge0 in
  map task_status (tasks (db once)) = [done]
  /\ map (fun a => (completedTasks a, totalTokens a)) (agents (db once)) = [(1, 142)]
  /\ map (fun a => (completedTasks a, totalTokens a)) (agents (db twice)) = [(2, 184)]
  /\ map activity_id (completed_records "t1" twice) = ["act_5"; "act_6"]
  /\ map output (tasks (db twice)) = [Some ""].
Proof. vm_compute. repeat split. Qed.

End BridgeFacts.

(** * Properties of the hub *)

Section HubFacts.
Import Hub.

(** *** The client map *)

Lemma clients_get_set_eq w c cs : clients_get w (clients_set w c cs) = Some c.
Proof.
  induction cs as [|[k v] rest IH]; simpl.
  - rewrite Nat.eqb_refl. reflexivity.
  - destruct (Nat.eqb k w) eqn:E; simpl; rewrite E; [reflexivity|exact IH].
Qed.

Lemma clients_get_set_ne w w' c cs :
  w <> w' -> clients_get w (clients_set w' c cs) = clients_get w cs.
Proof.
  intros Hne. induction cs as [|[k v] rest IH]; simpl.
  - destruct (Nat.eqb_spec w' w); [congruence|reflexivity].
  - destruct (Nat.eqb_spec k w') as [->|Hk]; simpl.
    + destruct (Nat.eqb_spec w' w); [congruence|reflexivity].
    + destruct (Nat.eqb k w); [reflexivity|exact IH].
Qed.

Lemma clients_get_delete_eq w cs : clients_get w (clients_delete w cs) = None.
Proof.
  induction cs as [|[k v] rest IH]; simpl; [reflexivity|].
  destruct (Nat.eqb k w) eqn:E; simpl; [exact IH|]. rewrite E. exact IH.
Qed.

Lemma clients_get_delete_ne w w' cs :
  w <> w' -> clients_get w (clients_delete w' cs) = clients_get w cs.
Proof.
  intros Hne. induction cs as [|[k v] rest IH]; simpl; [reflexivity|].
  destruct (Nat.eqb_spec k w') as [->|Hk]; simpl.
  - destruct (Nat.eqb_spec w' w); [congruence|exact IH].
  - destruct (Nat.eqb k w); [reflexivity|exact IH].
Qed.

Lemma clients_get_delete_none k w cs :
  clients_get k cs = None -> clients_get k (clients_delete w cs) = None.
Proof.
  intros Hnone. destruct (Nat.eq_dec k w) as [->|Hne].
  - apply clients_get_delete_eq.
  - rewrite clients_get_delete_ne by exact Hne. exact Hnone.
Qed.

Lemma wf_get w c cs : wf cs -> clients_get w cs = Some c -> ws c = w.
Proof.
  induction cs as [|[k v] rest IH]; simpl; [discriminate|].
  intros (Hk & _ & Hwf) Hget.
  destruct (Nat.eqb_spec k w) as [->|_].
  - injection Hget as ->. exact Hk.
  - apply IH; assumption.
Qed.

Lemma wf_set w c cs : ws c = w -> wf cs -> wf (clients_set w c cs).
Proof.
  intros Hc. induction cs as [|[k v] rest IH]; simpl.
  - auto.
  - intros (Hk & Hnone & Hwf).
    destruct (Nat.eqb_spec k w) as [->|Hne]; simpl.
    + auto.
    + split; [exact Hk|]. split; [|apply IH; exact Hwf].
      rewrite clients_get_set_ne by exact Hne. exact Hnone.
Qed.

Lemma wf_delete w cs : wf cs -> wf (clients_delete w cs).
Proof.
  induction cs as [|[k v] rest IH]; simpl; [auto|].
  intros (Hk & Hnone & Hwf).
  destruct (Nat.eqb k w); simpl; [apply IH; exact Hwf|].
  split; [exact Hk|]. split; [|apply IH; exact Hwf].
  apply clients_get_delete_none. exact Hnone.
Qed.

(** *** The heartbeat *)

(** A tick keeps the entries that answered the last ping, marked as
    waiting for the next answer, and drops the others. *)
Lemma heartbeat_get w cs :
  wf cs ->
  clients_get w (fst (heartbeat cs))
  = match clients_get w cs with
    | Some c =>
        if isAlive c
        then Some {| ws := ws c; subscribedTasks := subscribedTasks c; isAlive := false |}
        else None
    | None => None
    end.
Proof.
  induction cs as [|[k c] rest IH]; simpl; [reflexivity|].
  intros (Hk & Hnone & Hwf). specialize (IH Hwf).
  destruct (heartbeat rest) as [rest' eff]. simpl in IH.
  destruct (isAlive c) eqn:Halive; simpl.
  - destruct (Nat.eqb_spec k w) as [->|_]; [rewrite Halive; reflexivity|exact IH].
  - destruct (Nat.eqb_spec k w) as [->|_]; [|exact IH].
    rewrite IH, Hnone, Halive. reflexivity.
Qed.

Lemma wf_heartbeat cs : wf cs -> wf (fst (heartbeat cs)).
Proof.
  induction cs as [|[k c] rest IH]; simpl; [auto|].
  intros (Hk & Hnone & Hwf). specialize (IH Hwf).
  pose proof (heartbeat_get k rest Hwf) as Hget. rewrite Hnone in Hget.
  destruct (heartbeat rest) as [rest' eff]. simpl in *.
  destruct (isAlive c); simpl; auto.
Qed.

Lemma heartbeat_terminates w c cs :
  clients_get w cs = Some c -> isAlive c = false ->
  terminated w (snd (heartbeat cs)).
Proof.
  unfold terminated.
  induction cs as [|[k v] rest IH]; simpl; [discriminate|].
  intros Hget Halive.
  destruct (heartbeat rest) as [rest' eff]. simpl in IH.
  destruct (Nat.eqb_spec k w) as [->|_].
  - injection Hget as ->. rewrite Halive. simpl. left. reflexivity.
  - specialize (IH Hget Halive).
    destruct (isAlive v); simpl; right; exact IH.
Qed.

Lemma handleClientMessage_keeps env c message :
  ws (fst (handleClientMessage env c message)) = ws c
  /\ isAlive (fst (handleClientMessage env c message)) = isAlive c.
Proof. destruct message; simpl; auto. Qed.

Lemma wf_step env i cs : wf cs -> wf (fst (step env i cs)).
Proof.
  intros Hwf. destruct i as [w|w|w message|w| |m]; simpl.
  - apply wf_set; [reflexivity|exact Hwf].
  - destruct (clients_get w cs) as [c|] eqn:Hget; simpl; [|exact Hwf].
    apply wf_set; [|exact Hwf]. simpl. eapply wf_get; eassumption.
  - destruct (clients_get w cs) as [c|] eqn:Hget; simpl; [|exact Hwf].
    pose proof (handleClientMessage_keeps env c message) as [Hws _].
    destruct (handleClientMessage env c message) as [c' eff]. simpl in *.
    apply wf_set; [|exact Hwf]. rewrite Hws. eapply wf_get; eassumption.
  - apply wf_delete. exact Hwf.
  - apply wf_heartbeat. exact Hwf.
  - exact Hwf.
Qed.

Lemma run_cons env i rest cs :
  run ((env, i) :: rest) cs
  = (fst (run rest (fst (step env i cs))),
     snd (step env i cs) ++ snd (run rest (fst (step env i cs)))).
Proof.
  simpl. destruct (step env i cs) as [cs1 e1]. simpl.
  destruct (run rest cs1) as [cs2 e2]. reflexivity.
Qed.

Lemma run_app l1 l2 : forall cs,
  run (l1 ++ l2) cs
  = (fst (run l2 (fst (run l1 cs))),
     snd (run l1 cs) ++ snd (run l2 (fst (run l1 cs)))).
Proof.
  induction l1 as [|[env i] l1 IH]; intros cs.
  - simpl. destruct (run l2 cs). reflexivity.
  - change (((env, i) :: l1) ++ l2) with ((env, i) :: (l1 ++ l2)).
    rewrite !run_cons, IH. simpl. rewrite app_assoc. reflexivity.
Qed.

Lemma run_single env i cs :
  run [(env, i)] cs = (fst (step env i cs), snd (step env i cs) ++ []).
Proof. simpl. destruct (step env i cs). reflexivity. Qed.

Lemma wf_run inputs : forall cs, wf cs -> wf (fst (run inputs cs)).
Proof.
  induction inputs as [|[env i] rest IH]; intros cs Hwf; [exact Hwf|].
  rewrite run_cons. simpl. apply IH, wf_step, Hwf.
Qed.

Lemma reachable_wf cs : reachable cs -> wf cs.
Proof. intros [inputs <-]. apply wf_run. exact I. Qed.

(** *** Fan-out *)

Lemma received_app w e1 e2 : received w (e1 ++ e2) = received w e1 ++ received w e2.
Proof. unfold received. apply omap_app. Qed.

Lemma received_send w env k m :
  received w (send env k m) = if Nat.eqb k w && is_open env k then [m] else [].
Proof.
  unfold send, is_open.
  destruct (readyState env k); simpl; try (rewrite andb_false_r; reflexivity).
  destruct (Nat.eqb k w); reflexivity.
Qed.

(** One pass over the map that sends to the selected clients gives each
    socket at most one frame. *)
Lemma received_fanout (sel : WSClient -> bool) w env m cs :
  wf cs ->
  received w (flat_map (fun '(_, client) =>
                          if sel client then send env (ws client) m else []) cs)
  = match clients_get w cs with
    | Some c => if sel c && is_open env w then [m] else []
    | None => []
    end.
Proof.
  induction cs as [|[k c] rest IH]; simpl; [reflexivity|].
  intros (Hk & Hnone & Hwf). specialize (IH Hwf).
  rewrite received_app, IH. clear IH.
  destruct (Nat.eqb_spec k w) as [->|Hne].
  - rewrite Hnone, app_nil_r.
    destruct (sel c); simpl; [|reflexivity].
    rewrite received_send, Hk, Nat.eqb_refl. reflexivity.
  - destruct (sel c); simpl; [|reflexivity].
    rewrite received_send, Hk.
    destruct (Nat.eqb_spec k w); [contradiction|reflexivity].
Qed.

Lemma received_broadcast w env m cs :
  wf cs ->
  received w (broadcast env m cs)
  = match clients_get w cs with
    | Some _ => if is_open env w then [m] else []
    | None => []
    end.
Proof.
  intros Hwf.
  pose proof (received_fanout (fun _ => true) w env m cs Hwf) as H.
  simpl in H. exact H.
Qed.

Lemma received_broadcastToTask w env t m cs :
  wf cs ->
  received w (broadcastToTask env t m cs)
  = match clients_get w cs with
    | Some c => if bool_decide (t ∈ subscribedTasks c) && is_open env w then [m] else []
    | None => []
    end.
Proof.
  intros Hwf.
  exact (received_fanout (fun c => bool_decide (t ∈ subscribedTasks c)) w env m cs Hwf).
Qed.

(** What one relayed bridge message brings to a socket. *)
Lemma received_on_ws_broadcast w env m cs :
  wf cs ->
  received w (on_ws_broadcast env m cs)
  = match clients_get w cs with
    | Some _ =>
        if is_open env w
        then if subscribed_to_task_of m w cs then [m; m] else [m]
        else []
    | None => []
    end.
Proof.
  intros Hwf. unfold on_ws_broadcast, subscribed_to_task_of, subscriptions.
  rewrite received_app, received_broadcast by exact Hwf.
  destruct (task_scoped (msg_type m)); cbn [andb].
  - destruct (data_taskId (msg_data m)) as [t|]; cbn [andb].
    + destruct (truthy (Some t)); cbn [andb].
      * rewrite received_broadcastToTask by exact Hwf.
        destruct (clients_get w cs) as [c|]; [|reflexivity].
        destruct (bool_decide (t ∈ subscribedTasks c)), (is_open env w); reflexivity.
      * destruct (clients_get w cs), (is_open env w); reflexivity.
    + destruct (clients_get w cs), (is_open env w); reflexivity.
  - destruct (clients_get w cs), (is_open env w); reflexivity.
Qed.

(** C2 as stated fails: socket 1 is subscribed to task [t1] and is also in
    the set every message goes to, and gets the update of [t1] twice. *)
Lemma subscriber_receives_two_copies :
  ~ at_most_once (all_open 3) update_t1 two_observers.
Proof.
  intros H. specialize (H 1%nat). vm_compute in H. lia.
Qed.

(** C2, amended: [broadcastToTask] sends nothing to a socket that is not
    subscribed to the task, and one copy to an open subscribed one;
    [broadcast] sends exactly one copy to every registered open socket,
    subscribed or not; a message relayed from the bridge reaches a
    registered open socket twice when it is a task update or output delta
    of a task the socket is subscribed to, and once otherwise; a socket
    that is not registered or not open receives nothing. *)
Theorem fanout_copies cs env m :
  reachable cs ->
  (forall w t, t ∉ subscriptions w cs ->
               received w (broadcastToTask env t m cs) = [])
  /\ (forall w t, registered w cs -> is_open env w = true ->
                  t ∈ subscriptions w cs ->
                  received w (broadcastToTask env t m cs) = [m])
  /\ (forall w, registered w cs -> is_open env w = true ->
                received w (broadcast env m cs) = [m])
  /\ (forall w, registered w cs -> is_open env w = true ->
                received w (on_ws_broadcast env m cs)
                = if subscribed_to_task_of m w cs then [m; m] else [m])
  /\ (forall w, ~ (registered w cs /\ is_open env w = true) ->
                received w (broadcast env m cs) = []
                /\ received w (on_ws_broadcast env m cs) = []).
Proof.
  intros Hreach. pose proof (reachable_wf cs Hreach) as Hwf.
  unfold registered, subscriptions.
  split; [|split; [|split; [|split]]].
  - intros w t Hnot. rewrite received_broadcastToTask by exact Hwf.
    destruct (clients_get w cs) as [c|]; [|reflexivity].
    rewrite bool_decide_eq_false_2 by exact Hnot. reflexivity.
  - intros w t [c Hc] Hopen Hin. rewrite received_broadcastToTask by exact Hwf.
    rewrite Hc in *. rewrite bool_decide_eq_true_2 by exact Hin.
    rewrite Hopen. reflexivity.
  - intros w [c Hc] Hopen. rewrite received_broadcast by exact Hwf.
    rewrite Hc, Hopen. reflexivity.
  - intros w [c Hc] Hopen. rewrite received_on_ws_broadcast by exact Hwf.
    rewrite Hc, Hopen. reflexivity.
  - intros w Hnot.
    rewrite received_on_ws_broadcast, received_broadcast by exact Hwf.
    destruct (clients_get w cs) as [c|] eqn:Hc; [|auto].
    destruct (is_open env w) eqn:Hopen; [|auto].
    exfalso. apply Hnot. split; [exists c; reflexivity|reflexivity].
Qed.

Lemma two_observers_reachable : reachable two_observers.
Proof. eexists. reflexivity. Qed.

(** The theorem on the two observers: socket 1, subscribed to [t1], gets
    the update twice, socket 2 once, and a message for task [t2] sent with
    [broadcastToTask] reaches neither. *)
Lemma fanout_copies_witness :
  received 1%nat (on_ws_broadcast (all_open 3) update_t1 two_observers)
  = [update_t1; update_t1]
  /\ received 2%nat (on_ws_broadcast (all_open 3) update_t1 two_observers)
     = [update_t1]
  /\ received 1%nat (broadcastToTask (all_open 3) "t2" update_t1 two_observers) = [].
Proof.
  pose proof (fanout_copies two_observers (all_open 3) update_t1
                two_observers_reachable) as (Hnot & _ & _ & Hrelay & _).
  split; [|split].
  - apply (Hrelay 1%nat); [eexists|]; reflexivity.
  - apply (Hrelay 2%nat); [eexists|]; reflexivity.
  - apply (Hnot 1%nat "t2"). vm_compute. intros H. discriminate.
Defined.

(** *** Eviction *)

Lemma tick_makes_stale w cs : wf cs -> stale w (fst (heartbeat cs)).
Proof.
  intros Hwf. unfold stale. rewrite heartbeat_get by exact Hwf.
  destruct (clients_get w cs) as [c|]; [|exact I].
  destruct (isAlive c); [reflexivity|exact I].
Qed.

Lemma tick_evicts_stale w cs :
  wf cs -> stale w cs -> clients_get w (fst (heartbeat cs)) = None.
Proof.
  unfold stale. intros Hwf Hstale. rewrite heartbeat_get by exact Hwf.
  destruct (clients_get w cs) as [c|]; [|reflexivity].
  rewrite Hstale. reflexivity.
Qed.

(** Nothing but a pong of [w], or [w] connecting, makes [w] alive. *)
Lemma stale_step w env i cs :
  wf cs -> stale w cs -> revives w i = false -> stale w (fst (step env i cs)).
Proof.
  intros Hwf Hstale Hrev. unfold stale in *.
  destruct i as [w'|w'|w' message|w'| |m]; simpl in *.
  - apply Nat.eqb_neq in Hrev.
    rewrite clients_get_set_ne by congruence. exact Hstale.
  - apply Nat.eqb_neq in Hrev.
    destruct (clients_get w' cs); simpl; [|exact Hstale].
    rewrite clients_get_set_ne by congruence. exact Hstale.
  - destruct (clients_get w' cs) as [c|] eqn:Hget; simpl; [|exact Hstale].
    pose proof (handleClientMessage_keeps env c message) as [_ Halive].
    destruct (handleClientMessage env c message) as [c' eff]. simpl in *.
    destruct (Nat.eq_dec w w') as [->|Hne].
    + rewrite clients_get_set_eq. rewrite Hget in Hstale. congruence.
    + rewrite clients_get_set_ne by exact Hne. exact Hstale.
  - destruct (Nat.eq_dec w w') as [->|Hne].
    + rewrite clients_get_delete_eq. exact I.
    + rewrite clients_get_delete_ne by exact Hne. exact Hstale.
  - rewrite tick_evicts_stale; [exact I|exact Hwf|exact Hstale].
  - exact Hstale.
Qed.

Lemma no_revival_cons w env i rest :
  no_revival w ((env, i) :: rest) = true ->
  revives w i = false /\ no_revival w rest = true.
Proof.
  unfold no_revival. simpl. intros H.
  apply andb_true_iff in H as [Hi Hrest].
  apply negb_true_iff in Hi. auto.
Qed.

Lemma stale_run w inputs : forall cs,
  wf cs -> stale w cs -> no_revival w inputs = true ->
  stale w (fst (run inputs cs)).
Proof.
  induction inputs as [|[env i] rest IH]; intros cs Hwf Hstale Hno; [exact Hstale|].
  apply no_revival_cons in Hno as [Hi Hrest].
  rewrite run_cons. simpl.
  apply IH; [apply wf_step; exact Hwf| |exact Hrest].
  apply stale_step; assumption.
Qed.

(** A socket that leaves one ping unanswered is gone after the next tick. *)
Lemma one_missed_pong_evicts w env1 env2 es cs :
  wf cs -> no_revival w es = true ->
  clients_get w (fst (run ((env1, HeartbeatTick) :: es ++ [(env2, HeartbeatTick)]) cs))
  = None.
Proof.
  intros Hwf Hno.
  rewrite run_cons, run_app, run_single. cbn [fst snd step].
  apply tick_evicts_stale.
  - apply wf_run, wf_heartbeat, Hwf.
  - apply stale_run; [apply wf_heartbeat, Hwf|apply tick_makes_stale, Hwf|exact Hno].
Qed.

Lemma terminated_app_l w e1 e2 : terminated w e1 -> terminated w (e1 ++ e2).
Proof. unfold terminated. intros H. apply in_or_app. left. exact H. Qed.

Lemma terminated_app_r w e1 e2 : terminated w e2 -> terminated w (e1 ++ e2).
Proof. unfold terminated. intros H. apply in_or_app. right. exact H. Qed.

(** An entry waiting for a pong stays as it is until the next tick, which
    terminates its socket, unless the socket closes first. *)
Lemma waiting_step w c env i cs :
  clients_get w cs = Some c -> isAlive c = false ->
  revives w i = false -> closes w i = false ->
  terminated w (snd (step env i cs))
  \/ exists c', clients_get w (fst (step env i cs)) = Some c' /\ isAlive c' = false.
Proof.
  intros Hget Halive Hrev Hclose.
  destruct i as [w'|w'|w' message|w'| |m]; simpl in *.
  - apply Nat.eqb_neq in Hrev. right. exists c.
    rewrite clients_get_set_ne by congruence. auto.
  - apply Nat.eqb_neq in Hrev. right. exists c.
    destruct (clients_get w' cs); simpl; [|auto].
    rewrite clients_get_set_ne by congruence. auto.
  - right.
    destruct (clients_get w' cs) as [v|] eqn:Hv; simpl; [|exists c; auto].
    pose proof (handleClientMessage_keeps env v message) as [_ Hkeep].
    destruct (handleClientMessage env v message) as [v' eff]. simpl in *.
    destruct (Nat.eq_dec w w') as [->|Hne].
    + exists v'. rewrite clients_get_set_eq. split; [reflexivity|]. congruence.
    + exists c. rewrite clients_get_set_ne by exact Hne. auto.
  - right. exists c. apply Nat.eqb_neq in Hclose.
    rewrite clients_get_delete_ne by congruence. auto.
  - left. eapply heartbeat_terminates; eassumption.
  - right. exists c. auto.
Qed.

Lemma waiting_run w inputs : forall c cs,
  clients_get w cs = Some c -> isAlive c = false ->
  no_revival w inputs = true -> no_close w inputs = true ->
  terminated w (snd (run inputs cs))
  \/ exists c', clients_get w (fst (run inputs cs)) = Some c' /\ isAlive c' = false.
Proof.
  induction inputs as [|[env i] rest IH]; intros c cs Hget Halive Hno Hnc.
  - right. exists c. auto.
  - apply no_revival_cons in Hno as [Hi Hrest].
    unfold no_close in Hnc. simpl in Hnc.
    apply andb_true_iff in Hnc as [Hci Hcrest]. apply negb_true_iff in Hci.
    rewrite run_cons. simpl.
    destruct (waiting_step w c env i cs Hget Halive Hi Hci) as [Hterm|[c' [Hget' Halive']]].
    + left. apply terminated_app_l. exact Hterm.
    + destruct (IH c' _ Hget' Halive' Hrest Hcrest) as [Hterm|Hwait].
      * left. apply terminated_app_r. exact Hterm.
      * right. exact Hwait.
Qed.

(** A registered socket that stays connected and leaves one ping
    unanswered is terminated by the next tick at the latest. *)
Lemma one_missed_pong_terminates w env1 env2 es cs :
  wf cs -> registered w cs ->
  no_revival w es = true -> no_close w es = true ->
  terminated w (snd (run ((env1, HeartbeatTick) :: es ++ [(env2, HeartbeatTick)]) cs)).
Proof.
  intros Hwf [c Hc] Hno Hnc.
  rewrite run_cons, run_app, run_single. cbn [fst snd step].
  destruct (isAlive c) eqn:Halive.
  - apply terminated_app_r.
    pose proof (heartbeat_get w cs Hwf) as Hget. rewrite Hc, Halive in Hget.
    destruct (waiting_run w es _ _ Hget eq_refl Hno Hnc) as [Hterm|[c' [Hget' Halive']]].
    + apply terminated_app_l. exact Hterm.
    + apply terminated_app_r, terminated_app_l.
      eapply heartbeat_terminates; eassumption.
  - apply terminated_app_l. eapply heartbeat_terminates; eassumption.
Qed.

(** C9: a socket that answers none of the pings of two consecutive ticks
    is no longer in the hub after the tick that follows, and with its entry
    all its task subscriptions are gone: nothing sent to a task reaches it.
    The eviction already happens at the tick after the first unanswered
    ping, where a socket that is still connected is terminated. *)
Theorem missed_pongs_evict cs w env1 env2 env3 es1 es2 :
  reachable cs ->
  no_revival w es1 = true ->
  no_revival w es2 = true ->
  let inputs := (env1, HeartbeatTick) :: es1 ++ (env2, HeartbeatTick)
                                      :: es2 ++ [(env3, HeartbeatTick)] in
  let final := fst (run inputs cs) in
  ~ registered w final
  /\ subscriptions w final = ∅
  /\ (forall env t m, received w (broadcastToTask env t m final) = [])
  /\ ~ registered w (fst (run ((env1, HeartbeatTick) :: es1 ++ [(env2, HeartbeatTick)]) cs))
  /\ (registered w cs -> no_close w es1 = true ->
      terminated w (snd (run ((env1, HeartbeatTick) :: es1 ++ [(env2, HeartbeatTick)]) cs))).
Proof.
  intros Hreach Hno1 Hno2 inputs final.
  pose proof (reachable_wf cs Hreach) as Hwf.
  assert (Hgone : clients_get w final = None).
  { subst final inputs.
    change ((env1, HeartbeatTick) :: es1 ++ (env2, HeartbeatTick) :: es2
              ++ [(env3, HeartbeatTick)])
      with (((env1, HeartbeatTick) :: es1)
              ++ ((env2, HeartbeatTick) :: es2 ++ [(env3, HeartbeatTick)])).
    rewrite run_app. cbn [fst].
    apply one_missed_pong_evicts; [|exact Hno2].
    apply wf_run, Hwf. }
  assert (Hwf_final : wf final) by (apply wf_run, Hwf).
  split; [|split; [|split; [|split]]].
  - unfold registered. rewrite Hgone. intros [c Hc]. discriminate.
  - unfold subscriptions. rewrite Hgone. reflexivity.
  - intros env t m. rewrite received_broadcastToTask by exact Hwf_final.
    rewrite Hgone. reflexivity.
  - unfold registered. rewrite one_missed_pong_evicts by assumption.
    intros [c Hc]. discriminate.
  - intros Hreg Hnc. apply one_missed_pong_terminates; assumption.
Qed.

(** The theorem on socket 1 of the two observers, which keeps sending
    subscriptions but answers no ping. *)
Lemma missed_pongs_evict_witness :
  ~ registered 1%nat
      (fst (run (tick 30 :: [(all_open 31, Message 1%nat (SubscribeTask "t2"))]
                   ++ tick 60 :: [] ++ [tick 90]) two_observers)).
Proof.
  exact (proj1 (missed_pongs_evict two_observers 1%nat
                  (all_open 30) (all_open 60) (all_open 90)
                  [(all_open 31, Message 1%nat (SubscribeTask "t2"))] []
                  two_observers_reachable eq_refl eq_refl)).
Defined.

End HubFacts.

(** * Further properties of the bridge *)

Section BridgeInvariants.
Import Bridge BridgeView.

#[local] Instance stable_preorder : PreOrder stable.
Proof.
  split.
  - intros b. unfold stable. repeat split; reflexivity.
  - intros b1 b2 b3 (Ht1 & Ha1 & Hact1 & Hbuf1 & Hem1) (Ht2 & Ha2 & Hact2 & Hbuf2 & Hem2).
    unfold stable. repeat split.
    + congruence.
    + congruence.
    + etransitivity; eassumption.
    + etransitivity; eassumption.
    + etransitivity; eassumption.
Qed.

Lemma maintains_ret R `{!PreOrder R} {A} (a : A) : maintains R (ret a).
Proof. intros b. simpl. reflexivity. Qed.

Lemma maintains_reject R `{!PreOrder R} {A} reason : maintains R (@reject A reason).
Proof. intros b. simpl. reflexivity. Qed.

Lemma maintains_bind R `{!PreOrder R} {A B} (m : M A) (k : A -> M B) :
  maintains R m -> (forall a, maintains R (k a)) -> maintains R (bind m k).
Proof.
  intros Hm Hk b. unfold bind. specialize (Hm b).
  destruct (m b) as [[a|reason] b1]; simpl in *.
  - etransitivity; [exact Hm|]. apply Hk.
  - exact Hm.
Qed.

Lemma maintains_get_db R `{!PreOrder R} : maintains R get_db.
Proof. intros b. simpl. reflexivity. Qed.

Lemma maintains_get_accumulators R `{!PreOrder R} : maintains R get_accumulators.
Proof. intros b. simpl. reflexivity. Qed.

Lemma stable_put_accumulators acc : maintains stable (put_accumulators acc).
Proof. intros b. unfold stable. simpl. repeat split; reflexivity. Qed.

Lemma stable_emit m : maintains stable (emit m).
Proof.
  intros b. unfold stable. simpl. repeat split; try reflexivity.
  apply prefix_app_r. reflexivity.
Qed.

Lemma map_update_kept {A B} (key : A -> B) (sel : A -> bool) (set : A -> A) l :
  (forall x, key (set x) = key x) ->
  map key (map (fun x => if sel x then set x else x) l) = map key l.
Proof.
  intros Hkept. rewrite map_map. apply map_ext. intros x.
  destruct (sel x); [apply Hkept|reflexivity].
Qed.

Lemma stable_update_tasks id set :
  (forall t, (task_id (set t), openclawRunId (set t), assignedAgentId (set t))
             = (task_id t, openclawRunId t, assignedAgentId t)) ->
  maintains stable (update_tasks id set).
Proof.
  intros Hkept b. unfold stable, task_links. simpl.
  split; [|repeat split; reflexivity].
  apply (map_update_kept (fun t => (task_id t, openclawRunId t, assignedAgentId t))).
  exact Hkept.
Qed.

Lemma stable_update_agents id set :
  (forall a, agent_id (set a) = agent_id a) ->
  maintains stable (update_agents id set).
Proof.
  intros Hkept b. unfold stable, agent_ids. simpl.
  split; [reflexivity|]. split; [|repeat split; reflexivity].
  apply (map_update_kept agent_id). exact Hkept.
Qed.

Lemma stable_update_outputBuffers r set :
  (forall o, (buffer_id (set o), buffer_taskId (set o), buffer_runId (set o))
             = (buffer_id o, buffer_taskId o, buffer_runId o)) ->
  maintains stable (update_outputBuffers r set).
Proof.
  intros Hkept b. unfold stable, buffer_keys. simpl.
  repeat split; try reflexivity.
  rewrite (map_update_kept (fun o => (buffer_id o, buffer_taskId o, buffer_runId o)))
    by exact Hkept.
  reflexivity.
Qed.

Lemma stable_insert_activity a : maintains stable (insert_activity a).
Proof.
  intros b. unfold insert_activity, bind, get_db. simpl.
  destruct (existsb _ _); simpl; [reflexivity|].
  destruct (negb _); simpl; [reflexivity|].
  unfold stable. simpl. repeat split; try reflexivity.
  apply prefix_app_r. reflexivity.
Qed.

Lemma stable_insert_outputBuffer o :
  maintains stable (insert_outputBuffer_onConflictDoNothing o).
Proof.
  intros b. unfold insert_outputBuffer_onConflictDoNothing, bind, get_db. simpl.
  destruct (existsb _ _); simpl; [reflexivity|].
  destruct (negb _); simpl; [reflexivity|].
  unfold stable, buffer_keys. simpl. repeat split; try reflexivity.
  rewrite map_app. apply prefix_app_r. reflexivity.
Qed.

Lemma stable_when_assigned t k :
  (forall a, maintains stable (k a)) -> maintains stable (when_assigned t k).
Proof.
  intros Hk. unfold when_assigned.
  destruct (assignedAgentId t); [|apply maintains_ret; typeclasses eauto].
  destruct (truthy _); [apply Hk|apply maintains_ret; typeclasses eauto].
Qed.

(** Peel one construct of a handler body off a [maintains stable] goal. *)
Ltac stable_step :=
  match goal with
  | |- maintains _ (bind _ _) => apply maintains_bind; [typeclasses eauto| |intros]
  | |- maintains _ (match ?o with Some _ => _ | None => _ end) => destruct o
  | |- maintains _ (when_assigned _ _) => apply stable_when_assigned; intros
  | |- maintains _ (ret _) => apply maintains_ret; typeclasses eauto
  | |- maintains _ get_db => apply maintains_get_db; typeclasses eauto
  | |- maintains _ get_accumulators => apply maintains_get_accumulators; typeclasses eauto
  | |- maintains _ (put_accumulators _) => apply stable_put_accumulators
  | |- maintains _ (emit _) => apply stable_emit
  | |- maintains _ (update_tasks _ _) => apply stable_update_tasks; reflexivity
  | |- maintains _ (update_agents _ _) => apply stable_update_agents; reflexivity
  | |- maintains _ (update_outputBuffers _ _) =>
      apply stable_update_outputBuffers; reflexivity
  | |- maintains _ (createActivity _ _ _ _ _) => apply stable_insert_activity
  | |- maintains _ (insert_outputBuffer_onConflictDoNothing _) =>
      apply stable_insert_outputBuffer
  end.

Lemma stable_dispatch env e : maintains stable (dispatch env e).
Proof.
  destruct e; simpl;
    unfold handleLifecycleStart, handleLifecycleEnd, handleLifecycleError,
      handleToolCall, handleAssistantDelta, handleAssistantFinal,
      findTaskByRunId, findAgent, flushAndClear, append,
      emitTaskUpdate, emitAgentUpdate;
    repeat stable_step.
Qed.

Lemma stable_process events : forall b, stable b (process events b).
Proof.
  induction events as [|[env e] rest IH]; intros b; [reflexivity|].
  rewrite process_cons. etransitivity; [apply stable_dispatch|apply IH].
Qed.

Lemma resolves_to_links b b' r :
  task_links b' = task_links b -> resolves_to r b' = resolves_to r b.
Proof.
  unfold task_links, resolves_to.
  generalize (tasks (db b)) as l. generalize (tasks (db b')) as l'.
  induction l' as [|t' l' IH]; intros [|t l] Heq; simpl in *; try discriminate.
  - reflexivity.
  - injection Heq as Hid Hrun Hagent Hrest.
    unfold has_run at 1 3. rewrite Hrun.
    destruct (openclawRunId t) as [r0|]; [destruct (String.eqb r0 r)|]; simpl.
    + congruence.
    + apply IH. exact Hrest.
    + apply IH. exact Hrest.
Qed.

(** No event, handled or rejected, adds, removes or re-links a task or an
    agent: every run resolves to the same task before and after any batch of
    events, audit records and emitted messages are only appended, and buffer
    rows keep their keys. *)
Theorem events_keep_links events b :
  stable b (process events b)
  /\ (forall r, resolves_to r (process events b) = resolves_to r b)
  /\ length (tasks (db (process events b))) = length (tasks (db b))
  /\ length (agents (db (process events b))) = length (agents (db b)).
Proof.
  pose proof (stable_process events b) as Hstable.
  split; [exact Hstable|].
  destruct Hstable as (Hlinks & Hagents & _).
  split; [intros r; apply resolves_to_links; exact Hlinks|].
  split.
  - apply (f_equal length) in Hlinks. unfold task_links in Hlinks.
    rewrite !length_map in Hlinks. exact Hlinks.
  - apply (f_equal length) in Hagents. unfold agent_ids in Hagents.
    rewrite !length_map in Hagents. exact Hagents.
Qed.

End BridgeInvariants.

Section BridgeHandlers.
Import Bridge BridgeView.

Lemma find_with_tasks (set : Task -> Task) r task b :
  (forall t, openclawRunId (set t) = openclawRunId t) ->
  find (has_run r) (tasks (db b)) = Some task ->
  find (has_run r) (with_tasks set task b) = Some (set task).
Proof.
  intros Hkept Hfind. unfold with_tasks.
  rewrite find_map_keep.
  - rewrite Hfind. simpl. rewrite String.eqb_refl. reflexivity.
  - intros x. unfold has_run.
    destruct (String.eqb (task_id x) (task_id task)); [rewrite Hkept|]; reflexivity.
Qed.

Lemma find_with_agents (set : Agent -> Agent) aid ag b :
  (forall a, agent_id (set a) = agent_id a) ->
  agent_row aid b = Some ag ->
  find (fun a => String.eqb (agent_id a) aid) (with_agents set aid b) = Some (set ag).
Proof.
  unfold agent_row, with_agents. intros Hkept Hagent.
  rewrite find_map_keep.
  - rewrite Hagent. simpl.
    apply find_some in Hagent as [_ Hid]. rewrite Hid. reflexivity.
  - intros x. destruct (String.eqb (agent_id x) aid) eqn:E; [rewrite Hkept|]; exact E.
Qed.

Lemma exists_with_tasks (set : Task -> Task) r task b :
  (forall t, task_id (set t) = task_id t) ->
  find (has_run r) (tasks (db b)) = Some task ->
  existsb (fun t => String.eqb (task_id t) (task_id task))
    (map (fun t => if String.eqb (task_id t) (task_id task) then set t else t)
         (tasks (db b))) = true.
Proof.
  intros Hkept Hfind.
  rewrite existsb_map_keep.
  - apply (find_existsb _ _ _ _ Hfind), String.eqb_refl.
  - intros x. destruct (String.eqb (task_id x) (task_id task)) eqn:E;
      [rewrite Hkept|]; exact E.
Qed.

Lemma exists_with_agents (set : Agent -> Agent) aid b :
  (forall a, agent_id (set a) = agent_id a) ->
  agent_exists (db b) aid = true ->
  existsb (fun a => String.eqb (agent_id a) aid)
    (map (fun a => if String.eqb (agent_id a) aid then set a else a)
         (agents (db b))) = true.
Proof.
  intros Hkept Hexists.
  rewrite existsb_map_keep; [exact Hexists|].
  intros x. destruct (String.eqb (agent_id x) aid) eqn:E; [rewrite Hkept|]; exact E.
Qed.

Lemma agent_row_exists aid ag b : agent_row aid b = Some ag -> agent_exists (db b) aid = true.
Proof.
  unfold agent_row, agent_exists. intros Hagent.
  pose proof Hagent as Hfound. apply find_some in Hfound as [_ Hid].
  exact (find_existsb _ _ _ _ Hagent Hid).
Qed.

Lemma task_found_exists r task b :
  find (has_run r) (tasks (db b)) = Some task ->
  task_exists (db b) (task_id task) = true.
Proof.
  intros Hfind. unfold task_exists.
  apply (find_existsb _ _ _ _ Hfind), String.eqb_refl.
Qed.

(** Unfold a handler down to the reads and writes of the state. *)
Ltac open_handler :=
  unfold handleLifecycleStart, handleLifecycleEnd, handleLifecycleError,
    handleToolCall, handleAssistantDelta, findTaskByRunId, findAgent,
    flushAndClear, append, when_assigned, update_tasks, update_agents,
    update_outputBuffers, createActivity, insert_activity,
    insert_outputBuffer_onConflictDoNothing, emitTaskUpdate, emitAgentUpdate,
    emit, bind, get_db, put_db, get_accumulators, put_accumulators, ret, reject,
    task_exists, agent_exists;
  simpl.

Lemma handleLifecycleStart_state env r sk data b task aid :
  find (has_run r) (tasks (db b)) = Some task ->
  assignedAgentId task = Some aid ->
  truthy (Some aid) = true ->
  agent_exists (db b) aid = true ->
  fresh_activity env b = true ->
  handleLifecycleStart env r sk data b = (Returned tt, started_bridge env r task aid b).
Proof.
  intros Hfind Hassigned Htruthy Hagent Hfresh.
  pose proof (exists_with_tasks (set_in_progress env) r task b
                (fun _ => eq_refl) Hfind) as Htasks.
  pose proof (exists_with_agents (set_working env) aid b
                (fun _ => eq_refl) Hagent) as Hagents.
  unfold fresh_activity in Hfresh. apply negb_true_iff in Hfresh.
  unfold started_bridge, fresh_buffer, with_tasks, with_agents, audit,
    task_update_msg, agent_update_msg.
  open_handler. rewrite Hfind. simpl.
  simpl in Htruthy. rewrite Hassigned, Htruthy. simpl.
  rewrite Hfresh. simpl. rewrite Htasks, Hagents. simpl.
  destruct (existsb _ (outputBuffers (db b))); simpl.
  - rewrite app_nil_r. reflexivity.
  - rewrite Htasks. simpl. reflexivity.
Qed.

Lemma handleLifecycleError_state env r sk err b task aid :
  find (has_run r) (tasks (db b)) = Some task ->
  assignedAgentId task = Some aid ->
  truthy (Some aid) = true ->
  agent_exists (db b) aid = true ->
  fresh_activity env b = true ->
  handleLifecycleError env r sk err b = (Returned tt, failed_bridge env r err task aid b).
Proof.
  intros Hfind Hassigned Htruthy Hagent Hfresh.
  pose proof (exists_with_tasks (set_blocked err) r task b
                (fun _ => eq_refl) Hfind) as Htasks.
  pose proof (exists_with_agents set_idle aid b (fun _ => eq_refl) Hagent) as Hagents.
  unfold fresh_activity in Hfresh. apply negb_true_iff in Hfresh.
  unfold failed_bridge, with_tasks, with_agents, audit,
    task_update_msg, agent_update_msg.
  open_handler. rewrite Hfind. simpl.
  simpl in Htruthy. rewrite Hassigned, Htruthy. simpl.
  rewrite Hfresh. simpl. rewrite Htasks, Hagents. simpl.
  reflexivity.
Qed.

Lemma handleToolCall_state env r tool arguments b task :
  find (has_run r) (tasks (db b)) = Some task ->
  fk_ok (agent_exists (db b)) (assignedAgentId task) = true ->
  fresh_activity env b = true ->
  handleToolCall env r tool arguments b = (Returned tt, tool_called_bridge env r tool task b).
Proof.
  intros Hfind Hagent Hfresh.
  pose proof (task_found_exists r task b Hfind) as Htask.
  unfold fresh_activity in Hfresh. apply negb_true_iff in Hfresh.
  unfold tool_called_bridge, audit.
  unfold task_exists in Htask. unfold fk_ok, agent_exists in Hagent.
  open_handler. rewrite Hfind. simpl.
  rewrite Hfresh. simpl. rewrite Htask. simpl.
  unfold fk_ok. rewrite Hagent. simpl. reflexivity.
Qed.

Lemma handleAssistantDelta_state env r txt b task :
  find (has_run r) (tasks (db b)) = Some task ->
  handleAssistantDelta env r txt b = (Returned tt, delta_bridge env r txt task b).
Proof.
  intros Hfind. unfold delta_bridge, getOutputBuffer.
  open_handler. rewrite Hfind. simpl. reflexivity.
Qed.

Lemma handleLifecycleEnd_unassigned_state env r sk data b task :
  find (has_run r) (tasks (db b)) = Some task ->
  assignedAgentId task = None ->
  fresh_activity env b = true ->
  handleLifecycleEnd env r sk data b = (Returned tt, ended_unassigned env r data task b).
Proof.
  intros Hfind Hassigned Hfresh.
  pose proof (exists_with_tasks (set_done env (getOutputBuffer r b) data) r task b
                (fun _ => eq_refl) Hfind) as Htasks.
  unfold fresh_activity in Hfresh. apply negb_true_iff in Hfresh.
  unfold ended_unassigned, with_tasks, completed_record, task_update_msg,
    getOutputBuffer in *.
  open_handler. rewrite Hfind. simpl.
  rewrite Hassigned. simpl.
  rewrite Hfresh. simpl. rewrite Htasks. simpl.
  reflexivity.
Qed.

Lemma handleLifecycleEnd_rejected_state env r sk data b task aid ag :
  find (has_run r) (tasks (db b)) = Some task ->
  assignedAgentId task = Some aid ->
  truthy (Some aid) = true ->
  agent_row aid b = Some ag ->
  fresh_activity env b = false ->
  handleLifecycleEnd env r sk data b
  = (Rejected "UNIQUE constraint failed: activities.id",
     ended_without_audit env r data task aid ag b).
Proof.
  intros Hfind Hassigned Htruthy Hagent Hfresh.
  unfold fresh_activity in Hfresh. apply negb_false_iff in Hfresh.
  unfold agent_row in Hagent.
  unfold ended_without_audit, with_tasks, with_agents, getOutputBuffer.
  open_handler. rewrite Hfind. simpl.
  simpl in Htruthy. rewrite Hassigned, Htruthy. simpl.
  rewrite Hagent. simpl. rewrite Hfresh. simpl. reflexivity.
Qed.

End BridgeHandlers.

Section BridgeEffects.
Import Bridge BridgeView.

(** LifecycleStart for a run whose task is assigned to an existing agent
    marks the task in progress from now on, marks the agent working without
    touching its counters, appends one task_started record, gives the run a
    buffer row with empty content unless the drawn row key is taken, leaves
    the accumulator alone and emits task_update then agent_update. *)
Theorem lifecycleStart_effects env r sk data b task aid ag :
  find (has_run r) (tasks (db b)) = Some task ->
  assignedAgentId task = Some aid ->
  truthy (Some aid) = true ->
  agent_row aid b = Some ag ->
  fresh_activity env b = true ->
  let b' := snd (handleLifecycleStart env r sk data b) in
  fst (handleLifecycleStart env r sk data b) = Returned tt
  /\ find (has_run r) (tasks (db b')) = Some (set_in_progress env task)
  /\ agent_row aid b' = Some (set_working env ag)
  /\ activities (db b')
     = activities (db b) ++ [audit env task task_started [("runId", r)]]
  /\ buffers_of_run r b'
     = buffers_of_run r b ++ (if fresh_buffer env b then [new_buffer env task r] else [])
  /\ outputAccumulators b' = outputAccumulators b
  /\ emitted b'
     = emitted b
       ++ [task_update_msg env (task_id task)
             (mkTaskChanges (Some in_progress) None None (Some (now env)) None);
           agent_update_msg env aid working].
Proof.
  intros Hfind Hassigned Htruthy Hagent Hfresh b'. subst b'.
  rewrite (handleLifecycleStart_state env r sk data b task aid)
    by eauto using agent_row_exists.
  simpl fst. simpl snd. unfold started_bridge.
  split; [reflexivity|].
  split; [apply find_with_tasks; [reflexivity|exact Hfind]|].
  split; [apply find_with_agents; [reflexivity|exact Hagent]|].
  split; [reflexivity|].
  split.
  - unfold buffers_of_run. simpl. rewrite List.filter_app.
    destruct (fresh_buffer env b); simpl; [rewrite String.eqb_refl|]; reflexivity.
  - split; [reflexivity|]. simpl. rewrite <- app_assoc. reflexivity.
Qed.

Lemma lifecycleStart_effects_witness :
  task_status <$> find (has_run "r1")
                    (tasks (db (snd (handleLifecycleStart (env_n 1 "1") "r1" "s1"
                                       started bridge0))))
  = Some in_progress.
Proof.
  pose proof (lifecycleStart_effects (env_n 1 "1") "r1" "s1" started bridge0
                task1 "a1" agent1 eq_refl eq_refl eq_refl eq_refl eq_refl) as H.
  cbv zeta in H. destruct H as (_ & Htask & _).
  rewrite Htask. reflexivity.
Defined.

(** LifecycleError for a run whose task is assigned to an existing agent
    blocks the task with outcome failed and the error text as its output,
    keeps its timestamps and token count, sets the agent idle without
    crediting it, appends one task_failed record carrying the error, and
    emits task_update then agent_update. *)
Theorem lifecycleError_effects env r sk err b task aid ag :
  find (has_run r) (tasks (db b)) = Some task ->
  assignedAgentId task = Some aid ->
  truthy (Some aid) = true ->
  agent_row aid b = Some ag ->
  fresh_activity env b = true ->
  let b' := snd (handleLifecycleError env r sk err b) in
  fst (handleLifecycleError env r sk err b) = Returned tt
  /\ find (has_run r) (tasks (db b')) = Some (set_blocked err task)
  /\ (output <$> find (has_run r) (tasks (db b'))) = Some (Some err)
  /\ agent_row aid b' = Some (set_idle ag)
  /\ (completedTasks <$> agent_row aid b') = Some (completedTasks ag)
  /\ (totalTokens <$> agent_row aid b') = Some (totalTokens ag)
  /\ activities (db b')
     = activities (db b)
       ++ [audit env task task_failed [("runId", r); ("error", err)]]
  /\ emitted b'
     = emitted b
       ++ [task_update_msg env (task_id task)
             (mkTaskChanges (Some blocked) (Some failed) None None None);
           agent_update_msg env aid idle].
Proof.
  intros Hfind Hassigned Htruthy Hagent Hfresh b'. subst b'.
  rewrite (handleLifecycleError_state env r sk err b task aid)
    by eauto using agent_row_exists.
  simpl fst. simpl snd.
  assert (Htask : find (has_run r) (tasks (db (failed_bridge env r err task aid b)))
                  = Some (set_blocked err task))
    by (apply find_with_tasks; [reflexivity|exact Hfind]).
  assert (Hrow : agent_row aid (failed_bridge env r err task aid b) = Some (set_idle ag))
    by (apply find_with_agents; [reflexivity|exact Hagent]).
  rewrite Htask, Hrow. unfold failed_bridge. simpl.
  repeat split. rewrite <- app_assoc. reflexivity.
Qed.

Lemma lifecycleError_effects_witness :
  output <$> find (has_run "r1")
               (tasks (db (snd (handleLifecycleError (env_n 3 "3") "r1" "s1" "boom"
                                  bridge0))))
  = Some (Some "boom").
Proof.
  exact (proj1 (proj2 (proj2
    (lifecycleError_effects (env_n 3 "3") "r1" "s1" "boom" bridge0
       task1 "a1" agent1 eq_refl eq_refl eq_refl eq_refl eq_refl)))).
Defined.

(** A tool call of a run with a task writes one status_changed record
    naming the tool and emits one activity message; tasks, agents, buffer
    rows and accumulators stay as they are. *)
Theorem toolCall_effects env r tool arguments b task :
  find (has_run r) (tasks (db b)) = Some task ->
  fk_ok (agent_exists (db b)) (assignedAgentId task) = true ->
  fresh_activity env b = true ->
  let b' := snd (handleToolCall env r tool arguments b) in
  fst (handleToolCall env r tool arguments b) = Returned tt
  /\ tasks (db b') = tasks (db b)
  /\ agents (db b') = agents (db b)
  /\ outputBuffers (db b') = outputBuffers (db b)
  /\ outputAccumulators b' = outputAccumulators b
  /\ activities (db b')
     = activities (db b)
       ++ [audit env task status_changed
             [("type", "tool_call"); ("toolName", tool); ("runId", r)]]
  /\ emitted b'
     = emitted b
       ++ [mkWSMessage activity (ActivityData (task_id task) "tool_call" tool) (now env)].
Proof.
  intros Hfind Hagent Hfresh b'. subst b'.
  rewrite (handleToolCall_state env r tool arguments b task) by assumption.
  unfold tool_called_bridge. simpl. repeat split.
Qed.

Lemma toolCall_effects_witness :
  map action (activities (db (snd (handleToolCall (env_n 2 "2") "r1" "grep" "{}" bridge0))))
  = [status_changed].
Proof.
  pose proof (toolCall_effects (env_n 2 "2") "r1" "grep" "{}" bridge0 task1
                eq_refl eq_refl eq_refl) as H.
  cbv zeta in H. destruct H as (_ & _ & _ & _ & _ & Hact & _).
  rewrite Hact. reflexivity.
Defined.

(** An AssistantDelta of a run with a task appends the text to the run's
    accumulator, writes the whole accumulated text into every buffer row of
    the run and into no row of another run, and emits one output_delta that
    carries the new text and the whole text; tasks, agents and audit records
    stay as they are. *)
Theorem assistantDelta_effects env r txt b task :
  find (has_run r) (tasks (db b)) = Some task ->
  let b' := snd (handleAssistantDelta env r txt b) in
  fst (handleAssistantDelta env r txt b) = Returned tt
  /\ getOutputBuffer r b' = String.append (getOutputBuffer r b) txt
  /\ (forall o, In o (buffers_of_run r b') -> content o = getOutputBuffer r b')
  /\ length (buffers_of_run r b') = length (buffers_of_run r b)
  /\ (forall r', r' <> r -> buffers_of_run r' b' = buffers_of_run r' b)
  /\ tasks (db b') = tasks (db b)
  /\ agents (db b') = agents (db b)
  /\ activities (db b') = activities (db b)
  /\ emitted b'
     = emitted b
       ++ [mkWSMessage output_delta
             (OutputDeltaData (task_id task) r txt (getOutputBuffer r b')) (now env)].
Proof.
  intros Hfind b'. subst b'.
  rewrite (handleAssistantDelta_state env r txt b task) by assumption.
  simpl fst. simpl snd.
  assert (Hacc : getOutputBuffer r (delta_bridge env r txt task b)
                 = String.append (getOutputBuffer r b) txt).
  { unfold getOutputBuffer, delta_bridge. simpl. rewrite lookup_insert_eq. reflexivity. }
  rewrite Hacc.
  split; [reflexivity|]. split; [reflexivity|].
  split; [|split; [|split]].
  - unfold buffers_of_run, delta_bridge. simpl.
    induction (outputBuffers (db b)) as [|x l IH]; simpl; [intros o []|].
    intros o. destruct (String.eqb (buffer_runId x) r) eqn:E; simpl.
    + rewrite E. simpl. intros [<-|Hin]; [reflexivity|apply IH; exact Hin].
    + rewrite E. apply IH.
  - unfold buffers_of_run, delta_bridge. simpl.
    induction (outputBuffers (db b)) as [|x l IH]; simpl; [reflexivity|].
    destruct (String.eqb (buffer_runId x) r) eqn:E; simpl; rewrite E; simpl;
      rewrite IH; reflexivity.
  - intros r' Hne. unfold buffers_of_run, delta_bridge. simpl.
    induction (outputBuffers (db b)) as [|x l IH]; simpl; [reflexivity|].
    destruct (String.eqb_spec (buffer_runId x) r) as [Hx|Hx]; simpl.
    + destruct (String.eqb_spec (buffer_runId x) r'); [congruence|exact IH].
    + destruct (String.eqb (buffer_runId x) r'); [rewrite IH|]; [reflexivity|exact IH].
  - unfold delta_bridge. simpl. repeat split.
Qed.

Lemma assistantDelta_effects_witness :
  getOutputBuffer "r1" (snd (handleAssistantDelta (env_n 2 "2") "r1" "Hel" bridge0))
  = "Hel".
Proof.
  exact (proj1 (proj2
    (assistantDelta_effects (env_n 2 "2") "r1" "Hel" bridge0 task1 eq_refl))).
Defined.

(** LifecycleEnd for a run whose task is assigned to an existing agent
    stores the accumulated text as the task's output with status done,
    outcome success and the event's token count (0 when absent), sends the
    same text in the task_update it emits before the agent_update, and
    leaves no accumulator entry for the run, so that the live buffer reads
    empty afterwards. *)
Theorem lifecycleEnd_persists_output env r sk data b task aid ag :
  find (has_run r) (tasks (db b)) = Some task ->
  assignedAgentId task = Some aid ->
  truthy (Some aid) = true ->
  agent_row aid b = Some ag ->
  fresh_activity env b = true ->
  let b' := snd (handleLifecycleEnd env r sk data b) in
  (output <$> find (has_run r) (tasks (db b'))) = Some (Some (getOutputBuffer r b))
  /\ (task_status <$> find (has_run r) (tasks (db b'))) = Some done
  /\ (outcome <$> find (has_run r) (tasks (db b'))) = Some (Some success)
  /\ (tokensUsed <$> find (has_run r) (tasks (db b'))) = Some (or_zero (tokens data))
  /\ outputAccumulators b' !! r = None
  /\ getOutputBuffer r b' = ""
  /\ outputBuffers (db b') = outputBuffers (db b)
  /\ emitted b'
     = emitted b
       ++ [task_update_msg env (task_id task)
             (mkTaskChanges (Some done) (Some success) (Some (getOutputBuffer r b))
                None (Some (now env)));
           agent_update_msg env aid idle].
Proof.
  intros Hfind Hassigned Htruthy Hagent Hfresh b'. subst b'.
  rewrite (handleLifecycleEnd_state env r sk data b task aid ag) by assumption.
  simpl snd. rewrite ended_task by exact Hfind.
  unfold getOutputBuffer, ended. simpl. rewrite lookup_delete_eq.
  repeat split. rewrite <- app_assoc. reflexivity.
Qed.

Lemma lifecycleEnd_persists_output_witness :
  output <$> find (has_run "r1")
               (tasks (db (snd (handleLifecycleEnd (env_n 5 "5") "r1" "s1" tokens42
                                  (process (firstn 4 hello_world) bridge0)))))
  = Some (Some "Hello world").
Proof.
  refine (proj1
    (lifecycleEnd_persists_output (env_n 5 "5") "r1" "s1" tokens42
       (process (firstn 4 hello_world) bridge0)
       (set_in_progress (env_n 1 "1") task1) "a1" (set_working (env_n 1 "1") agent1)
       _ _ _ _ _)); reflexivity.
Defined.

(** LifecycleEnd for a run whose task has no agent completes the task all
    the same, writes the audit record without an agent, touches no agent
    row and emits the task_update only. *)
Theorem lifecycleEnd_without_agent env r sk data b task :
  find (has_run r) (tasks (db b)) = Some task ->
  assignedAgentId task = None ->
  fresh_activity env b = true ->
  let b' := snd (handleLifecycleEnd env r sk data b) in
  fst (handleLifecycleEnd env r sk data b) = Returned tt
  /\ find (has_run r) (tasks (db b'))
     = Some (set_done env (getOutputBuffer r b) data task)
  /\ agents (db b') = agents (db b)
  /\ activities (db b') = activities (db b) ++ [completed_record env task r]
  /\ activity_agentId (completed_record env task r) = None
  /\ emitted b'
     = emitted b
       ++ [task_update_msg env (task_id task)
             (mkTaskChanges (Some done) (Some success) (Some (getOutputBuffer r b))
                None (Some (now env)))].
Proof.
  intros Hfind Hassigned Hfresh b'. subst b'.
  rewrite (handleLifecycleEnd_unassigned_state env r sk data b task) by assumption.
  simpl fst. simpl snd. unfold ended_unassigned. simpl.
  split; [reflexivity|].
  split; [apply find_with_tasks; [reflexivity|exact Hfind]|].
  repeat split. exact Hassigned.
Qed.

(** When the audit insert of LifecycleEnd is refused because the drawn key
    is taken, the handler's promise is rejected after the task has been
    marked done and the agent credited: these writes stay, the accumulator
    entry is gone, and no audit record is written and no message emitted. *)
Theorem lifecycleEnd_rejection_keeps_writes env r sk data b task aid ag :
  find (has_run r) (tasks (db b)) = Some task ->
  assignedAgentId task = Some aid ->
  truthy (Some aid) = true ->
  agent_row aid b = Some ag ->
  fresh_activity env b = false ->
  let b' := snd (handleLifecycleEnd env r sk data b) in
  fst (handleLifecycleEnd env r sk data b)
  = Rejected "UNIQUE constraint failed: activities.id"
  /\ find (has_run r) (tasks (db b'))
     = Some (set_done env (getOutputBuffer r b) data task)
  /\ agent_row aid b' = Some (set_idle_credited env ag data ag)
  /\ outputAccumulators b' !! r = None
  /\ activities (db b') = activities (db b)
  /\ emitted b' = emitted b.
Proof.
  intros Hfind Hassigned Htruthy Hagent Hfresh b'. subst b'.
  rewrite (handleLifecycleEnd_rejected_state env r sk data b task aid ag) by assumption.
  simpl fst. simpl snd.
  split; [reflexivity|].
  split; [apply find_with_tasks; [reflexivity|exact Hfind]|].
  split; [apply find_with_agents; [reflexivity|exact Hagent]|].
  unfold ended_without_audit. simpl. rewrite lookup_delete_eq. repeat split.
Qed.

Lemma lifecycleEnd_without_agent_witness :
  find (has_run "r2")
    (tasks (db (snd (handleLifecycleEnd (env_n 7 "7") "r2" "s2" tokens42
                       bridge_unassigned))))
  = Some (set_done (env_n 7 "7") "done by nobody" tokens42 task2).
Proof.
  exact (proj1 (proj2
    (lifecycleEnd_without_agent (env_n 7 "7") "r2" "s2" tokens42 bridge_unassigned
       task2 eq_refl eq_refl eq_refl))).
Defined.

Lemma lifecycleEnd_rejection_keeps_writes_witness :
  fst (handleLifecycleEnd (env_n 5 "1") "r1" "s1" tokens42
         (process (firstn 4 hello_world) bridge0))
  = Rejected "UNIQUE constraint failed: activities.id".
Proof.
  refine (proj1
    (lifecycleEnd_rejection_keeps_writes (env_n 5 "1") "r1" "s1" tokens42
       (process (firstn 4 hello_world) bridge0)
       (set_in_progress (env_n 1 "1") task1) "a1" (set_working (env_n 1 "1") agent1)
       _ _ _ _ _)); reflexivity.
Defined.

End BridgeEffects.

(** * Overlapping deliveries of the end of a run *)

Section AsyncFacts.
Import Bridge BridgeView Async.

Lemma uninterrupted_is_handler env r sk data b :
  Nat.iter stretches (fun st => advance env r sk data (fst st) (snd st)) (AwaitTask, b)
  = (Settled (fst (handleLifecycleEnd env r sk data b)),
     snd (handleLifecycleEnd env r sk data b)).
Proof.
  unfold stretches. cbn [Nat.iter].
  unfold advance, resume, handleLifecycleEnd, after_task_update.
  unfold findTaskByRunId, flushAndClear, when_assigned, findAgent, update_tasks,
    update_agents, createActivity, insert_activity, emitTaskUpdate, emitAgentUpdate,
    emit, bind, get_db, put_db, get_accumulators, put_accumulators, ret, reject.
  cbn.
  destruct (find (has_run r) (tasks (db b))) as [task|]; cbn; [|reflexivity].
  destruct (assignedAgentId task) as [a|] eqn:Hassigned; cbn;
    repeat (first [ reflexivity
                  | match goal with
                    | |- context [if ?c then _ else _] => destruct c eqn:?; cbn
                    | |- context [match find ?p ?l with _ => _ end] =>
                        destruct (find p l) eqn:?; cbn
                    end ]).
  all: rewrite ?Hassigned in *; unfold agent_exists, task_exists in *; cbn in *; try congruence.
  all: repeat match goal with
              | H : ?c = _ |- context [if ?c then _ else _] => rewrite H; cbn
              end; reflexivity.
Qed.

Lemma resume_handler_middle r sk data l1 env s l2 b :
  resume_handler r sk data (length l1) (l1 ++ (env, s) :: l2, b)
  = (l1 ++ (env, fst (advance env r sk data s b)) :: l2,
     snd (advance env r sk data s b)).
Proof.
  unfold resume_handler. cbn [fst snd].
  rewrite list_lookup_middle by reflexivity.
  destruct (advance env r sk data s b) as [s' b']. cbn [fst snd].
  rewrite insert_app_r_alt by lia. rewrite Nat.sub_diag. reflexivity.
Qed.

Lemma interleave_app r sk data s1 s2 st :
  interleave r sk data (s1 ++ s2) st = interleave r sk data s2 (interleave r sk data s1 st).
Proof. unfold interleave. apply fold_left_app. Qed.

Lemma interleave_cons r sk data i schedule st :
  interleave r sk data (i :: schedule) st
  = interleave r sk data schedule (resume_handler r sk data i st).
Proof. reflexivity. Qed.

(** An invocation resumed [k] times in a row, whatever else is in the
    pool. *)
Lemma interleave_repeat r sk data l1 env l2 k : forall s b,
  interleave r sk data (repeat (length l1) k) (l1 ++ (env, s) :: l2, b)
  = (l1 ++ (env, fst (Nat.iter k (fun st => advance env r sk data (fst st) (snd st))
                        (s, b))) :: l2,
     snd (Nat.iter k (fun st => advance env r sk data (fst st) (snd st)) (s, b))).
Proof.
  induction k as [|k IH]; intros s b; [reflexivity|].
  cbn [repeat]. rewrite interleave_cons, resume_handler_middle, Nat.iter_succ_r.
  cbn [fst snd]. destruct (advance env r sk data s b) as [s' b']. apply IH.
Qed.

(** Resumed one after the other, the invocations leave the bridge as
    handling the deliveries in sequence does. *)
Lemma one_after_the_other_is_process r sk data envs : forall done b,
  all_settled done = true ->
  exists pool,
    interleave r sk data
      (flat_map (fun i => repeat i stretches) (seq (length done) (length envs)))
      (done ++ deliver envs, b)
    = (pool, process (redeliveries envs r sk data) b)
    /\ all_settled pool = true.
Proof.
  induction envs as [|env rest IH]; intros done b Hdone.
  - exists done. cbn. rewrite app_nil_r. auto.
  - cbn [length seq flat_map deliver map].
    rewrite interleave_app.
    change (map (fun env => (env, AwaitTask)) rest) with (deliver rest).
    rewrite interleave_repeat, uninterrupted_is_handler. cbn [fst snd].
    change (redeliveries (env :: rest) r sk data)
      with ((env, LifecycleEnd r sk data) :: redeliveries rest r sk data).
    rewrite process_cons. cbn [dispatch].
    set (c := fst (handleLifecycleEnd env r sk data b)).
    set (b1 := snd (handleLifecycleEnd env r sk data b)).
    specialize (IH (done ++ [(env, Settled c)]) b1).
    rewrite length_app in IH. cbn [length] in IH.
    rewrite Nat.add_1_r, <- app_assoc in IH. cbn [app] in IH.
    apply IH. unfold all_settled in *. rewrite forallb_app, Hdone. reflexivity.
Qed.

End AsyncFacts.

Section AsyncInvariant.
Import Bridge BridgeView Async.
Variables (r sk : string) (data : AgentData) (tid aid : string).
Variables (c0 t0 : Z) (ids0 : list string) (n0 : nat) (envs : list Env).
Hypothesis Htruthy : truthy (Some aid) = true.
Hypothesis Hdistinct : NoDup (map activityId envs).
Hypothesis Hunused : forall env, In env envs -> ~ In (activityId env) ids0.

Lemma tally_middle f l1 (env : Env) s l2 :
  tally f (l1 ++ (env, s) :: l2)
  = (tally f l1 + (if f s then 1 else 0) + tally f l2)%nat.
Proof.
  unfold tally. rewrite List.filter_app, length_app. cbn.
  destruct (f s); cbn; lia.
Qed.

Lemma recorded_ids_middle l1 env s l2 :
  recorded_ids (l1 ++ (env, s) :: l2)
  = recorded_ids l1 ++ (if recorded s then [activityId env] else []) ++ recorded_ids l2.
Proof.
  unfold recorded_ids. rewrite List.filter_app, map_app. cbn.
  destruct (recorded s); reflexivity.
Qed.

Lemma recorded_ids_drawn pool x :
  In x (recorded_ids pool) -> In x (map activityId (map fst pool)).
Proof.
  unfold recorded_ids. rewrite map_map. intros Hin.
  apply in_map_iff in Hin as (h & <- & Hh). apply filter_In in Hh as [Hh _].
  apply in_map_iff. exists h. auto.
Qed.

Lemma locals_mono W W' s :
  W <= W' ->
  locals_ok data tid aid c0 t0 W s -> locals_ok data tid aid c0 t0 W' s.
Proof.
  intros Hle. destruct s; cbn; try exact (fun H => H).
  intros (Hlinked & Ha & j & Hj & Hcredited).
  split; [exact Hlinked|]. split; [exact Ha|]. exists j. split; [lia|exact Hcredited].
Qed.

Lemma consistent_db W ids n b b' :
  db b' = db b ->
  consistent r data tid aid c0 t0 ids0 n0 W ids n b ->
  consistent r data tid aid c0 t0 ids0 n0 W ids n b'.
Proof.
  unfold consistent, agent_row, completed_records. intros ->. exact (fun H => H).
Qed.

(** A stretch that writes neither the agent's row nor an audit record. *)
Lemma invariant_same_tally l1 env s s' l2 b b' :
  wrote s' = wrote s ->
  recorded s' = recorded s ->
  (forall W ids n,
      consistent r data tid aid c0 t0 ids0 n0 W ids n b ->
      consistent r data tid aid c0 t0 ids0 n0 W ids n b') ->
  (invariant r data tid aid c0 t0 ids0 n0 envs (l1 ++ (env, s) :: l2, b) ->
   locals_ok data tid aid c0 t0 (Z.of_nat (tally wrote (l1 ++ (env, s) :: l2))) s') ->
  invariant r data tid aid c0 t0 ids0 n0 envs (l1 ++ (env, s) :: l2, b) ->
  invariant r data tid aid c0 t0 ids0 n0 envs (l1 ++ (env, s') :: l2, b').
Proof.
  intros Hwrote Hrecorded Hdb Hlocal Hinv.
  specialize (Hlocal Hinv). destruct Hinv as (Hc & Hl & Henvs).
  unfold invariant. cbn [fst snd] in *.
  rewrite !tally_middle, !recorded_ids_middle in *.
  rewrite Hwrote, Hrecorded.
  split; [apply Hdb; exact Hc|]. split.
  - apply Forall_app in Hl as [Hl1 Hl2]. apply Forall_cons in Hl2 as [_ Hl2].
    apply Forall_app. split; [exact Hl1|]. apply Forall_cons. split; [|exact Hl2].
    exact Hlocal.
  - rewrite <- Henvs, !map_app. reflexivity.
Qed.

Lemma linked_set_done env out t :
  linked tid aid t -> linked tid aid (set_done env out data t).
Proof. exact (fun H => H). Qed.

Lemma consistent_task_update env out t W ids n b :
  consistent r data tid aid c0 t0 ids0 n0 W ids n b ->
  consistent r data tid aid c0 t0 ids0 n0 W ids n
    (snd (update_tasks (task_id t) (set_done env out data) b)).
Proof.
  intros ((t1 & Hfind & Hlinked) & Hagent & Hids & Hrecords).
  split; [|split; [exact Hagent|split; [exact Hids|exact Hrecords]]].
  cbn. rewrite find_map_keep.
  - rewrite Hfind. cbn.
    exists (if String.eqb (task_id t1) (task_id t) then set_done env out data t1 else t1).
    split; [reflexivity|]. destruct (String.eqb (task_id t1) (task_id t)); exact Hlinked.
  - intros x. destruct (String.eqb (task_id x) (task_id t)); reflexivity.
Qed.

Lemma drawn_key_unused l1 env s l2 :
  map fst (l1 ++ (env, s) :: l2) = envs ->
  recorded s = false ->
  ~ In (activityId env) ids0
  /\ ~ In (activityId env) (recorded_ids (l1 ++ (env, s) :: l2)).
Proof.
  intros Henvs Hrecorded. split.
  - apply Hunused. rewrite <- Henvs, map_app. apply in_app_iff. right. left. reflexivity.
  - pose proof Hdistinct as Hnodup.
    rewrite <- Henvs, !map_app in Hnodup. cbn [map fst] in Hnodup.
    apply NoDup_app in Hnodup as (_ & Hapart & Hnodup).
    apply NoDup_cons in Hnodup as [Hnot _].
    rewrite recorded_ids_middle, Hrecorded. cbn [app].
    intros Hin. apply in_app_iff in Hin as [Hin|Hin]; apply recorded_ids_drawn in Hin.
    + apply (Hapart (activityId env)); [apply list_elem_of_In; exact Hin|].
      apply list_elem_of_here.
    + apply Hnot. apply list_elem_of_In. exact Hin.
Qed.

Lemma credited_next env ag a j :
  credited c0 t0 data j ag ->
  credited c0 t0 data (j + 1) (set_idle_credited env ag data a).
Proof. unfold credited. cbn. intros [-> ->]. split; lia. Qed.

Lemma advance_invariant l1 env s l2 b :
  invariant r data tid aid c0 t0 ids0 n0 envs (l1 ++ (env, s) :: l2, b) ->
  invariant r data tid aid c0 t0 ids0 n0 envs
    (l1 ++ (env, fst (advance env r sk data s b)) :: l2,
     snd (advance env r sk data s b)).
Proof.
  intros Hinv.
  assert (Hlocal : locals_ok data tid aid c0 t0
                     (Z.of_nat (tally wrote (l1 ++ (env, s) :: l2))) s).
  { destruct Hinv as (_ & Hl & _). cbn [fst] in Hl.
    apply Forall_app in Hl as [_ Hl]. apply Forall_cons in Hl as [Hl _]. exact Hl. }
  destruct s as [|found|t out|t out a|t out a ag|t out|t out|c].
  - (* the task is read *)
    revert Hinv. apply invariant_same_tally; try reflexivity.
    + intros W ids n. apply consistent_db. reflexivity.
    + intros (((t & Hfind & Hlinked) & _) & _). cbn in *. exists t. auto.
  - (* the accumulator is flushed *)
    destruct Hlocal as (t & -> & Hlinked).
    revert Hinv. apply invariant_same_tally; try reflexivity.
    + intros W ids n. apply consistent_db. reflexivity.
    + intros _. exact Hlinked.
  - (* the task is written *)
    cbn in Hlocal. destruct Hlocal as [Hid Hassigned].
    assert (Hnext : after_task_update t out = AwaitAgent t out aid).
    { unfold after_task_update. rewrite Hassigned, Htruthy. reflexivity. }
    unfold advance, resume, bind, ret.
    destruct (update_tasks (task_id t) (set_done env out data) b) as [[[]|reason] b1] eqn:E;
      [|discriminate E].
    cbn [fst snd]. rewrite Hnext.
    revert Hinv. apply invariant_same_tally; try reflexivity.
    + intros W ids n Hc.
      pose proof (consistent_task_update env out t W ids n b Hc) as Hc1.
      rewrite E in Hc1. exact Hc1.
    + intros _. cbn. split; [split; assumption|reflexivity].
  - (* the agent is read *)
    cbn in Hlocal. destruct Hlocal as [Hlinked ->].
    pose proof Hinv as ((_ & (ag & k & Hagent & Hcredited & Hk & _) & _) & _).
    cbn [fst snd] in Hagent, Hk.
    unfold advance, resume, findAgent, bind, get_db, ret. cbn [fst snd].
    unfold agent_row in Hagent. rewrite Hagent. cbn [fst snd].
    revert Hinv. apply invariant_same_tally; try reflexivity.
    + intros W ids n Hc. exact Hc.
    + intros _. cbn. split; [exact Hlinked|]. split; [reflexivity|].
      exists k. split; [exact Hk|exact Hcredited].
  - (* the agent is written *)
    cbn in Hlocal. destruct Hlocal as (Hlinked & -> & j & Hj & Hcredited).
    destruct Hinv as (((t1 & Hfind & Hlinked1) & (cur & k & Hagent & _) & Hids & Hrecords)
                      & Hl & Henvs).
    unfold advance, resume, update_agents, bind, get_db, put_db, ret.
    unfold invariant. cbn [fst snd] in *.
    rewrite !tally_middle, !recorded_ids_middle in *. cbn [wrote recorded] in *.
    split; [split; [|split; [|split]]|split].
    + exists t1. split; [exact Hfind|exact Hlinked1].
    + exists (set_idle_credited env ag data cur), (j + 1).
      split; [|split; [apply credited_next; exact Hcredited|split; lia]].
      apply (find_with_agents (set_idle_credited env ag data) aid cur b);
        [reflexivity|exact Hagent].
    + exact Hids.
    + exact Hrecords.
    + apply Forall_app in Hl as [Hl1 Hl2]. apply Forall_cons in Hl2 as [_ Hl2].
      apply Forall_app. split; [|apply Forall_cons; split; [exact Hlinked|]].
      * eapply Forall_impl; [exact Hl1|]. intros h. apply locals_mono. lia.
      * eapply Forall_impl; [exact Hl2|]. intros h. apply locals_mono. lia.
    + rewrite <- Henvs, !map_app. reflexivity.
  - (* the audit record is written *)
    cbn in Hlocal. destruct Hlocal as [Hid Hassigned].
    destruct Hinv as (((t1 & Hfind & Hlinked1) & (cur & k & Hagent & Hk) & Hids & Hrecords)
                      & Hl & Henvs).
    cbn [fst snd] in *.
    destruct (drawn_key_unused l1 env (AwaitActivity t out) l2 Henvs eq_refl)
      as [Hnot0 Hnot1].
    assert (Hfresh : existsb (fun x => String.eqb (activity_id x) (activityId env))
                       (activities (db b)) = false).
    { apply not_true_is_false. intros Hex.
      apply existsb_exists in Hex as (x & Hx & Heq). apply String.eqb_eq in Heq.
      destruct (Hids (activityId env)) as [Hin|Hin]; [|contradiction|contradiction].
      rewrite <- Heq. apply in_map. exact Hx. }
    assert (Htask : task_exists (db b) (task_id t) = true).
    { destruct Hlinked1 as [Hid1 _]. rewrite Hid, <- Hid1.
      exact (task_found_exists r t1 b Hfind). }
    assert (Hagent_exists : agent_exists (db b) aid = true)
      by exact (agent_row_exists aid cur b Hagent).
    unfold advance, resume, createActivity, insert_activity, bind, get_db, put_db, ret,
      reject.
    cbn [fst snd activity_id activity_taskId activity_agentId].
    rewrite Hfresh, Hassigned. cbn [fk_ok]. rewrite Htask, Hagent_exists. cbn [fst snd negb andb].
    unfold invariant. cbn [fst snd].
    rewrite !tally_middle, !recorded_ids_middle in *. cbn [wrote recorded] in *.
    split; [split; [|split; [|split]]|split].
    + exists t1. split; [exact Hfind|exact Hlinked1].
    + exists cur, k. split; [exact Hagent|exact Hk].
    + cbn [db activities]. intros x Hin. rewrite map_app in Hin.
      apply in_app_iff in Hin as [Hin|Hin].
      * destruct (Hids x Hin) as [H0|H1]; [left; exact H0|right].
        cbn [app] in H1. apply in_app_iff in H1 as [H1|H1];
          apply in_app_iff; [left; exact H1|right; right; exact H1].
      * right. apply in_app_iff. right. left.
        destruct Hin as [<-|[]]. reflexivity.
    + unfold completed_records in *. cbn [db activities].
      rewrite List.filter_app, length_app, Hrecords. cbn.
      rewrite Hid, String.eqb_refl. cbn. lia.
    + apply Forall_app in Hl as [Hl1 Hl2]. apply Forall_cons in Hl2 as [_ Hl2].
      apply Forall_app. split; [exact Hl1|].
      apply Forall_cons. split; [split; assumption|exact Hl2].
    + rewrite <- Henvs, !map_app. reflexivity.
  - (* the messages are emitted *)
    cbn in Hlocal. destruct Hlocal as [Hid Hassigned].
    unfold advance, resume, emitTaskUpdate, emitAgentUpdate, when_assigned, emit, bind, ret.
    rewrite Hassigned, Htruthy. cbn [fst snd].
    revert Hinv. apply invariant_same_tally; try reflexivity.
    intros W ids n. apply consistent_db. reflexivity.
  - (* settled *)
    revert Hinv. apply invariant_same_tally; try reflexivity.
    + intros W ids n Hc. exact Hc.
    + intros _. exact Hlocal.
Qed.

Lemma resume_handler_invariant i st :
  invariant r data tid aid c0 t0 ids0 n0 envs st ->
  invariant r data tid aid c0 t0 ids0 n0 envs (resume_handler r sk data i st).
Proof.
  destruct st as [pool b]. intros Hinv.
  destruct (pool !! i) as [[env s]|] eqn:Hlookup.
  - apply list_elem_of_split_length in Hlookup as (l1 & l2 & -> & ->).
    rewrite resume_handler_middle. apply advance_invariant. exact Hinv.
  - unfold resume_handler. cbn [fst snd]. rewrite Hlookup. exact Hinv.
Qed.

Lemma interleave_invariant schedule : forall st,
  invariant r data tid aid c0 t0 ids0 n0 envs st ->
  invariant r data tid aid c0 t0 ids0 n0 envs (interleave r sk data schedule st).
Proof.
  induction schedule as [|i rest IH]; intros st Hinv; [exact Hinv|].
  rewrite interleave_cons. apply IH, resume_handler_invariant, Hinv.
Qed.

Lemma tally_settled f pool :
  (forall c, f (Settled c) = true) ->
  all_settled pool = true -> tally f pool = length pool.
Proof.
  intros Hf. unfold all_settled, tally.
  induction pool as [|[env s] rest IH]; cbn; [reflexivity|].
  intros Hall. apply andb_true_iff in Hall as [Hs Hall].
  destruct s; try discriminate Hs. rewrite Hf. cbn. rewrite IH by exact Hall. reflexivity.
Qed.

(** When every invocation has settled: each has returned, each has written
    its audit record, and the agent stands between one credit and one credit
    per delivery above the start. *)
Lemma invariant_settled pool b :
  envs <> [] ->
  invariant r data tid aid c0 t0 ids0 n0 envs (pool, b) ->
  all_settled pool = true ->
  all_returned pool = true
  /\ (exists k,
        1 <= k <= Z.of_nat (length envs)
        /\ (completedTasks <$> agent_row aid b) = Some (c0 + k)
        /\ (totalTokens <$> agent_row aid b) = Some (t0 + k * or_zero (tokens data)))
  /\ length (completed_records tid b) = (n0 + length envs)%nat.
Proof.
  intros Hsome ((_ & (a & k & Hagent & [Hc Ht] & Hk & Hk1) & _ & Hrecords) & Hl & Henvs)
    Hall.
  cbn [fst snd] in *.
  assert (Hlen : length pool = length envs) by (rewrite <- Henvs, length_map; reflexivity).
  rewrite (tally_settled wrote) in Hk, Hk1 by (exact Hall || reflexivity).
  rewrite (tally_settled recorded) in Hrecords by (exact Hall || reflexivity).
  rewrite Hlen in *.
  split; [|split].
  - assert (Hret : Forall (fun h : Env * Suspended =>
                             settled (snd h) = true -> returned (snd h) = true) pool).
    { eapply Forall_impl; [exact Hl|]. intros [env s]. cbn [snd].
      destruct s; cbn; try discriminate. intros ->. reflexivity. }
    clear -Hret Hall. unfold all_returned, all_settled in *.
    induction pool as [|h rest IH]; [reflexivity|].
    apply Forall_cons in Hret as [Hs Hret]. cbn in Hall |- *.
    apply andb_true_iff in Hall as [Hs' Hall].
    rewrite (Hs Hs'). apply IH; assumption.
  - exists k. rewrite Hagent. cbn. rewrite Hc, Ht.
    split; [|split; reflexivity].
    split; [|lia]. apply Hk1. destruct envs; [contradiction|discriminate].
  - exact Hrecords.
Qed.

End AsyncInvariant.

Section AsyncClaim.
Import Bridge BridgeView Async.

Lemma fresh_activities_distinct envs b :
  fresh_activities envs b = true ->
  NoDup (map activityId envs)
  /\ forall env, In env envs ->
       ~ In (activityId env) (map activity_id (activities (db b))).
Proof.
  induction envs as [|env rest IH]; cbn.
  - intros _. split; [apply NoDup_nil_2|intros env []].
  - intros H. apply andb_true_iff in H as [H Hrest].
    apply andb_true_iff in H as [Hfresh Hnew].
    destruct (IH Hrest) as [Hnodup Hunused].
    apply negb_true_iff in Hnew, Hfresh. split.
    + apply NoDup_cons. split; [|exact Hnodup].
      intros Hin. apply list_elem_of_In, in_map_iff in Hin as (e & Heq & He).
      apply not_true_iff_false in Hnew. apply Hnew.
      apply existsb_exists. exists e. split; [exact He|]. apply String.eqb_eq. exact Heq.
    + intros e [<-|He]; [|apply Hunused; exact He].
      intros Hin. apply in_map_iff in Hin as (x & Heq & Hx).
      apply not_true_iff_false in Hfresh. apply Hfresh.
      apply existsb_exists. exists x. split; [exact Hx|]. apply String.eqb_eq. exact Heq.
Qed.

(** Before any invocation is resumed. *)
Lemma invariant_delivered r data envs b task aid ag :
  find (has_run r) (tasks (db b)) = Some task ->
  assignedAgentId task = Some aid ->
  agent_row aid b = Some ag ->
  invariant r data (task_id task) aid (completedTasks ag) (totalTokens ag)
    (map activity_id (activities (db b))) (length (completed_records (task_id task) b))
    envs (deliver envs, b).
Proof.
  intros Hfind Hassigned Hagent.
  assert (Hnone : forall f, f AwaitTask = false -> tally f (deliver envs) = 0%nat).
  { clear. intros f Hf. unfold tally, deliver.
    induction envs as [|env rest IH]; cbn; [reflexivity|]. rewrite Hf. exact IH. }
  assert (Hids : recorded_ids (deliver envs) = []).
  { clear. unfold recorded_ids, deliver.
    induction envs as [|env rest IH]; cbn; [reflexivity|exact IH]. }
  unfold invariant. cbn [fst snd].
  rewrite !Hnone, Hids by reflexivity.
  split; [split; [|split; [|split]]|split].
  - exists task. split; [exact Hfind|]. split; [reflexivity|exact Hassigned].
  - exists ag, 0. split; [exact Hagent|]. unfold credited.
    split; [split; lia|]. split; [lia|]. intros H. contradiction.
  - intros x Hin. left. exact Hin.
  - lia.
  - unfold deliver. apply Forall_forall. intros h Hin.
    apply list_elem_of_In, in_map_iff in Hin as (env & <- & _). exact I.
  - unfold deliver. rewrite map_map. cbn. apply map_id.
Qed.

Lemma resume_first r sk data env s rest b :
  resume_handler r sk data 0 ((env, s) :: rest, b)
  = ((env, fst (advance env r sk data s b)) :: rest, snd (advance env r sk data s b)).
Proof. exact (resume_handler_middle r sk data [] env s rest b). Qed.

Lemma resume_second r sk data h env s rest b :
  resume_handler r sk data 1 (h :: (env, s) :: rest, b)
  = (h :: (env, fst (advance env r sk data s b)) :: rest,
     snd (advance env r sk data s b)).
Proof. exact (resume_handler_middle r sk data [h] env s rest b). Qed.

Ltac tidy :=
  unfold with_tasks, with_agents, agent_row, getOutputBuffer;
  cbn [fst snd db tasks agents activities outputBuffers outputAccumulators emitted].

(** The stretches of an invocation, one by one. *)
Lemma advance_AwaitTask env r sk data b :
  advance env r sk data AwaitTask b = (GotTask (find (has_run r) (tasks (db b))), b).
Proof. reflexivity. Qed.

Lemma advance_GotTask env r sk data t b :
  advance env r sk data (GotTask (Some t)) b
  = (AwaitTaskUpdate t (getOutputBuffer r b),
     {| db := db b;
        outputAccumulators := delete r (outputAccumulators b);
        emitted := emitted b |}).
Proof. reflexivity. Qed.

Lemma advance_AwaitTaskUpdate env r sk data t out b :
  advance env r sk data (AwaitTaskUpdate t out) b
  = (after_task_update t out,
     {| db := {| tasks := with_tasks (set_done env out data) t b;
                 agents := agents (db b);
                 activities := activities (db b);
                 outputBuffers := outputBuffers (db b) |};
        outputAccumulators := outputAccumulators b;
        emitted := emitted b |}).
Proof. reflexivity. Qed.

Lemma advance_AwaitAgent env r sk data t out a b :
  advance env r sk data (AwaitAgent t out a) b
  = (match agent_row a b with
     | Some ag => AwaitAgentUpdate t out a ag
     | None => AwaitActivity t out
     end, b).
Proof. reflexivity. Qed.

Lemma advance_AwaitAgentUpdate env r sk data t out a ag b :
  advance env r sk data (AwaitAgentUpdate t out a ag) b
  = (AwaitActivity t out,
     {| db := {| tasks := tasks (db b);
                 agents := with_agents (set_idle_credited env ag data) a b;
                 activities := activities (db b);
                 outputBuffers := outputBuffers (db b) |};
        outputAccumulators := outputAccumulators b;
        emitted := emitted b |}).
Proof. reflexivity. Qed.

Lemma advance_AwaitActivity env r sk data t out b :
  fresh_activity env b = true ->
  task_exists (db b) (task_id t) = true ->
  fk_ok (agent_exists (db b)) (assignedAgentId t) = true ->
  advance env r sk data (AwaitActivity t out) b
  = (Created t out,
     {| db := {| tasks := tasks (db b);
                 agents := agents (db b);
                 activities := activities (db b) ++ [completed_record env t r];
                 outputBuffers := outputBuffers (db b) |};
        outputAccumulators := outputAccumulators b;
        emitted := emitted b |}).
Proof.
  intros Hfresh Htask Hagent. apply negb_true_iff in Hfresh.
  unfold advance, resume, createActivity, insert_activity, bind, get_db, put_db, ret, reject.
  cbn [fst snd activity_id activity_taskId activity_agentId fk_ok].
  unfold fresh_activity in Hfresh. rewrite Hfresh, Htask, Hagent. reflexivity.
Qed.

Lemma advance_Created env r sk data t out a b :
  assignedAgentId t = Some a ->
  truthy (Some a) = true ->
  advance env r sk data (Created t out) b
  = (Settled (Returned tt),
     {| db := db b;
        outputAccumulators := outputAccumulators b;
        emitted :=
          (emitted b
           ++ [task_update_msg env (task_id t)
                 {| ch_status := Some done;
                    ch_outcome := Some success;
                    ch_output := Some out;
                    ch_startedAt := None;
                    ch_completedAt := Some (now env) |}])
          ++ [agent_update_msg env a idle] |}).
Proof.
  intros Hassigned Htruthy.
  unfold advance, resume, emitTaskUpdate, emitAgentUpdate, when_assigned, emit, bind, ret.
  rewrite Hassigned, Htruthy. reflexivity.
Qed.

Lemma burst_of_two r sk data env1 env2 b task aid ag :
  find (has_run r) (tasks (db b)) = Some task ->
  assignedAgentId task = Some aid ->
  truthy (Some aid) = true ->
  agent_row aid b = Some ag ->
  fresh_activities [env1; env2] b = true ->
  exists pool bn,
    interleave r sk data in_turn (deliver [env1; env2], b) = (pool, bn)
    /\ all_returned pool = true
    /\ agent_row aid bn
       = Some (set_idle_credited env2 ag data (set_idle_credited env1 ag data ag))
    /\ activities (db bn)
       = activities (db b) ++ [completed_record env1 task r; completed_record env2 task r].
Proof.
  intros Hfind Hassigned Htruthy Hagent Hfresh.
  assert (Hnext : forall out, after_task_update task out = AwaitAgent task out aid).
  { intros out. unfold after_task_update. rewrite Hassigned, Htruthy. reflexivity. }
  apply andb_true_iff in Hfresh as [Hfresh1 Hfresh2].
  apply andb_true_iff in Hfresh1 as [Hfresh1 Hnew].
  apply andb_true_iff in Hfresh2 as [Hfresh2 _]. apply andb_true_iff in Hfresh2 as [Hfresh2 _].
  cbn [existsb] in Hnew. rewrite orb_false_r in Hnew. apply negb_true_iff in Hnew.
  unfold fresh_activity in Hfresh1, Hfresh2.
  unfold agent_row in Hagent.
  pose proof (task_found_exists r task b Hfind) as Htask. unfold task_exists in Htask.
  pose proof (find_existsb _ (fun a => String.eqb (agent_id a) aid) _ _ Hagent
                (proj2 (find_some _ _ Hagent))) as Hexists.
  assert (Htasks : forall g1 g2 : Task -> Task,
             (forall t, task_id (g1 t) = task_id t) ->
             (forall t, task_id (g2 t) = task_id t) ->
             existsb (fun t => String.eqb (task_id t) (task_id task))
               (map (fun t => if String.eqb (task_id t) (task_id task) then g2 t else t)
                  (map (fun t => if String.eqb (task_id t) (task_id task) then g1 t else t)
                     (tasks (db b)))) = true).
  { intros g1 g2 H1 H2. rewrite !existsb_map_keep; [exact Htask| |];
      intros x; destruct (String.eqb (task_id x) (task_id task)) eqn:E;
      rewrite ?H1, ?H2; exact E. }
  assert (Hagents : forall h1 h2 : Agent -> Agent,
             (forall a, agent_id (h1 a) = agent_id a) ->
             (forall a, agent_id (h2 a) = agent_id a) ->
             existsb (fun a => String.eqb (agent_id a) aid)
               (map (fun a => if String.eqb (agent_id a) aid then h2 a else a)
                  (map (fun a => if String.eqb (agent_id a) aid then h1 a else a)
                     (agents (db b)))) = true).
  { intros h1 h2 H1 H2. rewrite !existsb_map_keep; [exact Hexists| |];
      intros x; destruct (String.eqb (agent_id x) aid) eqn:E;
      rewrite ?H1, ?H2; exact E. }
  eexists _, _. split.
  - unfold in_turn, stretches, deliver. cbn [flat_map seq app map].
    (* both read the task *)
    rewrite interleave_cons, resume_first, advance_AwaitTask, Hfind. tidy.
    rewrite interleave_cons, resume_second, advance_AwaitTask, Hfind. tidy.
    (* both flush the accumulator *)
    rewrite interleave_cons, resume_first, advance_GotTask. tidy.
    rewrite interleave_cons, resume_second, advance_GotTask. tidy.
    (* both write the task *)
    rewrite interleave_cons, resume_first, advance_AwaitTaskUpdate, Hnext. tidy.
    rewrite interleave_cons, resume_second, advance_AwaitTaskUpdate, Hnext. tidy.
    (* both read the agent, before either writes it *)
    rewrite interleave_cons, resume_first, advance_AwaitAgent. tidy. rewrite Hagent. tidy.
    rewrite interleave_cons, resume_second, advance_AwaitAgent. tidy. rewrite Hagent. tidy.
    (* both write the agent *)
    rewrite interleave_cons, resume_first, advance_AwaitAgentUpdate. tidy.
    rewrite interleave_cons, resume_second, advance_AwaitAgentUpdate. tidy.
    (* both write their audit record *)
    rewrite interleave_cons, resume_first, advance_AwaitActivity; tidy.
    2: { unfold fresh_activity. tidy. exact Hfresh1. }
    2: { unfold task_exists. tidy. apply Htasks; reflexivity. }
    2: { rewrite Hassigned. unfold fk_ok, agent_exists. tidy. apply Hagents; reflexivity. }
    rewrite interleave_cons, resume_second, advance_AwaitActivity; tidy.
    2: { unfold fresh_activity. tidy. rewrite existsb_app. cbn [existsb completed_record activity_id].
         apply negb_true_iff in Hfresh2. rewrite Hfresh2, String.eqb_sym, Hnew. reflexivity. }
    2: { unfold task_exists. tidy. apply Htasks; reflexivity. }
    2: { rewrite Hassigned. unfold fk_ok, agent_exists. tidy. apply Hagents; reflexivity. }
    (* both emit *)
    rewrite interleave_cons, resume_first, (advance_Created _ _ _ _ _ _ aid) by assumption.
    tidy.
    rewrite interleave_cons, resume_second, (advance_Created _ _ _ _ _ _ aid) by assumption.
    tidy.
    reflexivity.
  - tidy. split; [reflexivity|]. split.
    + rewrite !find_map_keep, Hagent.
      * cbn. apply find_some in Hagent as [_ Hid]. rewrite Hid. cbn. rewrite Hid. reflexivity.
      * intros x. destruct (String.eqb (agent_id x) aid) eqn:E; exact E.
      * intros x. destruct (String.eqb (agent_id x) aid) eqn:E; exact E.
    + rewrite <- app_assoc. reflexivity.
Qed.

(** C1, amended: [handleLifecycleEnd] never reads the task's status, and
    it writes to the agent the counters it read, plus one task and the
    event's tokens.  For [n >= 1] deliveries of the LifecycleEnd of a run
    whose task is assigned to an existing agent, whatever the task's status:
    however the invocations interleave, once all have settled each has
    returned and written an audit record of its own ([n] further records),
    and the agent has been credited [k] times for some [k] from 1 to [n];
    [k = n] when each invocation ends before the next is resumed, so that a
    re-delivery for a task already done counts again; [k = 1], with two
    records, for two deliveries whose invocations are resumed in turn, both
    reading the agent's row before either writes it. *)
Theorem lifecycleEnd_redelivery_counts r sk data envs b task aid ag :
  find (has_run r) (tasks (db b)) = Some task ->
  assignedAgentId task = Some aid ->
  truthy (Some aid) = true ->
  agent_row aid b = Some ag ->
  fresh_activities envs b = true ->
  envs <> [] ->
  (forall schedule,
      let st := interleave r sk data schedule (deliver envs, b) in
      all_settled (fst st) = true ->
      all_returned (fst st) = true
      /\ (exists k,
            1 <= k <= Z.of_nat (length envs)
            /\ (completedTasks <$> agent_row aid (snd st)) = Some (completedTasks ag + k)
            /\ (totalTokens <$> agent_row aid (snd st))
               = Some (totalTokens ag + k * or_zero (tokens data)))
      /\ length (completed_records (task_id task) (snd st))
         = (length (completed_records (task_id task) b) + length envs)%nat)
  /\ (let st := interleave r sk data (one_after_the_other (length envs))
                  (deliver envs, b) in
      all_settled (fst st) = true
      /\ (completedTasks <$> agent_row aid (snd st))
         = Some (completedTasks ag + Z.of_nat (length envs))
      /\ (totalTokens <$> agent_row aid (snd st))
         = Some (totalTokens ag + Z.of_nat (length envs) * or_zero (tokens data)))
  /\ (forall env1 env2,
        envs = [env1; env2] ->
        let st := interleave r sk data in_turn (deliver envs, b) in
        all_settled (fst st) = true
        /\ (completedTasks <$> agent_row aid (snd st)) = Some (completedTasks ag + 1)
        /\ (totalTokens <$> agent_row aid (snd st))
           = Some (totalTokens ag + or_zero (tokens data))
        /\ completed_records (task_id task) (snd st)
           = completed_records (task_id task) b
             ++ [completed_record env1 task r; completed_record env2 task r]).
Proof.
  intros Hfind Hassigned Htruthy Hagent Hfresh Hsome.
  split; [|split].
  - intros schedule st Hall. subst st.
    destruct (fresh_activities_distinct envs b Hfresh) as [Hnodup Hunused].
    pose proof (invariant_delivered r data envs b task aid ag Hfind Hassigned Hagent)
      as Hinv.
    apply (interleave_invariant r sk data (task_id task) aid _ _ _ _ envs
             Htruthy Hnodup Hunused schedule) in Hinv.
    destruct (interleave r sk data schedule (deliver envs, b)) as [pool bn].
    cbn [fst snd] in *.
    eapply invariant_settled; [..|exact Hinv|exact Hall]; assumption.
  - destruct (one_after_the_other_is_process r sk data envs [] b eq_refl)
      as (pool & Hrun & Hall).
    cbn [length app] in Hrun. unfold one_after_the_other. rewrite Hrun. cbn [fst snd].
    destruct (redeliveries_count envs r sk data b task aid ag
                Hfind Hassigned Htruthy Hagent Hfresh) as (Hcompleted & Htokens & _).
    auto.
  - intros env1 env2 ->.
    destruct (burst_of_two r sk data env1 env2 b task aid ag
                Hfind Hassigned Htruthy Hagent Hfresh)
      as (pool & bn & -> & Hall & Hrow & Hactivities).
    cbn [fst snd]. rewrite Hrow. cbn.
    split; [|split; [reflexivity|split; [reflexivity|]]].
    + clear -Hall. unfold all_returned, all_settled in *.
      induction pool as [|[env s] rest IH]; [reflexivity|]. cbn in Hall |- *.
      apply andb_true_iff in Hall as [Hs Hall]. rewrite (IH Hall), andb_true_r.
      destruct s as [| | | | | | |[]]; try discriminate Hs; reflexivity.
    + unfold completed_records. rewrite Hactivities, List.filter_app. cbn.
      rewrite String.eqb_refl. reflexivity.
Qed.

(** The theorem at run [r1] of the scenario, its end delivered twice after
    the three deltas: one after the other the invocations credit agent [a1]
    twice, resumed in turn once. *)
Lemma lifecycleEnd_redelivery_counts_witness :
  (completedTasks
     <$> agent_row "a1"
           (snd (interleave "r1" "s1" tokens42 (one_after_the_other 2)
                   (deliver [env_n 5 "5"; env_n 6 "6"],
                    process (firstn 4 hello_world) bridge0))))
  = Some (0 + 2)
  /\ (completedTasks
        <$> agent_row "a1"
              (snd (interleave "r1" "s1" tokens42 in_turn
                      (deliver [env_n 5 "5"; env_n 6 "6"],
                       process (firstn 4 hello_world) bridge0))))
     = Some (0 + 1).
Proof.
  pose proof (lifecycleEnd_redelivery_counts "r1" "s1" tokens42
                [env_n 5 "5"; env_n 6 "6"] (process (firstn 4 hello_world) bridge0)
                (set_in_progress (env_n 1 "1") task1) "a1"
                (set_working (env_n 1 "1") agent1)
                eq_refl eq_refl eq_refl eq_refl eq_refl ltac:(discriminate))
    as (_ & Hsequence & Hburst).
  split.
  - exact (proj1 (proj2 Hsequence)).
  - exact (proj1 (proj2 (Hburst _ _ eq_refl))).
Defined.

End AsyncClaim.

(** * Properties of the routes that read the bridge's state *)

Section RoutesFacts.
Import Bridge BridgeView Routes.

Lemma task_row_with_tasks (set : Task -> Task) task b :
  (forall t, task_id (set t) = task_id t) ->
  task_row (task_id task) b = Some task ->
  find (fun t => String.eqb (task_id t) (task_id task)) (with_tasks set task b)
  = Some (set task).
Proof.
  unfold task_row, with_tasks. intros Hkept Hrow.
  rewrite find_map_keep.
  - rewrite Hrow. simpl. rewrite String.eqb_refl. reflexivity.
  - intros x. destruct (String.eqb (task_id x) (task_id task)) eqn:E;
      [rewrite Hkept|]; exact E.
Qed.

Lemma found_has_run r task b :
  find (has_run r) (tasks (db b)) = Some task -> openclawRunId task = Some r.
Proof.
  intros Hfind. apply find_some in Hfind as [_ Hrun]. unfold has_run in Hrun.
  destruct (openclawRunId task) as [r0|]; [|discriminate].
  apply String.eqb_eq in Hrun. congruence.
Qed.

(** The output route shows the same text just before and just after a run
    completes: while the task is in progress and text has accumulated it
    answers the live accumulator, and once LifecycleEnd is handled it answers
    the task's stored output, which is that text. *)
Theorem output_route_across_completion env r sk data b task aid ag :
  find (has_run r) (tasks (db b)) = Some task ->
  task_row (task_id task) b = Some task ->
  task_status task = in_progress ->
  truthy (Some r) = true ->
  getOutputBuffer r b <> "" ->
  assignedAgentId task = Some aid ->
  truthy (Some aid) = true ->
  agent_row aid b = Some ag ->
  fresh_activity env b = true ->
  get_output (task_id task) b = Json (getOutputBuffer r b)
  /\ get_output (task_id task) (snd (handleLifecycleEnd env r sk data b))
     = Json (getOutputBuffer r b).
Proof.
  intros Hfind Hrow Hstatus Hrun Htext Hassigned Htruthy Hagent Hfresh.
  pose proof (found_has_run r task b Hfind) as Hlink.
  split.
  - unfold get_output. unfold task_row in Hrow. rewrite Hrow.
    unfold task_output. rewrite Hlink. cbv beta iota.
    rewrite Hrun, Hstatus. simpl.
    unfold or_else. destruct (String.eqb_spec (getOutputBuffer r b) ""); [contradiction|].
    reflexivity.
  - rewrite (handleLifecycleEnd_state env r sk data b task aid ag) by assumption.
    simpl snd. unfold get_output.
    change (tasks (db (ended env r data task aid ag b)))
      with (with_tasks (set_done env (getOutputBuffer r b) data) task b).
    rewrite task_row_with_tasks by (try reflexivity; exact Hrow).
    unfold task_output. simpl. rewrite Hlink. cbv beta iota.
    rewrite andb_false_r. reflexivity.
Qed.

Lemma output_route_across_completion_witness :
  get_output "t1" (process (firstn 4 hello_world) bridge0) = Json "Hello world"
  /\ get_output "t1" (process hello_world bridge0) = Json "Hello world".
Proof.
  refine (output_route_across_completion (env_n 5 "5") "r1" "s1" tokens42
            (process (firstn 4 hello_world) bridge0)
            (set_in_progress (env_n 1 "1") task1) "a1"
            (set_working (env_n 1 "1") agent1) _ _ _ _ _ _ _ _ _);
    try reflexivity.
  vm_compute. discriminate.
Defined.

(** After a run has failed the output route answers the error text, not the
    text that had accumulated: the task is blocked, so the live accumulator
    is not consulted. *)
Theorem output_route_after_failure env r sk err b task aid :
  find (has_run r) (tasks (db b)) = Some task ->
  task_row (task_id task) b = Some task ->
  assignedAgentId task = Some aid ->
  truthy (Some aid) = true ->
  agent_exists (db b) aid = true ->
  fresh_activity env b = true ->
  get_output (task_id task) (snd (handleLifecycleError env r sk err b)) = Json err.
Proof.
  intros Hfind Hrow Hassigned Htruthy Hagent Hfresh.
  pose proof (found_has_run r task b Hfind) as Hlink.
  rewrite (handleLifecycleError_state env r sk err b task aid) by assumption.
  simpl snd. unfold get_output.
  change (tasks (db (failed_bridge env r err task aid b)))
    with (with_tasks (set_blocked err) task b).
  rewrite task_row_with_tasks by (try reflexivity; exact Hrow).
  unfold task_output. simpl. rewrite Hlink.
  rewrite andb_false_r. reflexivity.
Qed.

Lemma output_route_after_failure_witness :
  get_output "t1" (process failing_run bridge0) = Json "boom".
Proof.
  refine (output_route_after_failure (env_n 3 "3") "r1" "s1" "boom"
            (process (firstn 2 failing_run) bridge0)
            (set_in_progress (env_n 1 "1") task1) "a1" _ _ _ _ _ _);
    reflexivity.
Defined.

Lemma filter_status_split (l : list Task) :
  length l
  = (length (List.filter (has_status inbox) l)
     + length (List.filter (has_status assigned) l)
     + length (List.filter (has_status in_progress) l)
     + length (List.filter (has_status review) l)
     + length (List.filter (has_status blocked) l)
     + length (List.filter (has_status done) l)
     + length (List.filter (has_status cancelled) l))%nat.
Proof.
  induction l as [|t l IH]; [reflexivity|].
  cbn [List.filter length]. unfold has_status in *.
  destruct (task_status t); cbn [status_eqb length]; lia.
Qed.

Lemma filter_active_split (l : list Task) :
  length (List.filter is_active_status l)
  = (length (List.filter (has_status assigned) l)
     + length (List.filter (has_status in_progress) l)
     + length (List.filter (has_status review) l))%nat.
Proof.
  induction l as [|t l IH]; [reflexivity|].
  cbn [List.filter length]. unfold has_status, is_active_status in *.
  destruct (task_status t); cbn [status_eqb existsb orb length] in *; lia.
Qed.

(** The dashboard counts every task once: the counts of the six Kanban
    columns and the cancelled tasks, which no column shows, add up to the
    total, and the active, completed and blocked figures are the sums of
    their columns. *)
Theorem dashboard_counts_add_up allTasks allAgents :
  let st := stats allTasks allAgents in
  (fold_right Nat.add 0 (map column_count (kanban allTasks))
   + length (off_board allTasks))%nat = stat_totalTasks st
  /\ map column_id (kanban allTasks)
     = [inbox; assigned; in_progress; review; blocked; done]
  /\ (forall col, In col (kanban allTasks) ->
        column_count col = length (column_tasks col)
        /\ Forall (fun t => task_status t = column_id col) (column_tasks col))
  /\ (stat_activeTasks st + stat_completedTasks st + stat_blockedTasks st
      <= stat_totalTasks st)%nat
  /\ (stat_activeAgents st <= stat_totalAgents st)%nat.
Proof.
  intros st. subst st. unfold stats, off_board. simpl.
  pose proof (filter_status_split allTasks) as Hsplit.
  pose proof (filter_active_split allTasks) as Hactive.
  split; [lia|]. split; [reflexivity|]. split; [|split; [lia|]].
  - intros col Hin. unfold kanban in Hin. simpl in Hin.
    assert (Hcol : forall s title,
               column_count (mkKanbanColumn s title (List.filter (has_status s) allTasks)
                               (length (List.filter (has_status s) allTasks)))
               = length (List.filter (has_status s) allTasks)
               /\ Forall (fun t => task_status t = s)
                    (List.filter (has_status s) allTasks)).
    { intros s title. split; [reflexivity|].
      apply Forall_forall. intros t Ht. apply list_elem_of_In in Ht.
      apply filter_In in Ht as [_ Ht]. unfold has_status in Ht.
      destruct (task_status t), s; simpl in Ht; congruence. }
    destruct Hin as [<-|[<-|[<-|[<-|[<-|[<-|[]]]]]]]; apply Hcol.
  - induction allAgents as [|a l IH]; simpl; [lia|].
    destruct (is_working a); simpl; lia.
Qed.

Lemma with_tasks_absent (set : Task -> Task) id (l : list Task) :
  ~ In id (map task_id l) ->
  map (fun t => if String.eqb (task_id t) id then set t else t) l = l.
Proof.
  induction l as [|x l IH]; simpl; [reflexivity|].
  intros Hnot. destruct (String.eqb_spec (task_id x) id) as [Heq|_].
  - exfalso. apply Hnot. left. exact Heq.
  - rewrite IH; [reflexivity|]. intros Hin. apply Hnot. right. exact Hin.
Qed.

(** Updating the one row with a given key moves it from the rows it was
    counted with to the rows its new value is counted with. *)
Lemma filter_length_update (p : Task -> bool) (set : Task -> Task) task (l : list Task) :
  (forall t, task_id (set t) = task_id t) ->
  NoDup (map task_id l) -> In task l ->
  (length (List.filter p
             (map (fun t => if String.eqb (task_id t) (task_id task) then set t else t) l))
   + (if p task then 1 else 0)
   = length (List.filter p l) + (if p (set task) then 1 else 0))%nat.
Proof.
  intros Hkept. induction l as [|x l IH]; intros Hnodup Hin; [destruct Hin|].
  simpl in Hnodup. apply NoDup_cons in Hnodup as [Hx Hnodup].
  rewrite list_elem_of_In in Hx.
  destruct Hin as [->|Hin].
  - simpl. rewrite String.eqb_refl, with_tasks_absent by exact Hx.
    destruct (p (set task)), (p task); simpl; lia.
  - assert (Hne : task_id x <> task_id task).
    { intros Heq. apply Hx. rewrite Heq. apply in_map. exact Hin. }
    simpl. destruct (String.eqb_spec (task_id x) (task_id task)); [contradiction|].
    specialize (IH Hnodup Hin). destruct (p x); simpl; lia.
Qed.

Lemma token_sum_from (l : list Task) a :
  fold_left (fun sum t => sum + tokensUsed t) l a
  = a + fold_left (fun sum t => sum + tokensUsed t) l 0.
Proof.
  revert a. induction l as [|x l IH]; intros a; simpl; [lia|].
  rewrite ?Z.add_0_l. rewrite (IH (a + tokensUsed x)), (IH (tokensUsed x)). lia.
Qed.

Lemma token_sum_update (set : Task -> Task) task (l : list Task) :
  NoDup (map task_id l) -> In task l ->
  fold_left (fun sum t => sum + tokensUsed t)
    (map (fun t => if String.eqb (task_id t) (task_id task) then set t else t) l) 0
  = fold_left (fun sum t => sum + tokensUsed t) l 0
    - tokensUsed task + tokensUsed (set task).
Proof.
  induction l as [|x l IH]; intros Hnodup Hin; [destruct Hin|].
  simpl in Hnodup. apply NoDup_cons in Hnodup as [Hx Hnodup].
  rewrite list_elem_of_In in Hx.
  destruct Hin as [->|Hin].
  - simpl. rewrite String.eqb_refl, with_tasks_absent by exact Hx.
    rewrite ?Z.add_0_l.
    rewrite (token_sum_from l (tokensUsed (set task))),
      (token_sum_from l (tokensUsed task)). lia.
  - assert (Hne : task_id x <> task_id task).
    { intros Heq. apply Hx. rewrite Heq. apply in_map. exact Hin. }
    simpl. destruct (String.eqb_spec (task_id x) (task_id task)); [contradiction|].
    rewrite ?Z.add_0_l. rewrite !(token_sum_from _ (tokensUsed x)).
    rewrite (IH Hnodup Hin). lia.
Qed.

Lemma filter_length_perm (p : Task -> bool) (l l' : list Task) :
  Permutation l l' -> length (List.filter p l) = length (List.filter p l').
Proof.
  induction 1 as [|x l l' _ IH|x y l|l l' l'' _ IH1 _ IH2]; simpl.
  - reflexivity.
  - destruct (p x); simpl; lia.
  - destruct (p x), (p y); reflexivity.
  - lia.
Qed.

Lemma token_sum_perm (l l' : list Task) :
  Permutation l l' ->
  fold_left (fun sum t => sum + tokensUsed t) l 0
  = fold_left (fun sum t => sum + tokensUsed t) l' 0.
Proof.
  induction 1 as [|x l l' _ IH|x y l|l l' l'' _ IH1 _ IH2]; simpl.
  - reflexivity.
  - rewrite ?Z.add_0_l. rewrite !(token_sum_from _ (tokensUsed x)). lia.
  - rewrite ?Z.add_0_l.
    rewrite (token_sum_from l (tokensUsed y + tokensUsed x)),
      (token_sum_from l (tokensUsed x + tokensUsed y)). lia.
  - lia.
Qed.

(** The figures computed from the task table itself, before and after the
    end of a run. *)
Lemma stats_of_rows_after_completion env r sk data b task aid ag allAgents allAgents' :
  NoDup (map task_id (tasks (db b))) ->
  find (has_run r) (tasks (db b)) = Some task ->
  task_status task = in_progress ->
  assignedAgentId task = Some aid ->
  truthy (Some aid) = true ->
  agent_row aid b = Some ag ->
  fresh_activity env b = true ->
  let b' := snd (handleLifecycleEnd env r sk data b) in
  let st := stats (tasks (db b)) allAgents in
  let st' := stats (tasks (db b')) allAgents' in
  stat_completedTasks st' = S (stat_completedTasks st)
  /\ S (stat_activeTasks st') = stat_activeTasks st
  /\ stat_blockedTasks st' = stat_blockedTasks st
  /\ stat_totalTasks st' = stat_totalTasks st
  /\ stat_totalTokens st'
     = stat_totalTokens st - tokensUsed task + or_zero (tokens data).
Proof.
  intros Hnodup Hfind Hstatus Hassigned Htruthy Hagent Hfresh b' st st'.
  subst st st' b'.
  rewrite (handleLifecycleEnd_state env r sk data b task aid ag) by assumption.
  simpl snd. unfold stats, ended. simpl.
  pose proof Hfind as Hin. apply find_some in Hin as [Hin _].
  pose proof (fun p => filter_length_update p (set_done env (getOutputBuffer r b) data)
                         task (tasks (db b)) (fun _ => eq_refl) Hnodup Hin) as Hcount.
  pose proof (Hcount (has_status done)) as Hdone.
  pose proof (Hcount is_active_status) as Hactive.
  pose proof (Hcount (has_status blocked)) as Hblocked.
  unfold has_status, is_active_status in Hdone, Hactive, Hblocked.
  simpl in Hdone, Hactive, Hblocked.
  rewrite Hstatus in Hdone, Hactive, Hblocked.
  simpl in Hdone, Hactive, Hblocked.
  rewrite !length_map.
  rewrite (token_sum_update _ task _ Hnodup Hin). simpl.
  unfold has_status, is_active_status. simpl.
  repeat split; lia.
Qed.

(** What the dashboard shows once the bridge has handled the end of a run,
    in whatever order its task query returns the rows: with task keys unique,
    the task in progress moves from the active to the completed figure, the
    total and the blocked figure stay, and the token total exchanges the
    task's old count for the one the event reports. *)
Theorem dashboard_after_completion env r sk data b task aid ag
    allTasks allTasks' allAgents allAgents' :
  NoDup (map task_id (tasks (db b))) ->
  find (has_run r) (tasks (db b)) = Some task ->
  task_status task = in_progress ->
  assignedAgentId task = Some aid ->
  truthy (Some aid) = true ->
  agent_row aid b = Some ag ->
  fresh_activity env b = true ->
  Permutation allTasks (tasks (db b)) ->
  Permutation allTasks' (tasks (db (snd (handleLifecycleEnd env r sk data b)))) ->
  let st := stats allTasks allAgents in
  let st' := stats allTasks' allAgents' in
  stat_completedTasks st' = S (stat_completedTasks st)
  /\ S (stat_activeTasks st') = stat_activeTasks st
  /\ stat_blockedTasks st' = stat_blockedTasks st
  /\ stat_totalTasks st' = stat_totalTasks st
  /\ stat_totalTokens st'
     = stat_totalTokens st - tokensUsed task + or_zero (tokens data).
Proof.
  intros Hnodup Hfind Hstatus Hassigned Htruthy Hagent Hfresh Hperm Hperm' st st'.
  pose proof (stats_of_rows_after_completion env r sk data b task aid ag
                allAgents allAgents' Hnodup Hfind Hstatus Hassigned Htruthy Hagent Hfresh)
    as Hrows.
  subst st st'. unfold stats in *. cbn [stat_totalTasks stat_activeTasks
    stat_completedTasks stat_blockedTasks stat_totalTokens] in *.
  rewrite !(filter_length_perm _ _ _ Hperm), !(filter_length_perm _ _ _ Hperm'),
    (token_sum_perm _ _ Hperm), (token_sum_perm _ _ Hperm'),
    (Permutation_length Hperm), (Permutation_length Hperm').
  exact Hrows.
Qed.

Lemma dashboard_after_completion_witness :
  stat_completedTasks (stats (tasks (db (process hello_world bridge0)))
                         (agents (db (process hello_world bridge0))))
  = S (stat_completedTasks
         (stats (tasks (db (process (firstn 4 hello_world) bridge0)))
            (agents (db (process (firstn 4 hello_world) bridge0))))).
Proof.
  refine (proj1
    (dashboard_after_completion (env_n 5 "5") "r1" "s1" tokens42
       (process (firstn 4 hello_world) bridge0)
       (set_in_progress (env_n 1 "1") task1) "a1" (set_working (env_n 1 "1") agent1)
       (tasks (db (process (firstn 4 hello_world) bridge0)))
       (tasks (db (process hello_world bridge0)))
       (agents (db (process (firstn 4 hello_world) bridge0)))
       (agents (db (process hello_world bridge0)))
       _ _ _ _ _ _ _ _ _)); try reflexivity.
  vm_compute. apply NoDup_cons. split; [apply not_elem_of_nil|apply NoDup_nil_2].
Defined.

End RoutesFacts.

(** * Properties of the path from a frame to the observers *)

Section PipelineFacts.
Import Pipeline.

Lemma processRawEvent_unrecognized frame :
  ~ Client.recognized frame -> Client.typed_events frame = [].
Proof.
  intros Hn. unfold Client.typed_events.
  destruct frame as [p|p| |]; simpl in *; try reflexivity.
  - unfold Client.processAgentEvent.
    destruct (String.eqb_spec (Client.a_stream p) "lifecycle") as [Hl|Hl].
    + destruct (phase (Client.a_data p)) as [ph|] eqn:Hph; [|reflexivity].
      destruct (String.eqb_spec ph "start") as [->|_]; [exfalso; apply Hn; auto|].
      destruct (String.eqb_spec ph "end") as [->|_]; [exfalso; apply Hn; auto|].
      destruct (String.eqb_spec ph "error") as [->|_]; [exfalso; apply Hn; auto|].
      reflexivity.
    + destruct (String.eqb_spec (Client.a_stream p) "tool") as [Ht|_];
        [exfalso; apply Hn; auto|].
      destruct (String.eqb_spec (Client.a_stream p) "assistant") as [Ha|_];
        [exfalso; apply Hn; auto|].
      reflexivity.
  - unfold Client.processChatEvent.
    destruct (String.eqb_spec (Client.c_state p) "delta") as [Hd|_];
      [exfalso; apply Hn; auto|].
    destruct (String.eqb_spec (Client.c_state p) "final") as [Hf|_];
      [exfalso; apply Hn; auto|].
    reflexivity.
Qed.

(** Only typed emissions reach a handler. *)
Lemma on_frame_typed env frame b :
  on_frame env frame b
  = fold_left (fun st n => snd (Bridge.dispatch env n st)) (Client.typed_events frame) b.
Proof.
  unfold on_frame, Client.typed_events.
  generalize (Client.processRawEvent frame) as l. intros l. revert b.
  induction l as [|e l IH]; intros b; simpl; [reflexivity|].
  destruct e; simpl; apply IH.
Qed.

(** A frame the emitter does not refine (a session or heartbeat frame, an
    unknown stream, phase or chat state) and a final chat frame leave the
    bridge exactly as it was. *)
Theorem unrefined_frames_leave_bridge env frame b :
  (~ Client.recognized frame -> on_frame env frame b = b)
  /\ (forall p, frame = Client.ChatEvent p -> Client.c_state p = "final" ->
                on_frame env frame b = b).
Proof.
  split.
  - intros Hn. rewrite on_frame_typed, processRawEvent_unrecognized by exact Hn.
    reflexivity.
  - intros p -> Hfinal. unfold on_frame. simpl.
    unfold Client.processChatEvent. rewrite Hfinal. reflexivity.
Qed.

Lemma unrefined_frames_leave_bridge_witness :
  on_frame (Bridge.env_n 1 "1") Client.HeartbeatEvent Bridge.bridge0 = Bridge.bridge0.
Proof.
  apply (proj1 (unrefined_frames_leave_bridge (Bridge.env_n 1 "1") Client.HeartbeatEvent
                  Bridge.bridge0)).
  intros H. exact H.
Defined.

(** When one piece of assistant text arrives both as an assistant frame
    of the agent stream and as a delta frame of the chat stream, both become
    AssistantDelta and the bridge appends both, so the text stands twice in
    the run's buffer. *)
Theorem parallel_streams_append_twice env1 env2 pa pc r txt b :
  Client.a_stream pa = "assistant" ->
  Client.a_runId pa = r ->
  text (Client.a_data pa) = txt ->
  Client.c_state pc = "delta" ->
  Client.c_runId pc = r ->
  Client.first_block_text (Client.c_message pc) = txt ->
  Bridge.getOutputBuffer r
    (on_frames [(env1, Client.AgentEvent pa); (env2, Client.ChatEvent pc)] b)
  = String.append (Bridge.getOutputBuffer r b) (String.append txt txt).
Proof.
  intros Hstream Hrun Htext Hstate Hrun' Htext'.
  unfold on_frames, on_frame. simpl.
  unfold Client.processAgentEvent, Client.processChatEvent.
  rewrite Hstream, Hstate, Hrun, Hrun', Htext, Htext'. simpl.
  unfold Bridge.getOutputBuffer.
  rewrite !handleAssistantDelta_accumulators, !lookup_insert_eq. simpl.
  apply string_append_assoc.
Qed.

Lemma parallel_streams_append_twice_witness :
  Bridge.getOutputBuffer "r1"
    (on_frames [ (Bridge.env_n 2 "2", assistant_frame "r1" "Hi");
                 (Bridge.env_n 3 "3", chat_delta_frame "r1" "Hi") ] Bridge.bridge0)
  = "HiHi".
Proof.
  apply (parallel_streams_append_twice (Bridge.env_n 2 "2") (Bridge.env_n 3 "3")
           _ _ "r1" "Hi" Bridge.bridge0); reflexivity.
Defined.

Lemma received_relay_cons w env m rest cs :
  Hub.received w (relay env (m :: rest) cs)
  = Hub.received w (Hub.on_ws_broadcast env m cs) ++ Hub.received w (relay env rest cs).
Proof. unfold relay. simpl. apply received_app. Qed.

(** The messages the bridge emits reach every registered open socket in
    the order of emission, each one once, or twice when it is a task update
    or output delta of a task the socket is subscribed to; none is lost and
    none overtakes another. *)
Theorem relay_keeps_order env messages cs w :
  Hub.reachable cs ->
  Hub.registered w cs ->
  Hub.is_open env w = true ->
  Hub.received w (relay env messages cs) = flat_map (fun m => copies m w cs) messages.
Proof.
  intros Hreach [c Hc] Hopen. pose proof (reachable_wf cs Hreach) as Hwf.
  induction messages as [|m rest IH]; [reflexivity|].
  rewrite received_relay_cons, IH, received_on_ws_broadcast by exact Hwf.
  rewrite Hc, Hopen. reflexivity.
Qed.

Lemma relay_keeps_order_witness :
  map msg_type
    (Hub.received 1%nat
       (relay (Hub.all_open 9)
          (Bridge.emitted (Bridge.process Bridge.hello_world Bridge.bridge0))
          Hub.two_observers))
  = map msg_type
      (flat_map (fun m => copies m 1%nat Hub.two_observers)
         (Bridge.emitted (Bridge.process Bridge.hello_world Bridge.bridge0))).
Proof.
  apply (f_equal (map msg_type)).
  apply (relay_keeps_order (Hub.all_open 9) _ Hub.two_observers 1%nat).
  - exact two_observers_reachable.
  - eexists. reflexivity.
  - reflexivity.
Defined.

End PipelineFacts.

(** * Properties of the identifiers *)

Section IdsFacts.
Import Stdlib.Strings.Ascii.
Import Ids.

Lemma split_on_nonempty sep s : split_on sep s <> [].
Proof.
  destruct s as [|c s]; simpl; [discriminate|].
  destruct (Ascii.eqb c sep); [discriminate|].
  destruct (split_on sep s); discriminate.
Qed.

Lemma split_on_absent sep s : contains sep s = false -> split_on sep s = [s].
Proof.
  induction s as [|c s IH]; simpl; [reflexivity|].
  intros H. apply orb_false_iff in H as [Hc Hs].
  rewrite Hc, (IH Hs). reflexivity.
Qed.

(** Splitting at a separator that is there gives at least two pieces. *)
Lemma split_on_present sep s :
  contains sep s = true -> (2 <= length (split_on sep s))%nat.
Proof.
  induction s as [|c s IH]; simpl; [discriminate|].
  destruct (Ascii.eqb c sep) eqn:Hc; simpl.
  - intros _. pose proof (split_on_nonempty sep s).
    destruct (split_on sep s); [contradiction|simpl; lia].
  - intros Hs. specialize (IH Hs).
    destruct (split_on sep s) as [|h t]; simpl in *; lia.
Qed.

Lemma split_on_append sep p v :
  contains sep p = false ->
  split_on sep (String.append p (String sep v)) = p :: split_on sep v.
Proof.
  induction p as [|c p IH]; simpl.
  - intros _. rewrite Ascii.eqb_refl. reflexivity.
  - intros H. apply orb_false_iff in H as [Hc Hp].
    change (String.append (String c p) (String sep v))
      with (String c (String.append p (String sep v))).
    simpl. rewrite Hc, (IH Hp). reflexivity.
Qed.

Lemma split_on_append_present sep p v :
  contains sep p = true ->
  (3 <= length (split_on sep (String.append p (String sep v))))%nat.
Proof.
  induction p as [|c p IH]; simpl; [discriminate|].
  change (String.append (String c p) (String sep v))
    with (String c (String.append p (String sep v))).
  simpl. destruct (Ascii.eqb c sep) eqn:Hc; simpl.
  - intros _.
    assert (H : contains sep (String.append p (String sep v)) = true).
    { clear. induction p as [|x p IH]; simpl.
      - rewrite Ascii.eqb_refl. reflexivity.
      - change (String.append (String x p) (String sep v))
          with (String x (String.append p (String sep v))).
        simpl. rewrite IH. apply orb_true_r. }
    pose proof (split_on_present sep _ H). lia.
  - intros Hp. specialize (IH Hp).
    destruct (split_on sep (String.append p (String sep v))); simpl in *; lia.
Qed.

Lemma generated_not_empty p v : String.eqb (generatePrefixedId p v) "" = false.
Proof. unfold generatePrefixedId. destruct p; reflexivity. Qed.

(** A generated identifier parses back into its prefix and its random part
    exactly when neither contains an underscore; the alphabet of the random
    part includes the underscore, and an identifier whose random part has one
    is answered with [null]. *)
Theorem parse_generated_id prefix body :
  parsePrefixedId (generatePrefixedId prefix body)
  = if contains "_" prefix || contains "_" body then None else Some (prefix, body).
Proof.
  unfold parsePrefixedId. rewrite generated_not_empty. unfold generatePrefixedId.
  destruct (contains "_" prefix) eqn:Hp; simpl.
  - pose proof (split_on_append_present "_" prefix body Hp) as Hlen.
    destruct (split_on _ _) as [|a [|b [|c l]]]; simpl in Hlen; try lia. reflexivity.
  - rewrite split_on_append by exact Hp.
    destruct (contains "_" body) eqn:Hb.
    + pose proof (split_on_present "_" body Hb) as Hlen.
      destruct (split_on "_" body) as [|a [|b l]]; simpl in Hlen; try lia. reflexivity.
    + rewrite split_on_absent by exact Hb. reflexivity.
Qed.

Example run_id_with_underscore :
  url_safe "_" = true
  /\ parsePrefixedId (generatePrefixedId "run" "V1StGXR8_Z5j") = None
  /\ parsePrefixedId (generatePrefixedId "run" "V1StGXR8aZ5j") = Some ("run", "V1StGXR8aZ5j").
Proof. repeat split. Qed.

End IdsFacts.

(** * Properties of waiting for a run *)

Section WaitFacts.
Import Wait.
Variable result_of : AgentData -> string.

Lemma wait_resolved runId inputs c :
  fold_left (fun s i => step result_of runId i s) inputs (Resolved c) = Resolved c.
Proof. induction inputs as [|i rest IH]; simpl; [reflexivity|exact IH]. Qed.

Lemma wait_pending runId inputs :
  forallb (fun i => negb (decisive runId i)) inputs = true ->
  fold_left (fun s i => step result_of runId i s) inputs Pending = Pending.
Proof.
  induction inputs as [|i rest IH]; [reflexivity|].
  cbn [forallb fold_left].
  intros H. apply andb_true_iff in H as [Hi Hrest]. apply negb_true_iff in Hi.
  assert (Hstep : step result_of runId i Pending = Pending).
  { destruct i as [e|]; [|discriminate].
    destruct e; simpl in *; try reflexivity; rewrite Hi; reflexivity. }
  rewrite Hstep. apply IH. exact Hrest.
Qed.

(** A wait for a run is settled by the first of: a LifecycleEnd of that
    run (completed, with the result the event carries), a LifecycleError of
    that run (failed, with its error text), and the timer (timeout).  Events
    of other runs and everything after the settling one change nothing; with
    none of the three the promise stays pending. *)
Theorem wait_settled_by_first runId before after :
  forallb (fun i => negb (decisive runId i)) before = true ->
  (forall sk data,
      waitForRunCompletion result_of runId
        (before ++ Emitted (LifecycleEnd runId sk data) :: after)
      = Resolved (Completed (result_of data)))
  /\ (forall sk err,
        waitForRunCompletion result_of runId
          (before ++ Emitted (LifecycleError runId sk err) :: after)
        = Resolved (Failed err))
  /\ waitForRunCompletion result_of runId (before ++ TimeoutFires :: after)
     = Resolved TimedOut
  /\ waitForRunCompletion result_of runId before = Pending.
Proof.
  intros Hbefore. unfold waitForRunCompletion.
  repeat split; intros;
    rewrite ?fold_left_app, wait_pending by exact Hbefore; simpl;
    rewrite ?String.eqb_refl; try apply wait_resolved; reflexivity.
Qed.

End WaitFacts.

Lemma wait_settled_by_first_witness :
  Wait.waitForRunCompletion text "r1"
    ([Wait.Emitted (AssistantDelta "r1" "x");
      Wait.Emitted (LifecycleEnd "r2" "s2" Bridge.tokens42)]
       ++ Wait.TimeoutFires :: [Wait.Emitted (LifecycleEnd "r1" "s1" Bridge.tokens42)])
  = Wait.Resolved Wait.TimedOut.
Proof.
  exact (proj1 (proj2 (proj2
    (wait_settled_by_first text "r1"
       [Wait.Emitted (AssistantDelta "r1" "x");
        Wait.Emitted (LifecycleEnd "r2" "s2" Bridge.tokens42)]
       [Wait.Emitted (LifecycleEnd "r1" "s1" Bridge.tokens42)] eq_refl)))).
Defined.

(** * Further properties of the gateway client *)

Section ClientInvariants.
Import Client ClientView.

Lemma client_run_cons i rest c :
  run (i :: rest) c
  = (fst (run rest (fst (step i c))), snd (step i c) ++ snd (run rest (fst (step i c)))).
Proof.
  simpl. destruct (step i c) as [c1 e1]. simpl.
  destruct (run rest c1) as [c2 e2]. reflexivity.
Qed.

Lemma client_run_app l1 l2 : forall c,
  run (l1 ++ l2) c
  = (fst (run l2 (fst (run l1 c))), snd (run l1 c) ++ snd (run l2 (fst (run l1 c)))).
Proof.
  induction l1 as [|i l1 IH]; intros c.
  - simpl. destruct (run l2 c). reflexivity.
  - change ((i :: l1) ++ l2) with (i :: (l1 ++ l2)).
    rewrite !client_run_cons, IH. simpl. rewrite app_assoc. reflexivity.
Qed.

Lemma step_in_range c0 i c :
  in_range c0 c ->
  in_range c0 (fst (step i c)) /\ Forall (backoff_delay c0) (delays (snd (step i c))).
Proof.
  intros (Hrange & Hmax & Hdelay). unfold in_range.
  destruct i; simpl.
  - unfold connect. destruct (isConnecting c || is_open c); simpl; auto.
  - unfold disconnect. simpl. split; [lia|]. destruct (ws c); simpl; constructor.
  - unfold on_open. simpl. split; [lia|].
    destruct (ws c); simpl; constructor.
  - unfold on_close, scheduleReconnect. simpl.
    destruct (Z.leb_spec (maxReconnectAttempts c) (reconnectAttempts c)); simpl.
    + split; [lia|]. constructor.
    + split; [lia|]. constructor; [|constructor].
      exists (reconnectAttempts c + 1). rewrite <- Hmax, <- Hdelay. split; [lia|reflexivity].
  - unfold on_error. simpl. split; [lia|].
    destruct (reconnectAttempts c =? 0); simpl; constructor.
  - split; [lia|]. unfold delays.
    induction (processRawEvent event); simpl; [constructor|assumption].
  - unfold connect. destruct (isConnecting c || is_open c); simpl; auto.
Qed.

Lemma run_in_range c0 inputs : forall c,
  in_range c0 c ->
  in_range c0 (fst (run inputs c)) /\ Forall (backoff_delay c0) (delays (snd (run inputs c))).
Proof.
  induction inputs as [|i rest IH]; intros c Hc.
  - simpl. split; [exact Hc|constructor].
  - rewrite client_run_cons. simpl.
    destruct (step_in_range c0 i c Hc) as [Hc1 Hd1].
    destruct (IH _ Hc1) as [Hc2 Hd2].
    split; [exact Hc2|]. rewrite delays_app. apply Forall_app. auto.
Qed.

(** Whatever happens to a client, its attempt counter stays between 0 and
    the ceiling and its settings stay as they were; every timer it sets is
    [base * 2^(n-1)] ms for an attempt [n] between 1 and the ceiling, which
    for the default client lies between 1000 and 512000 ms. *)
Theorem counter_and_delays_bounded inputs c :
  0 <= reconnectAttempts c <= maxReconnectAttempts c ->
  (0 <= reconnectAttempts (fst (run inputs c)) <= maxReconnectAttempts c
   /\ maxReconnectAttempts (fst (run inputs c)) = maxReconnectAttempts c
   /\ reconnectDelay (fst (run inputs c)) = reconnectDelay c
   /\ Forall (backoff_delay c) (delays (snd (run inputs c))))
  /\ Forall (fun d => 1000 <= d <= 512000) (delays (snd (run inputs new_client))).
Proof.
  intros Hc. split.
  - destruct (run_in_range c inputs c) as [(Hr & Hm & Hd) Hdelays].
    { unfold in_range. auto. }
    rewrite Hm in Hr. auto.
  - destruct (run_in_range new_client inputs new_client) as [_ Hdelays].
    { unfold in_range. simpl. lia. }
    eapply Forall_impl; [exact Hdelays|].
    intros d (n & Hn & ->). simpl in *.
    assert (H1 : 2 ^ 0 <= 2 ^ (n - 1)) by (apply Z.pow_le_mono_r; lia).
    assert (H2 : 2 ^ (n - 1) <= 2 ^ 9) by (apply Z.pow_le_mono_r; lia).
    change (2 ^ 0) with 1 in H1. change (2 ^ 9) with 512 in H2. lia.
Qed.

Lemma counter_and_delays_bounded_witness :
  0 <= reconnectAttempts (fst (run (unreachable_gateway 3) new_client))
    <= maxReconnectAttempts new_client.
Proof.
  refine (proj1 (proj1 (counter_and_delays_bounded (unreachable_gateway 3) new_client _))).
  simpl. lia.
Defined.

Lemma connect_again c : connect (fst (connect c)) = (fst (connect c), []).
Proof.
  unfold connect. destruct (isConnecting c || is_open c) eqn:E; simpl.
  - rewrite E. reflexivity.
  - reflexivity.
Qed.

Lemma connects_after_connect k c :
  run (repeat CallConnect k) (fst (connect c)) = (fst (connect c), []).
Proof.
  induction k as [|k IH]; [reflexivity|].
  change (repeat CallConnect (S k)) with (CallConnect :: repeat CallConnect k).
  rewrite client_run_cons. cbn [step]. rewrite connect_again. cbn [fst snd].
  rewrite IH. reflexivity.
Qed.

(** [connect()] is idempotent: however often it is called in a row, one
    socket at most is created and the state is the one the first call left;
    while a connection attempt is under way or the socket is open it does
    nothing at all. *)
Theorem connect_is_idempotent n c :
  run (repeat CallConnect (S n)) c = connect c
  /\ (isConnecting c = true \/ is_open c = true -> connect c = (c, [])).
Proof.
  split.
  - change (repeat CallConnect (S n)) with (CallConnect :: repeat CallConnect n).
    rewrite client_run_cons. cbn [step].
    rewrite connects_after_connect. cbn [fst snd].
    rewrite app_nil_r. destruct (connect c). reflexivity.
  - intros H. unfold connect.
    destruct H as [-> | ->]; [reflexivity|]. rewrite orb_true_r. reflexivity.
Qed.

Lemma connect_is_idempotent_witness :
  connect (fst (connect new_client)) = (fst (connect new_client), []).
Proof.
  apply (proj2 (connect_is_idempotent 0 (fst (connect new_client)))).
  left. reflexivity.
Defined.

(** A successful open resets the backoff: the first reconnection after it
    is scheduled after the base delay again, however many attempts preceded
    the open. *)
Theorem open_resets_backoff inputs reason :
  delays (snd (run (inputs ++ [SocketOpen; SocketClose reason]) new_client))
  = delays (snd (run inputs new_client)) ++ [1000].
Proof.
  rewrite client_run_app. cbn [fst snd]. rewrite delays_app. f_equal.
  destruct (run_in_range new_client inputs new_client) as [(_ & Hmax & Hdelay) _].
  { unfold in_range. simpl. lia. }
  simpl in Hmax, Hdelay.
  set (c := fst (run inputs new_client)) in *.
  rewrite !client_run_cons. cbn [step fst snd run]. rewrite !delays_app.
  replace (delays (snd (on_open c))) with (@nil Z)
    by (unfold on_open; simpl; destruct (ws c); reflexivity).
  unfold on_close, on_open, scheduleReconnect. simpl.
  rewrite Hmax, Hdelay. reflexivity.
Qed.

(** Without a socket opening in between, no more reconnections are
    scheduled than attempts are left below the ceiling. *)
Theorem reconnections_limited inputs : forall c,
  0 <= reconnectAttempts c <= maxReconnectAttempts c ->
  forallb (fun i => negb (is_successful_open i)) inputs = true ->
  Z.of_nat (length (delays (snd (run inputs c))))
  <= maxReconnectAttempts c - reconnectAttempts c.
Proof.
  induction inputs as [|i rest IH]; intros c Hc Hall.
  - simpl. lia.
  - simpl in Hall. apply andb_true_iff in Hall as [Hi Hrest].
    apply negb_true_iff in Hi.
    rewrite client_run_cons. simpl snd. rewrite delays_app, length_app.
    assert (Hstep :
      0 <= reconnectAttempts (fst (step i c)) <= maxReconnectAttempts (fst (step i c))
      /\ maxReconnectAttempts (fst (step i c)) = maxReconnectAttempts c
      /\ Z.of_nat (length (delays (snd (step i c))))
         + (maxReconnectAttempts c - reconnectAttempts (fst (step i c)))
         <= maxReconnectAttempts c - reconnectAttempts c).
    { destruct i; simpl in *; try discriminate.
      - unfold connect. destruct (isConnecting c || is_open c); simpl; lia.
      - unfold disconnect. simpl. destruct (ws c); simpl; lia.
      - unfold on_close, scheduleReconnect. simpl.
        destruct (Z.leb_spec (maxReconnectAttempts c) (reconnectAttempts c)); simpl; lia.
      - unfold on_error. simpl. destruct (reconnectAttempts c =? 0); simpl; lia.
      - unfold delays. replace (omap delay_of (map Emit (processRawEvent event))) with (@nil Z).
        + simpl. lia.
        + induction (processRawEvent event); simpl; [reflexivity|assumption].
      - unfold connect. destruct (isConnecting c || is_open c); simpl; lia. }
    destruct Hstep as (Hc1 & Hmax1 & Hle).
    specialize (IH _ Hc1 Hrest). rewrite Hmax1 in IH. lia.
Qed.

Lemma reconnections_limited_witness :
  Z.of_nat (length (delays (snd (run (unreachable_gateway 12) new_client)))) <= 10 - 0.
Proof.
  apply (reconnections_limited (unreachable_gateway 12) new_client).
  - simpl. lia.
  - reflexivity.
Defined.

End ClientInvariants.

(** * Further properties of the hub *)

Section HubMore.
Import Hub HubView.

Lemma send_effects env k m e : In e (send env k m) -> e = Send k m.
Proof.
  unfold send. destruct (readyState env k); simpl; intros H; try contradiction.
  destruct H as [<-|[]]. reflexivity.
Qed.

Lemma fanout_effects (sel : WSClient -> bool) env m (cs : Clients) e :
  In e (flat_map (fun '(_, client) =>
                    if sel client then send env (ws client) m else []) cs) ->
  exists k, e = Send k m.
Proof.
  intros Hin. apply in_flat_map in Hin as [[k c] [_ Hin]].
  destruct (sel c); [|contradiction].
  exists (ws c). eapply send_effects. exact Hin.
Qed.

(** Relaying a message only ever sends it. *)
Lemma on_ws_broadcast_effects env m cs e :
  In e (on_ws_broadcast env m cs) -> exists k, e = Send k m.
Proof.
  unfold on_ws_broadcast. intros Hin. apply in_app_or in Hin as [Hin|Hin].
  - destruct (task_scoped (msg_type m)); [|contradiction].
    destruct (data_taskId (msg_data m)) as [t|]; [|contradiction].
    destruct (truthy (Some t)); [|contradiction].
    exact (fanout_effects (fun c => bool_decide (t ∈ subscribedTasks c)) env m cs e Hin).
  - exact (fanout_effects (fun _ => true) env m cs e Hin).
Qed.

(** Only the heartbeat terminates a socket. *)
Lemma step_terminates_only_on_tick w env i cs :
  i <> HeartbeatTick -> ~ terminated w (snd (step env i cs)).
Proof.
  unfold terminated. intros Hi Hin.
  destruct i as [w'|w'|w' message|w'| |m]; simpl in Hin.
  - destruct Hin as [Hin|Hin]; [discriminate|].
    apply send_effects in Hin. discriminate.
  - destruct (clients_get w' cs); simpl in Hin; contradiction.
  - destruct (clients_get w' cs) as [c|]; simpl in Hin; [|contradiction].
    destruct message; simpl in Hin; try contradiction.
    + apply send_effects in Hin. discriminate.
    + destruct Hin as [Hin|[]]. discriminate.
  - destruct Hin as [Hin|[]]. discriminate.
  - contradiction.
  - apply on_ws_broadcast_effects in Hin as [k Hk]. discriminate.
Qed.

Lemma heartbeat_effect_registered w cs :
  In (Terminate w) (snd (heartbeat cs)) \/ In (Ping w) (snd (heartbeat cs)) ->
  clients_get w cs <> None.
Proof.
  induction cs as [|[k v] rest IH]; simpl.
  - intros [[]|[]].
  - destruct (heartbeat rest) as [rest' eff]. simpl in IH.
    destruct (Nat.eqb_spec k w) as [->|Hne]; [discriminate|].
    destruct (isAlive v); simpl; intros [[Hin|Hin]|[Hin|Hin]];
      try (injection Hin as Hin; contradiction); try discriminate;
      apply IH; auto.
Qed.

(** One tick pings the sockets that answered the last ping and keeps them
    with their subscriptions; it terminates the others and removes them.  No
    socket gets both, and the tick has one effect per registered socket. *)
Theorem heartbeat_pings_or_terminates cs w c :
  reachable cs ->
  clients_get w cs = Some c ->
  length (snd (heartbeat cs)) = getClientCount cs
  /\ (isAlive c = true ->
      pinged w (snd (heartbeat cs))
      /\ ~ terminated w (snd (heartbeat cs))
      /\ registered w (fst (heartbeat cs))
      /\ subscriptions w (fst (heartbeat cs)) = subscriptions w cs)
  /\ (isAlive c = false ->
      terminated w (snd (heartbeat cs))
      /\ ~ pinged w (snd (heartbeat cs))
      /\ ~ registered w (fst (heartbeat cs))).
Proof.
  intros Hreach Hget. pose proof (reachable_wf cs Hreach) as Hwf.
  split; [|split].
  - unfold getClientCount. clear. induction cs as [|[k v] rest IH]; simpl; [reflexivity|].
    destruct (heartbeat rest) as [rest' eff]. simpl in IH.
    destruct (isAlive v); simpl; rewrite IH; reflexivity.
  - intros Halive.
    pose proof (heartbeat_get w cs Hwf) as Hafter. rewrite Hget, Halive in Hafter.
    assert (Heff : pinged w (snd (heartbeat cs)) /\ ~ terminated w (snd (heartbeat cs))).
    { unfold pinged, terminated. clear Hafter Hreach.
      induction cs as [|[k v] rest IH]; simpl in *; [discriminate|].
      destruct Hwf as (Hk & Hnone & Hwf).
      pose proof (heartbeat_effect_registered k rest) as Hreg.
      destruct (heartbeat rest) as [rest' eff]. simpl in *.
      destruct (Nat.eqb_spec k w) as [->|Hne].
      - injection Hget as ->. rewrite Halive. simpl.
        split; [left; reflexivity|].
        intros [Hin|Hin]; [discriminate|]. apply Hreg; [left; exact Hin|exact Hnone].
      - destruct (IH Hget Hwf) as [Hping Hterm].
        destruct (isAlive v); simpl.
        + split; [right; exact Hping|]. intros [Hin|Hin]; [discriminate|auto].
        + split; [right; exact Hping|].
          intros [Hin|Hin]; [injection Hin as Hin; contradiction|auto]. }
    destruct Heff as [Hping Hterm].
    split; [exact Hping|]. split; [exact Hterm|].
    unfold registered, subscriptions. rewrite Hafter, Hget. simpl. split; [eauto|reflexivity].
  - intros Halive.
    pose proof (heartbeat_get w cs Hwf) as Hafter. rewrite Hget, Halive in Hafter.
    split; [eapply heartbeat_terminates; eassumption|].
    split.
    + unfold pinged. clear Hafter Hreach.
      induction cs as [|[k v] rest IH]; simpl in *; [discriminate|].
      destruct Hwf as (Hk & Hnone & Hwf).
      pose proof (heartbeat_effect_registered k rest) as Hreg.
      destruct (heartbeat rest) as [rest' eff]. simpl in *.
      destruct (Nat.eqb_spec k w) as [->|Hne].
      * injection Hget as ->. rewrite Halive. simpl.
        intros [Hin|Hin]; [discriminate|]. apply Hreg; [right; exact Hin|exact Hnone].
      * specialize (IH Hget Hwf).
        destruct (isAlive v); simpl; intros [Hin|Hin];
          try discriminate; try (injection Hin as Hin; contradiction); auto.
    + unfold registered. rewrite Hafter. intros [x Hx]. discriminate.
Qed.

Lemma heartbeat_pings_or_terminates_witness :
  pinged 1%nat (snd (heartbeat two_observers)).
Proof.
  pose proof (heartbeat_pings_or_terminates two_observers 1%nat
                {| ws := 1%nat; subscribedTasks := {["t1"]} ∪ ∅; isAlive := true |}
                two_observers_reachable eq_refl) as (_ & Halive & _).
  exact (proj1 (Halive eq_refl)).
Defined.

Lemma heartbeat_spares_alive w c cs :
  wf cs -> clients_get w cs = Some c -> isAlive c = true ->
  ~ terminated w (snd (heartbeat cs)).
Proof.
  unfold terminated.
  induction cs as [|[k v] rest IH]; simpl; [discriminate|].
  intros (Hk & Hnone & Hwf) Hget Halive.
  pose proof (heartbeat_effect_registered k rest) as Hreg.
  destruct (heartbeat rest) as [rest' eff]. simpl in *.
  destruct (Nat.eqb_spec k w) as [->|Hne].
  - injection Hget as ->. rewrite Halive. simpl.
    intros [Hin|Hin]; [discriminate|]. apply Hreg; [left; exact Hin|exact Hnone].
  - specialize (IH Hwf Hget Halive).
    destruct (isAlive v); simpl; intros [Hin|Hin];
      try discriminate; try (injection Hin as Hin; contradiction); auto.
Qed.

(** One input taken by a socket that is registered and, unless a ping is
    outstanding, alive. *)
Lemma answers_step w env i rest waiting c cs :
  wf cs ->
  clients_get w cs = Some c ->
  (waiting = false -> isAlive c = true) ->
  answers w waiting ((env, i) :: rest) = true ->
  ~ terminated w (snd (step env i cs))
  /\ exists waiting' c',
      clients_get w (fst (step env i cs)) = Some c'
      /\ (waiting' = false -> isAlive c' = true)
      /\ answers w waiting' rest = true.
Proof.
  intros Hwf Hget Hinv Hanswers.
  destruct i as [w'|w'|w' message|w'| |m].
  - split; [apply step_terminates_only_on_tick; discriminate|].
    simpl in *. destruct (Nat.eq_dec w w') as [->|Hne].
    + exists waiting, {| ws := w'; subscribedTasks := ∅; isAlive := true |}.
      rewrite clients_get_set_eq. auto.
    + exists waiting, c. rewrite clients_get_set_ne by exact Hne. auto.
  - split; [apply step_terminates_only_on_tick; discriminate|].
    simpl in *. destruct (Nat.eqb_spec w' w) as [->|Hne].
    + rewrite Hget. simpl.
      exists false, {| ws := ws c; subscribedTasks := subscribedTasks c; isAlive := true |}.
      rewrite clients_get_set_eq. auto.
    + exists waiting, c.
      destruct (clients_get w' cs); simpl; [|auto].
      rewrite clients_get_set_ne by congruence. auto.
  - split; [apply step_terminates_only_on_tick; discriminate|].
    simpl in *.
    destruct (clients_get w' cs) as [v|] eqn:Hv; simpl; [|exists waiting, c; auto].
    pose proof (handleClientMessage_keeps env v message) as [_ Hkeep].
    destruct (handleClientMessage env v message) as [v' eff]. simpl in *.
    destruct (Nat.eq_dec w w') as [->|Hne].
    + exists waiting, v'. rewrite clients_get_set_eq.
      split; [reflexivity|]. split; [|exact Hanswers].
      intros Hw. rewrite Hkeep. rewrite Hget in Hv. injection Hv as <-. auto.
    + exists waiting, c. rewrite clients_get_set_ne by exact Hne. auto.
  - split; [apply step_terminates_only_on_tick; discriminate|].
    simpl in *. apply andb_true_iff in Hanswers as [Hclose Hanswers].
    apply negb_true_iff, Nat.eqb_neq in Hclose.
    exists waiting, c. rewrite clients_get_delete_ne by congruence. auto.
  - simpl in *. apply andb_true_iff in Hanswers as [Hwaiting Hanswers].
    apply negb_true_iff in Hwaiting. specialize (Hinv Hwaiting).
    split; [eapply heartbeat_spares_alive; eassumption|].
    exists true, {| ws := ws c; subscribedTasks := subscribedTasks c; isAlive := false |}.
    rewrite heartbeat_get by exact Hwf. rewrite Hget, Hinv.
    split; [reflexivity|]. split; [discriminate|exact Hanswers].
  - split; [apply step_terminates_only_on_tick; discriminate|].
    simpl in *. exists waiting, c. auto.
Qed.

Lemma answers_run w inputs : forall waiting c cs,
  wf cs ->
  clients_get w cs = Some c ->
  (waiting = false -> isAlive c = true) ->
  answers w waiting inputs = true ->
  registered w (fst (run inputs cs)) /\ ~ terminated w (snd (run inputs cs)).
Proof.
  induction inputs as [|[env i] rest IH]; intros waiting c cs Hwf Hget Hinv Hanswers.
  - simpl. split; [exists c; exact Hget|intros []].
  - destruct (answers_step w env i rest waiting c cs Hwf Hget Hinv Hanswers)
      as (Hterm & waiting' & c' & Hget' & Hinv' & Hanswers').
    rewrite run_cons. cbn [fst snd].
    destruct (IH waiting' c' _ (wf_step env i cs Hwf) Hget' Hinv' Hanswers')
      as [Hreg Hterm'].
    split; [exact Hreg|].
    unfold terminated in *. intros Hin. apply in_app_or in Hin as [Hin|Hin]; auto.
Qed.

(** A registered socket that answers every ping before the next tick, and
    does not close, is never evicted: whatever else happens in between, it is
    still registered at the end and was never terminated. *)
Theorem responsive_socket_stays cs w inputs :
  reachable cs ->
  alive w cs ->
  answers w false inputs = true ->
  registered w (fst (run inputs cs)) /\ ~ terminated w (snd (run inputs cs)).
Proof.
  intros Hreach (c & Hget & Halive) Hanswers.
  apply (answers_run w inputs false c cs); auto using reachable_wf.
Qed.

Lemma responsive_socket_stays_witness :
  registered 1%nat
    (fst (run [tick 30; (all_open 31, Pong 1%nat); tick 60; (all_open 61, Pong 1%nat);
               tick 90] two_observers)).
Proof.
  refine (proj1 (responsive_socket_stays two_observers 1%nat
                   [tick 30; (all_open 31, Pong 1%nat); tick 60;
                    (all_open 61, Pong 1%nat); tick 90]
                   two_observers_reachable _ eq_refl)).
  eexists. split; reflexivity.
Defined.

(** Subscribing a registered socket to a task adds that task to its
    subscriptions and to nobody else's, after which a message sent to the
    task reaches the socket once if it is open; unsubscribing removes the
    task again, after which such a message no longer reaches it. *)
Theorem subscribe_then_unsubscribe cs w t env1 env2 :
  reachable cs ->
  registered w cs ->
  let cs1 := fst (step env1 (Message w (SubscribeTask t)) cs) in
  let cs2 := fst (step env2 (Message w (UnsubscribeTask t)) cs1) in
  subscriptions w cs1 = {[t]} ∪ subscriptions w cs
  /\ (forall w', w' <> w -> subscriptions w' cs1 = subscriptions w' cs)
  /\ subscriptions w cs2 = subscriptions w cs ∖ {[t]}
  /\ (forall env m, is_open env w = true ->
                    received w (broadcastToTask env t m cs1) = [m])
  /\ (forall env m, received w (broadcastToTask env t m cs2) = []).
Proof.
  intros Hreach [c Hc] cs1 cs2. pose proof (reachable_wf cs Hreach) as Hwf.
  assert (Hcs1 : cs1 = clients_set w {| ws := ws c;
                                        subscribedTasks := {[t]} ∪ subscribedTasks c;
                                        isAlive := isAlive c |} cs).
  { subst cs1. simpl. rewrite Hc. reflexivity. }
  assert (Hget1 : clients_get w cs1
                  = Some {| ws := ws c;
                            subscribedTasks := {[t]} ∪ subscribedTasks c;
                            isAlive := isAlive c |})
    by (rewrite Hcs1; apply clients_get_set_eq).
  assert (Hcs2 : clients_get w cs2
                 = Some {| ws := ws c;
                           subscribedTasks := ({[t]} ∪ subscribedTasks c) ∖ {[t]};
                           isAlive := isAlive c |}).
  { subst cs2. simpl. rewrite Hget1. simpl. apply clients_get_set_eq. }
  assert (Hwf1 : wf cs1) by (apply wf_step; exact Hwf).
  assert (Hwf2 : wf cs2) by (apply wf_step; exact Hwf1).
  unfold subscriptions. rewrite Hget1, Hcs2, Hc. simpl.
  split; [reflexivity|]. split; [|split; [|split]].
  - intros w' Hne. rewrite Hcs1, clients_get_set_ne by exact Hne. reflexivity.
  - set_solver.
  - intros env m Hopen. rewrite received_broadcastToTask by exact Hwf1.
    rewrite Hget1. simpl. rewrite bool_decide_eq_true_2 by set_solver.
    rewrite Hopen. reflexivity.
  - intros env m. rewrite received_broadcastToTask by exact Hwf2.
    rewrite Hcs2. simpl. rewrite bool_decide_eq_false_2 by set_solver. reflexivity.
Qed.

Lemma subscribe_then_unsubscribe_witness :
  subscriptions 2%nat
    (fst (step (all_open 5) (Message 2%nat (SubscribeTask "t7")) two_observers))
  = {["t7"]} ∪ subscriptions 2%nat two_observers.
Proof.
  refine (proj1 (subscribe_then_unsubscribe two_observers 2%nat "t7"
                   (all_open 5) (all_open 6) two_observers_reachable _)).
  eexists. reflexivity.
Defined.

Lemma wf_keys_unique (cs : Clients) : wf cs -> NoDup (map fst cs).
Proof.
  induction cs as [|[k v] rest IH]; simpl; [constructor|].
  intros (_ & Hnone & Hwf). constructor; [|apply IH; exact Hwf].
  clear IH Hwf. intros Hin. apply list_elem_of_In in Hin.
  induction rest as [|[k' v'] rest IH]; simpl in *; [contradiction|].
  destruct (Nat.eqb_spec k' k) as [->|Hne]; [discriminate|].
  destruct Hin as [Hin|Hin]; [congruence|auto].
Qed.

Lemma clients_set_length w c (cs : Clients) :
  length (clients_set w c cs)
  = match clients_get w cs with
    | Some _ => length cs
    | None => S (length cs)
    end.
Proof.
  induction cs as [|[k v] rest IH]; simpl; [reflexivity|].
  destruct (Nat.eqb k w); simpl; [reflexivity|].
  rewrite IH. destruct (clients_get w rest); reflexivity.
Qed.

Lemma clients_delete_absent w (cs : Clients) :
  clients_get w cs = None -> clients_delete w cs = cs.
Proof.
  induction cs as [|[k v] rest IH]; simpl; [reflexivity|].
  destruct (Nat.eqb k w); [discriminate|]. intros H. rewrite IH by exact H. reflexivity.
Qed.

Lemma clients_delete_length w (cs : Clients) :
  wf cs ->
  length cs
  = match clients_get w cs with
    | Some _ => S (length (clients_delete w cs))
    | None => length (clients_delete w cs)
    end.
Proof.
  induction cs as [|[k v] rest IH]; simpl; [reflexivity|].
  intros (_ & Hnone & Hwf). destruct (Nat.eqb_spec k w) as [->|Hne].
  - rewrite clients_delete_absent by exact Hnone. reflexivity.
  - simpl. rewrite (IH Hwf). destruct (clients_get w rest); reflexivity.
Qed.

(** The client count counts sockets: the hub holds one entry per socket, a
    connection adds one to the count, the close of a registered socket takes
    one off, and subscriptions, pongs, ticks' pings and relayed messages
    leave the count alone. *)
Theorem client_count_counts_sockets cs :
  reachable cs ->
  NoDup (map fst cs)
  /\ (forall env w, ~ registered w cs ->
        getClientCount (fst (step env (Connection w) cs)) = S (getClientCount cs))
  /\ (forall env w, registered w cs ->
        S (getClientCount (fst (step env (Close w) cs))) = getClientCount cs)
  /\ (forall env w, ~ registered w cs ->
        fst (step env (Close w) cs) = cs)
  /\ (forall env w message,
        getClientCount (fst (step env (Message w message) cs)) = getClientCount cs)
  /\ (forall env w, getClientCount (fst (step env (Pong w) cs)) = getClientCount cs)
  /\ (forall env m, fst (step env (BridgeBroadcast m) cs) = cs).
Proof.
  intros Hreach. pose proof (reachable_wf cs Hreach) as Hwf.
  unfold getClientCount, registered.
  split; [apply wf_keys_unique; exact Hwf|].
  split; [|split; [|split; [|split; [|split]]]].
  - intros env w Hnot. simpl. rewrite clients_set_length.
    destruct (clients_get w cs); [exfalso; apply Hnot; eauto|reflexivity].
  - intros env w [c Hc]. simpl.
    rewrite (clients_delete_length w cs Hwf), Hc. reflexivity.
  - intros env w Hnot. simpl. apply clients_delete_absent.
    destruct (clients_get w cs); [exfalso; apply Hnot; eauto|reflexivity].
  - intros env w message. simpl.
    destruct (clients_get w cs) as [c|] eqn:Hc; simpl; [|reflexivity].
    destruct (handleClientMessage env c message) as [c' eff]. simpl.
    rewrite clients_set_length, Hc. reflexivity.
  - intros env w. simpl.
    destruct (clients_get w cs) as [c|] eqn:Hc; simpl; [|reflexivity].
    rewrite clients_set_length, Hc. reflexivity.
  - reflexivity.
Qed.

Lemma client_count_counts_sockets_witness :
  S (getClientCount (fst (step (all_open 4) (Close 1%nat) two_observers)))
  = getClientCount two_observers.
Proof.
  refine (proj1 (proj2 (proj2
    (client_count_counts_sockets two_observers two_observers_reachable)))
    (all_open 4) 1%nat _).
  eexists. reflexivity.
Defined.

End HubMore.

(** * Properties of the dashboard's socket store *)

Section DashboardFacts.
Import Dashboard.

Lemma reconnect_delay_bounds k :
  0 <= k -> 1000 <= reconnect_delay k <= 30000.
Proof.
  intros Hk. unfold reconnect_delay.
  assert (H : 2 ^ 0 <= 2 ^ k) by (apply Z.pow_le_mono_r; lia).
  change (2 ^ 0) with 1 in H. lia.
Qed.

Lemma failures_step n s :
  failures (S n) s
  = if Z.ltb (reconnectAttempts s) 10
    then SetTimeout (reconnect_delay (reconnectAttempts s)) (reconnectAttempts s)
         :: NewWebSocket
         :: failures n {| socket := Some CONNECTING;
                          isConnected := false;
                          reconnectAttempts := reconnectAttempts s + 1 |}
    else [].
Proof.
  cbn [failures]. unfold onclose.
  destruct (Z.ltb (reconnectAttempts s) 10); reflexivity.
Qed.

Lemma failures_delays n : forall s,
  0 <= reconnectAttempts s ->
  delays (failures n s)
  = map reconnect_delay
      (map (fun k => reconnectAttempts s + Z.of_nat k)
           (seq 0 (Nat.min n (Z.to_nat (10 - reconnectAttempts s))))).
Proof.
  induction n as [|n IH]; intros s Hge; [reflexivity|].
  rewrite failures_step.
  destruct (Z.ltb_spec (reconnectAttempts s) 10) as [Hlt|Hnot].
  - change (delays (?a :: ?b :: ?l)) with (reconnect_delay (reconnectAttempts s) :: delays l).
    rewrite IH by (cbn [reconnectAttempts]; lia).
    cbn [reconnectAttempts].
    replace (Z.to_nat (10 - reconnectAttempts s))
      with (S (Z.to_nat (10 - (reconnectAttempts s + 1)))) by lia.
    cbn [Nat.min seq map]. rewrite Z.add_0_r. f_equal.
    rewrite <- seq_shift, !map_map. apply map_ext. intros k. f_equal. lia.
  - replace (Z.to_nat (10 - reconnectAttempts s)) with 0%nat by lia.
    rewrite Nat.min_0_r. reflexivity.
Qed.

(** While the server stays away the store waits 1000 ms, then twice as
    long each time but never more than 30000 ms, and gives up after the tenth
    reconnection: [n] failures in a row set [min n 10] timers, the [k]-th
    (from 0) of [min (1000 * 2^k) 30000] ms. *)
Theorem dashboard_backoff n :
  delays (failures n new_store)
  = map reconnect_delay (map Z.of_nat (seq 0 (Nat.min n 10)))
  /\ Forall (fun d => 1000 <= d <= 30000) (delays (failures n new_store))
  /\ (length (delays (failures n new_store)) <= 10)%nat.
Proof.
  assert (Hdelays : delays (failures n new_store)
                    = map reconnect_delay (map Z.of_nat (seq 0 (Nat.min n 10)))).
  { rewrite failures_delays by (simpl; lia). reflexivity. }
  split; [exact Hdelays|]. rewrite Hdelays. split.
  - apply Forall_forall. intros d Hd. apply list_elem_of_In in Hd.
    apply in_map_iff in Hd as (k & <- & Hk).
    apply in_map_iff in Hk as (j & <- & _).
    apply reconnect_delay_bounds. lia.
  - rewrite !length_map, length_seq. lia.
Qed.

(** [disconnect()] does not end reconnection: it closes the socket, the
    socket's close handler sets the reconnect timer as for any other close,
    and when the timer fires a new socket is created. *)
Theorem disconnect_is_followed_by_reconnect s st :
  socket s = Some st ->
  reconnectAttempts s < 10 ->
  run [CallDisconnect; OnClose; TimerFires (reconnectAttempts s)] s
  = ({| socket := Some CONNECTING;
        isConnected := false;
        reconnectAttempts := reconnectAttempts s + 1 |},
     [SocketClose;
      SetTimeout (reconnect_delay (reconnectAttempts s)) (reconnectAttempts s);
      NewWebSocket]).
Proof.
  intros Hsock Hlt. simpl. unfold disconnect. rewrite Hsock. simpl.
  unfold onclose. simpl.
  destruct (Z.ltb_spec (reconnectAttempts s) 10); [|lia]. reflexivity.
Qed.

Lemma disconnect_is_followed_by_reconnect_witness :
  snd (run [CallDisconnect; OnClose; TimerFires 0]
         (fst (run [CallConnect; OnOpen] new_store)))
  = [SocketClose; SetTimeout 1000 0; NewWebSocket].
Proof.
  pose proof (disconnect_is_followed_by_reconnect
                (fst (run [CallConnect; OnOpen] new_store)) OPEN eq_refl) as H.
  simpl reconnectAttempts in H. rewrite H by lia. reflexivity.
Defined.

(** A subscription asked for while the socket is not open is dropped:
    no frame leaves, nothing queues it, and whatever happens next, the socket
    opening included, goes as if [subscribe] had never been called. *)
Theorem subscribe_before_open_is_lost s t rest :
  is_open s = false ->
  step (CallSubscribe t) s = (s, [])
  /\ run (CallSubscribe t :: rest) s = run rest s.
Proof.
  intros Hclosed.
  assert (Hstep : step (CallSubscribe t) s = (s, []))
    by (cbn [step]; unfold subscribe; rewrite Hclosed; reflexivity).
  split; [exact Hstep|].
  cbn [run]. rewrite Hstep. destruct (run rest s). reflexivity.
Qed.

Lemma subscribe_before_open_is_lost_witness :
  snd (run [CallSubscribe "t1"; OnOpen] (fst (connect new_store))) = [].
Proof.
  rewrite (proj2 (subscribe_before_open_is_lost (fst (connect new_store)) "t1"
                    [OnOpen] eq_refl)).
  reflexivity.
Defined.

End DashboardFacts.
